(** * Outpost inventory scraper: extraction, enumeration, consolidation,
      orchestration, the deck matcher and the basket

    A shallow embedding of

    - [scripts/scrape-outpost-complete.js] ([parseCollectionsFromHTML],
      [hasCards], [scrapeCollectionWithRetry], [parseCardData],
      [scrapeCollection], [saveProgress], [loadProgress],
      [consolidateCards], [scrapeAllCollections]),
    - the basic scraper script ([parseCollections], [scrapeCollection] with
      its card limit, [scrapeOutpost]),
    - [lib/store.ts] ([analyzeDeck], [addToBasket], [removeFromBasket],
      [updateBasketQuantity], [clearBasket], [toggleBasket], [addToast],
      [removeToast]),

    together with the JavaScript primitives these functions rely on. *)

From Stdlib Require Import ZArith NArith Bool String Ascii Lia.
From stdpp Require Import base list gmap strings.

Local Open Scope Z_scope.

(** ** JavaScript primitives *)

Module JS.

(** *** Strings

    A JavaScript string is a sequence of UTF-16 code units. *)

Abbreviation jsstring := (list N).

(** An ASCII literal as a JavaScript string. *)
Definition u (s : string) : jsstring :=
  List.map N_of_ascii (list_ascii_of_string s).

(** U+20AC, the euro sign. *)
Definition euro : N := 8364%N.

Definition str_eqb (a b : jsstring) : bool := bool_decide (a = b).

(** Truthiness of a string: the empty string is the only falsy one. *)
Definition truthy (s : jsstring) : bool :=
  match s with [] => false | _ => true end.

(** [x || ''] for an attribute that may be [undefined]. *)
Definition or_empty (o : option jsstring) : jsstring :=
  match o with Some s => s | None => [] end.

(** [WhiteSpace] and [LineTerminator] code points of ECMAScript, the ones
    [String.prototype.trim] and [parseInt] strip. *)
Definition is_ws (c : N) : bool :=
  (((9 <=? c) && (c <=? 13)) || (c =? 32) || (c =? 160) || (c =? 5760)
   || ((8192 <=? c) && (c <=? 8202)) || (c =? 8232) || (c =? 8233)
   || (c =? 8239) || (c =? 8287) || (c =? 12288) || (c =? 65279))%N.

(** [\d] without the unicode flag: [0-9]. *)
Definition is_digit (c : N) : bool := ((48 <=? c) && (c <=? 57))%N.

Fixpoint take_while (p : N -> bool) (s : jsstring) : jsstring :=
  match s with
  | c :: s' => if p c then c :: take_while p s' else []
  | [] => []
  end.

Fixpoint drop_while (p : N -> bool) (s : jsstring) : jsstring :=
  match s with
  | c :: s' => if p c then drop_while p s' else s
  | [] => []
  end.

Definition trimStart (s : jsstring) : jsstring := drop_while is_ws s.
Definition trimEnd (s : jsstring) : jsstring := rev (drop_while is_ws (rev s)).
Definition trim (s : jsstring) : jsstring := trimEnd (trimStart s).

Fixpoint startsWith (s p : jsstring) : bool :=
  match p, s with
  | [], _ => true
  | c :: p', d :: s' => (c =? d)%N && startsWith s' p'
  | _ :: _, [] => false
  end.

(** [s.includes(p)]. *)
Fixpoint includes (s p : jsstring) : bool :=
  startsWith s p ||
  match s with
  | [] => false
  | _ :: s' => includes s' p
  end.

(** [s.replace(p, r)] for a string pattern: the first occurrence only. *)
Fixpoint replace (s p r : jsstring) : jsstring :=
  if startsWith s p then r ++ drop (length p) s
  else match s with
       | [] => []
       | c :: s' => c :: replace s' p r
       end.

(** Value of a run of decimal digits. *)
Definition digit_val (c : N) : Z := Z.of_N c - 48.

Definition digits_val (ds : jsstring) : Z :=
  fold_left (fun acc c => 10 * acc + digit_val c) ds 0.

(** [toLowerCase] on strings whose letters are ASCII; the examples of this
    file run on it.  The functions below take the lowercasing as an
    argument, so that the theorems hold for the full Unicode mapping. *)
Definition ascii_toLowerCase (s : jsstring) : jsstring :=
  List.map (fun c => if ((65 <=? c) && (c <=? 90))%N then (c + 32)%N else c) s.

(** *** Numbers

    The numbers these scripts handle are integer valued (cents and stock
    counts), infinite, or NaN.  [Fin z] stands for the double whose value is
    the integer [z]; the two zeros are identified, as no operation used
    here tells them apart. *)

Inductive jsnum := Fin (z : Z) | PInf | NInf | NaN.

#[global] Instance jsnum_eq_dec : EqDecision jsnum.
Proof. solve_decision. Defined.

(** Round-to-nearest, ties-to-even of an integer to binary64. *)
Definition rnd (z : Z) : jsnum :=
  let a := Z.abs z in
  if a <? 2 ^ 53 then Fin z
  else
    let sh := Z.log2 a - 52 in
    let q := a / 2 ^ sh in
    let r := a mod 2 ^ sh in
    let half := 2 ^ (sh - 1) in
    let q' := if (half <? r) || ((r =? half) && Z.odd q) then q + 1 else q in
    let v := q' * 2 ^ sh in
    if 2 ^ 1024 <=? v then (if z <? 0 then NInf else PInf)
    else Fin (Z.sgn z * v).

Definition jadd (a b : jsnum) : jsnum :=
  match a, b with
  | NaN, _ | _, NaN => NaN
  | Fin x, Fin y => rnd (x + y)
  | PInf, NInf | NInf, PInf => NaN
  | PInf, _ | _, PInf => PInf
  | NInf, _ | _, NInf => NInf
  end.

Definition jneg (a : jsnum) : jsnum :=
  match a with
  | Fin x => Fin (- x)
  | PInf => NInf
  | NInf => PInf
  | NaN => NaN
  end.

Definition jsub (a b : jsnum) : jsnum := jadd a (jneg b).

(** [a < b]; false as soon as one side is NaN. *)
Definition jlt (a b : jsnum) : bool :=
  match a, b with
  | NaN, _ | _, NaN => false
  | Fin x, Fin y => x <? y
  | NInf, NInf | PInf, PInf => false
  | NInf, _ | _, PInf => true
  | _, NInf | PInf, _ => false
  end.

Definition jgt (a b : jsnum) : bool := jlt b a.

(** [a === b] on numbers. *)
Definition jeq (a b : jsnum) : bool :=
  match a, b with
  | NaN, _ | _, NaN => false
  | _, _ => bool_decide (a = b)
  end.

(** [a <= b]. *)
Definition jle (a b : jsnum) : bool :=
  match a, b with
  | NaN, _ | _, NaN => false
  | _, _ => negb (jlt b a)
  end.

(** [a >= b]. *)
Definition jge (a b : jsnum) : bool :=
  match a, b with
  | NaN, _ | _, NaN => false
  | _, _ => negb (jlt a b)
  end.

Definition zero : jsnum := Fin 0.

(** [x > 0]. *)
Definition gt0 (x : jsnum) : bool := jgt x zero.

(** [Math.min(...xs)]. *)
Definition min2 (a b : jsnum) : jsnum :=
  match a, b with
  | NaN, _ | _, NaN => NaN
  | _, _ => if jlt b a then b else a
  end.

Definition Math_min (xs : list jsnum) : jsnum := fold_left min2 xs PInf.

(** [parseInt(s, 10)]. *)
Definition parseInt (s : jsstring) : jsnum :=
  let s1 := trimStart s in
  let '(neg, s2) :=
    match s1 with
    | 45%N :: t => (true, t)
    | 43%N :: t => (false, t)
    | _ => (false, s1)
    end in
  match take_while is_digit s2 with
  | [] => NaN
  | ds => rnd (if neg then - digits_val ds else digits_val ds)
  end.

(** Non-negative doubles [m * 2^e], and +Infinity: what [parseFloat] returns
    on an unsigned decimal literal. *)
Inductive float := FFin (m e : Z) | FInf.

Definition pow2_le_ratio (l n d : Z) : bool :=
  if 0 <=? l then d * 2 ^ l <=? n else d <=? n * 2 ^ (- l).

(** The double nearest to the rational [n / d] ([0 <= n], [0 < d]), ties to
    even, with gradual underflow and overflow to infinity. *)
Definition fl (n d : Z) : float :=
  if n <=? 0 then FFin 0 0
  else
    let l := Z.log2 n - Z.log2 d in
    let lg := if pow2_le_ratio l n d then l else l - 1 in
    let e := Z.max (lg - 52) (-1074) in
    let num := if 0 <=? e then n else n * 2 ^ (- e) in
    let den := if 0 <=? e then d * 2 ^ e else d in
    let q := num / den in
    let r := num mod den in
    let m := if (den <? 2 * r) || ((2 * r =? den) && Z.odd q) then q + 1 else q in
    if 1024 <=? Z.log2 m + e then FInf else FFin m e.

(** [x * 100]. *)
Definition fmul100 (x : float) : float :=
  match x with
  | FFin m e => if 0 <=? e then fl (100 * m * 2 ^ e) 1 else fl (100 * m) (2 ^ (- e))
  | FInf => FInf
  end.

(** [Math.round(x)]: the nearest integer, ties towards +Infinity. *)
Definition Math_round (x : float) : jsnum :=
  match x with
  | FFin m e => Fin (if 0 <=? e then m * 2 ^ e else (2 * m + 2 ^ (- e)) / 2 ^ (1 - e))
  | FInf => PInf
  end.

(** [parseFloat] on a match of [\d+\.?\d*]: integer digits, then an optional
    dot and fraction digits. *)
Definition parseFloat_decimal (ip fp : jsstring) : float :=
  fl (digits_val (ip ++ fp)) (10 ^ Z.of_nat (length fp)).

(** *** Sorting

    [Array.prototype.sort] is stable, and for a comparator that is a
    consistent ordering its result is the one stable sorted arrangement; it
    is computed here by insertion.  [cmp a b] is the comparator's result:
    negative puts [a] first, positive puts [b] first, zero and NaN keep the
    two in their order. *)

Section Sort.
Context {A : Type} (cmp : A -> A -> jsnum).

Definition before (a b : A) : bool := negb (gt0 (cmp a b)).

Fixpoint insert_sorted (x : A) (l : list A) : list A :=
  match l with
  | [] => [x]
  | y :: l' => if before x y then x :: l else y :: insert_sorted x l'
  end.

Definition sort (l : list A) : list A := foldr insert_sorted [] l.
End Sort.

End JS.

(** ** HTML card extractor ([parseCardData], [scrapeCollection]) *)

Module Extractor.
Import JS.

(** *** The part of the page the extractor reads

    Each record holds the results of the cheerio queries the code makes on
    one element: attribute values ([None] for an absent attribute) and the
    combined text of a selection. *)

(** An element matched by [[id^="ostk"]] inside a sale row. *)
Record StockElement := {
  stock_id : jsstring;
  stock_text : jsstring
}.

(** One [.outpost_sli_sale] row. *)
Record SaleElement := {
  quality_text : jsstring;              (* find('.outpost_sli_quality').text() *)
  stock_elements : list StockElement;   (* find('[id^="ostk"]') *)
  price_text : jsstring                 (* find('.outpost_sli_price').text() *)
}.

(** One [.outpost_shop_list_item_mtg] container. *)
Record CardElement := {
  attr_elnm : option jsstring;
  attr_alphabet : option jsstring;
  attr_magicrarity : option jsstring;
  attr_foil : option jsstring;
  attr_cw : option jsstring;
  attr_cu : option jsstring;
  attr_cb : option jsstring;
  attr_cr : option jsstring;
  attr_cg : option jsstring;
  attr_cnocol : option jsstring;
  attr_price : option jsstring;
  sale_elements : list SaleElement;     (* find('.outpost_sli_sale') *)
  set_text : option jsstring;           (* find('.outpost_sli_set_mtg'): None when empty *)
  img_src : option (option jsstring);   (* find('img'): src of the first match *)
  detail_href : option (option jsstring) (* find('a[href*="view=detail"]') *)
}.

(** *** Output records *)

Record CardCondition := {
  condition : jsstring;
  cond_price : jsnum;
  cond_stock : jsnum;
  cond_priceFormatted : jsstring;
  outpostId : jsstring
}.

Record Colors := {
  white : bool; blue : bool; black : bool;
  red : bool; green : bool; colorless : bool
}.

(** What [parseCardData] returns.  The card-level [priceFormatted] display
    string is left out: nothing modelled here reads it. *)
Record CardData := {
  name : jsstring;
  alphabet : jsstring;
  rarity : jsstring;
  foil : bool;
  colors : Colors;
  conditions : list CardCondition;
  price : jsnum;
  stock : jsnum;
  set_label : option jsstring;          (* cardData.set *)
  imageUrl : option jsstring;
  detailUrl : option jsstring
}.

(** [attr(a) === '1']. *)
Definition is_one (a : option jsstring) : bool :=
  match a with
  | Some s => str_eqb s (u "1")
  | None => false
  end.

(** *** Price and stock of a sale row *)

(** The text matched by [\d+\.?\d*] from its first character on: integer
    digits and fraction digits. *)
Definition split_decimal (s : jsstring) : jsstring * jsstring :=
  let ip := take_while is_digit s in
  match drop_while is_digit s with
  | 46%N :: t => (ip, take_while is_digit t)
  | _ => (ip, [])
  end.

(** [priceText.match] on the pattern [\d+\.?\d*]: the leftmost match. *)
Fixpoint priceMatch (s : jsstring) : option (jsstring * jsstring) :=
  match s with
  | [] => None
  | c :: s' => if is_digit c then Some (split_decimal s) else priceMatch s'
  end.

Definition priceEuros (priceText : jsstring) : float :=
  match priceMatch priceText with
  | Some (ip, fp) => parseFloat_decimal ip fp
  | None => FFin 0 0
  end.

Definition priceCents (priceText : jsstring) : jsnum :=
  Math_round (fmul100 (priceEuros priceText)).

Definition stockText (sale : SaleElement) : jsstring :=
  concat (List.map stock_text (stock_elements sale)).

Definition parseStock (sale : SaleElement) : jsnum :=
  let t := trim (stockText sale) in
  parseInt (if truthy t then t else u "0").

Definition parseOutpostId (sale : SaleElement) : jsstring :=
  match stock_elements sale with
  | [] => []
  | e :: _ => if truthy (stock_id e) then replace (stock_id e) (u "ostk") [] else []
  end.

(** The body of the [.each] callback over sale rows: the offer pushed for
    this row, if any. *)
Definition parseSale (sale : SaleElement) : option CardCondition :=
  let conditionText := trim (quality_text sale) in
  let stock := parseStock sale in
  let priceText := trim (price_text sale) in
  let cents := priceCents priceText in
  if truthy conditionText && negb (str_eqb conditionText [])
     && (gt0 cents || gt0 stock)
  then Some {| condition := conditionText;
               cond_price := cents;
               cond_stock := stock;
               cond_priceFormatted := priceText;
               outpostId := parseOutpostId sale |}
  else None.

Definition parseConditions (sales : list SaleElement) : list CardCondition :=
  omap parseSale sales.

(** *** Card-level price and stock ("backwards compatibility properties") *)

Definition validPriceConditions (cs : list CardCondition) : list CardCondition :=
  List.filter (fun c => gt0 (cond_price c)) cs.

Definition availableConditions (cs : list CardCondition) : list CardCondition :=
  List.filter (fun c => gt0 (cond_stock c) && gt0 (cond_price c)) cs.

Definition cheapestPrice (cs : list CardCondition) (fallback : option jsstring) : jsnum :=
  match availableConditions cs with
  | (_ :: _) as av => Math_min (List.map cond_price av)
  | [] =>
    match validPriceConditions cs with
    | (_ :: _) as vp => Math_min (List.map cond_price vp)
    | [] =>
      let fallbackPrice :=
        parseInt (if truthy (or_empty fallback) then or_empty fallback else u "0") in
      if gt0 fallbackPrice then fallbackPrice else Fin 0
    end
  end.

Definition totalStock (cs : list CardCondition) : jsnum :=
  fold_left (fun sum c => jadd sum (cond_stock c)) cs zero.

Definition site : jsstring := u "https://www.outpost.be/website/".

Definition absoluteUrl (src : option jsstring) : jsstring :=
  let url := or_empty src in
  if truthy url && negb (startsWith url (u "http")) then site ++ url else url.

Definition parseCardData (el : CardElement) : CardData :=
  let cs := parseConditions (sale_elements el) in
  {| name := or_empty (attr_elnm el);
     alphabet := or_empty (attr_alphabet el);
     rarity := or_empty (attr_magicrarity el);
     foil := is_one (attr_foil el);
     colors := {| white := is_one (attr_cw el);
                  blue := is_one (attr_cu el);
                  black := is_one (attr_cb el);
                  red := is_one (attr_cr el);
                  green := is_one (attr_cg el);
                  colorless := is_one (attr_cnocol el) |};
     conditions := cs;
     price := cheapestPrice cs (attr_price el);
     stock := totalStock cs;
     set_label := trim <$> set_text el;
     imageUrl := absoluteUrl <$> img_src el;
     detailUrl := absoluteUrl <$> detail_href el |}.

(** *** One collection page *)

Record CollectionRef := {
  coll_name : jsstring;
  coll_id : jsstring;
  coll_url : jsstring
}.

(** A listing as pushed by [scrapeCollection]: the parsed card with the
    collection it was found in. *)
Record ListingRecord := {
  data :> CardData;
  collection : jsstring;
  collectionId : jsstring
}.

Record SkipReasons := {
  noName : nat; noPrice : nat; noConditions : nat; noSet : nat
}.

(** The locals of [scrapeCollection] that its loop updates. *)
Record ScrapeState := {
  cards : list ListingRecord;
  skippedCards : nat;
  skipReasons : SkipReasons
}.

Definition hasValidName (d : CardData) : bool :=
  truthy (name d) && negb (str_eqb (trim (name d)) []).

Definition hasValidPrice (d : CardData) : bool := gt0 (price d).

Definition hasValidConditions (d : CardData) : bool :=
  match conditions d with [] => false | _ => true end.

Definition hasValidSet (d : CardData) : bool :=
  match set_label d with
  | Some s => truthy s && negb (str_eqb (trim s) [])
  | None => false
  end.

Definition accepted (d : CardData) : bool :=
  hasValidName d && hasValidPrice d && hasValidConditions d && hasValidSet d.

Definition bump (b : bool) (n : nat) : nat := if b then S n else n.

(** The body of the [.each] callback over card containers. *)
Definition scrapeStep (coll : CollectionRef) (st : ScrapeState) (el : CardElement)
  : ScrapeState :=
  let d := parseCardData el in
  if accepted d then
    {| cards := cards st ++ [ {| data := d;
                                 collection := coll_name coll;
                                 collectionId := coll_id coll |} ];
       skippedCards := skippedCards st;
       skipReasons := skipReasons st |}
  else
    {| cards := cards st;
       skippedCards := S (skippedCards st);
       skipReasons :=
         {| noName := bump (negb (hasValidName d)) (noName (skipReasons st));
            noPrice := bump (negb (hasValidPrice d)) (noPrice (skipReasons st));
            noConditions :=
              bump (negb (hasValidConditions d)) (noConditions (skipReasons st));
            noSet := bump (negb (hasValidSet d)) (noSet (skipReasons st)) |} |}.

Definition scrapeInit : ScrapeState :=
  {| cards := []; skippedCards := 0%nat;
     skipReasons := {| noName := 0; noPrice := 0; noConditions := 0; noSet := 0 |}%nat |}.

(** [scrapeCollection] on a fetched page, given as its card containers in
    document order; the function returns [cards] and logs the tallies. *)
Definition scrapeCollection (page : list CardElement) (coll : CollectionRef)
  : ScrapeState :=
  fold_left (scrapeStep coll) page scrapeInit.

End Extractor.

(** ** Collection enumerator *)

Module Enumerator.
Import JS Extractor.

Definition BASE_URL : jsstring := u "https://www.outpost.be/website/".

Definition getCollectionUrl (collectionId : jsstring) : jsstring :=
  BASE_URL
  ++ u "index.php?option=com_outpostshop&Itemid=4&view=productlist&catalogid=1&collectionid="
  ++ collectionId.

(** [href.match] on the pattern [collectionid=(\d+)]: the digits captured
    by the leftmost match. *)
Fixpoint collectionIdMatch (s : jsstring) : option jsstring :=
  match s with
  | [] => None
  | _ :: s' =>
    if startsWith s (u "collectionid=") then
      match take_while is_digit (drop (length (u "collectionid=")) s) with
      | [] => collectionIdMatch s'
      | ds => Some ds
      end
    else collectionIdMatch s'
  end.

(** *** From the saved snapshot ([parseCollectionsFromHTML]) *)

(** An anchor under [.catalog_list_element]. *)
Record Anchor := {
  href : option jsstring;
  anchor_text : jsstring
}.

Definition snapshotStep (st : list CollectionRef * gset jsstring) (a : Anchor)
  : list CollectionRef * gset jsstring :=
  let '(collections, seen) := st in
  let name := trim (anchor_text a) in
  match href a with
  | Some h =>
    if truthy h && truthy name then
      match collectionIdMatch h with
      | Some collectionId =>
        let key := collectionId ++ u "-" ++ name in
        if bool_decide (key ∈ seen) then st
        else (collections ++ [ {| coll_name := name;
                                  coll_id := collectionId;
                                  coll_url := getCollectionUrl collectionId |} ],
              {[ key ]} ∪ seen)
      | None => st
      end
    else st
  | None => st
  end.

(** [snapshot] is [None] when [outpost.html] does not exist, and otherwise
    the anchors selected from it in document order. *)
Definition parseCollectionsFromHTML (snapshot : option (list Anchor))
  : list CollectionRef :=
  match snapshot with
  | None => []
  | Some anchors => (fold_left snapshotStep anchors ([], ∅)).1
  end.

(** *** From the live catalog page ([parseCollections]) *)

(** An anchor selected by [a[href*="collectionid="]]: its [href] exists. *)
Record CatalogAnchor := {
  cat_href : jsstring;
  cat_text : jsstring
}.

Definition catalogStep (collections : list CollectionRef) (a : CatalogAnchor)
  : list CollectionRef :=
  match collectionIdMatch (cat_href a) with
  | Some collectionId =>
    let collectionName := trim (cat_text a) in
    if truthy collectionName && (2 <? length collectionName)%nat then
      collections ++ [ {| coll_id := collectionId;
                          coll_name := collectionName;
                          coll_url := if startsWith (cat_href a) (u "http")
                                      then cat_href a
                                      else BASE_URL ++ cat_href a |} ]
    else collections
  | None => collections
  end.

(** [catalog] is [None] when the request fails (the [catch] returns the
    empty array), and otherwise the anchors selected from the response. *)
Definition parseCollections (catalog : option (list CatalogAnchor))
  : list CollectionRef :=
  match catalog with
  | None => []
  | Some anchors => fold_left catalogStep anchors []
  end.

(** *** Priority order ([scrapeOutpost]) *)

Definition priorityCollections : list jsstring :=
  [ u "Final Fantasy"; u "Foundations"; u "Duskmourn"; u "Bloomburrow";
    u "Modern Horizons 3"; u "Outlaws of Thunder Junction";
    u "Murders at Karlov Manor"; u "Commander"; u "Secret Lair Drop Series" ].

(** [xs.findIndex(p)], counting from [i]; [-1] when nothing matches. *)
Fixpoint findIndex_from {A} (p : A -> bool) (xs : list A) (i : Z) : Z :=
  match xs with
  | [] => -1
  | x :: xs' => if p x then i else findIndex_from p xs' (i + 1)
  end.

Definition findIndex {A} (p : A -> bool) (xs : list A) : Z := findIndex_from p xs 0.

Definition priorityIndex (priority : list jsstring) (c : CollectionRef) : Z :=
  findIndex (fun p => includes (coll_name c) p) priority.

(** The comparator passed to [sort]. *)
Definition priorityCompare (priority : list jsstring) (a b : CollectionRef) : jsnum :=
  let aIndex := priorityIndex priority a in
  let bIndex := priorityIndex priority b in
  if negb (aIndex =? -1) && negb (bIndex =? -1) then jsub (Fin aIndex) (Fin bIndex)
  else if negb (aIndex =? -1) then Fin (-1)
  else if negb (bIndex =? -1) then Fin 1
  else Fin 0.

(** [[...collections].sort(...)], for a given priority list; the script
    uses [priorityCollections]. *)
Definition sortCollections (priority : list jsstring) (collections : list CollectionRef)
  : list CollectionRef :=
  sort (priorityCompare priority) collections.

Definition sortedCollections (collections : list CollectionRef) : list CollectionRef :=
  sortCollections priorityCollections collections.

End Enumerator.

(** ** Consolidation engine ([consolidateCards]) *)

Module Consolidation.
Import JS Extractor.

Section WithLowerCase.
(** [String.prototype.toLowerCase]. *)
Variable toLowerCase : jsstring -> jsstring.

(** [card.name.toLowerCase().trim()]. *)
Definition cardName (card : ListingRecord) : jsstring :=
  trim (toLowerCase (name card)).

(** [cardGroups]: a [Map], iterated in the order its keys were first
    inserted. *)
Fixpoint addToGroup (key : jsstring) (card : ListingRecord)
         (groups : list (jsstring * list ListingRecord))
  : list (jsstring * list ListingRecord) :=
  match groups with
  | [] => [(key, [card])]
  | (k, variants) :: rest =>
    if str_eqb k key then (k, variants ++ [card]) :: rest
    else (k, variants) :: addToGroup key card rest
  end.

Definition groupCards (cards : list ListingRecord)
  : list (jsstring * list ListingRecord) :=
  fold_left (fun groups card => addToGroup (cardName card) card groups) cards [].

Definition isAvailable (card : ListingRecord) : bool :=
  gt0 (stock card) && gt0 (price card).

Definition hasPrice (card : ListingRecord) : bool := gt0 (price card).

(** Comparator of the stock-positive branch. *)
Definition compareAvailable (a b : ListingRecord) : jsnum :=
  let priceDiff := jsub (price a) (price b) in
  if negb (jeq priceDiff zero) then priceDiff
  else if negb (Bool.eqb (foil a) (foil b)) then (if foil a then Fin 1 else Fin (-1))
  else Fin 0.

(** Comparator of the price-only branch. *)
Definition comparePrice (a b : ListingRecord) : jsnum :=
  jsub (price a) (price b).

(** The body of the loop over the groups: [bestCard] for one group. *)
Definition bestCard (cardVariants : list ListingRecord) : option ListingRecord :=
  match List.filter isAvailable cardVariants with
  | (_ :: _) as availableCards => head (sort compareAvailable availableCards)
  | [] =>
    match List.filter hasPrice cardVariants with
    | (_ :: _) as validPriceCards => head (sort comparePrice validPriceCards)
    | [] => None
    end
  end.

Definition consolidateCards (cards : list ListingRecord) : list ListingRecord :=
  omap (fun g => bestCard g.2) (groupCards cards).

End WithLowerCase.

End Consolidation.

(** ** Deck matcher ([analyzeDeck] in [lib/store.ts]) *)

Module Store.
Import JS Extractor.

(** [OutpostCard] and [CardCondition] of [lib/types.ts] have the shape of
    the scraper's records; the output file's [cards] array is read as is. *)
Abbreviation OutpostCard := ListingRecord.

Record MoxfieldCard := {
  mox_name : jsstring;
  mox_set : jsstring;
  quantity : jsnum
}.

Record MoxfieldDeck := {
  mainboard : list MoxfieldCard;    (* Object.values(deck.mainboard) *)
  sideboard : list MoxfieldCard;
  maybeboard : list MoxfieldCard;
  commanders : list MoxfieldCard
}.

(** The locals [bestPrice], [bestCard], [bestCondition].  [bestPrice] is
    held in cents: the code stores this number divided by 100, which is
    zero exactly when the number of cents is. *)
Record Best := {
  bestPriceCents : jsnum;
  bestCard : option OutpostCard;
  bestCondition : option CardCondition
}.

(** [averagePrice], a floating-point mean for display, is left out. *)
Record CardAvailability := {
  cardName : jsstring;
  requestedQuantity : jsnum;
  availableCards : list OutpostCard;
  totalAvailable : jsnum;
  cheapestPriceCents : jsnum;           (* cheapestPrice * 100 *)
  isFullyAvailable : bool
}.

Definition qualityOrder : list jsstring :=
  [ u "NM/M"; u "EX/GD"; u "SP/P"; u "HP"; u "PR" ].

(** [x || 0] on a number: NaN and zero are falsy. *)
Definition or_zero (x : jsnum) : jsnum :=
  match x with
  | NaN => zero
  | _ => x
  end.

Definition nonempty {A} (l : list A) : bool :=
  match l with [] => false | _ => true end.

Section WithLowerCase.
Variable toLowerCase : jsstring -> jsstring.

Definition exactMatches (outpostData : list OutpostCard) (card : MoxfieldCard) :=
  List.filter (fun oc : OutpostCard =>
                 str_eqb (toLowerCase (name oc)) (toLowerCase (mox_name card)))
              outpostData.

Definition containingMatches (outpostData : list OutpostCard) (card : MoxfieldCard) :=
  List.filter (fun oc : OutpostCard =>
                 includes (toLowerCase (name oc)) (toLowerCase (mox_name card)))
              outpostData.

Definition containedMatches (outpostData : list OutpostCard) (card : MoxfieldCard) :=
  List.filter (fun oc : OutpostCard =>
                 includes (toLowerCase (mox_name card)) (toLowerCase (name oc)))
              outpostData.

(** Steps 1 to 3. *)
Definition nameMatches (outpostData : list OutpostCard) (card : MoxfieldCard) :=
  let step1 := exactMatches outpostData card in
  let step2 := if nonempty step1 then step1 else containingMatches outpostData card in
  if nonempty step2 then step2 else containedMatches outpostData card.

Definition hasValidPrice (oc : OutpostCard) : bool :=
  existsb (fun c => gt0 (cond_price c)) (conditions oc).

Definition setMatches (card : MoxfieldCard) (oc : OutpostCard) : bool :=
  negb (truthy (mox_set card))
  || match set_label oc with
     | None => true
     | Some s =>
       negb (truthy s)
       || includes (toLowerCase s) (toLowerCase (mox_set card))
       || includes (toLowerCase (mox_set card)) (toLowerCase s)
     end.

(** [availableCards] once the price filter and the optional style filter
    have been applied. *)
Definition matchedCards (outpostData : list OutpostCard) (matchCardStyle : bool)
           (card : MoxfieldCard) : list OutpostCard :=
  let priced := List.filter hasValidPrice (nameMatches outpostData card) in
  if matchCardStyle then
    let matchingCards := List.filter (setMatches card) priced in
    if nonempty matchingCards then matchingCards else priced
  else priced.

Definition conditionStock (oc : OutpostCard) : jsnum :=
  or_zero (fold_left (fun condSum c =>
                        if gt0 (cond_price c) then jadd condSum (cond_stock c)
                        else condSum)
                     (conditions oc) zero).

Definition sumAvailable (avail : list OutpostCard) : jsnum :=
  fold_left (fun sum (oc : OutpostCard) => jadd sum (conditionStock oc)) avail zero.

(** [candidateCards] of one quality tier; [stocked] tells the first loop
    (which asks for stock) from the second. *)
Definition candidateCards (stocked : bool) (avail : list OutpostCard)
           (quality : jsstring) : list (OutpostCard * CardCondition) :=
  flat_map (fun oc : OutpostCard =>
              List.map (fun c => (oc, c))
                (List.filter (fun c => str_eqb (condition c) quality
                                       && gt0 (cond_price c)
                                       && (if stocked then gt0 (cond_stock c) else true))
                             (conditions oc)))
           avail.

(** [candidateCards.reduce(...)] on a non-empty array. *)
Definition cheapestInTier (first : OutpostCard * CardCondition)
           (others : list (OutpostCard * CardCondition))
  : OutpostCard * CardCondition :=
  fold_left (fun best current =>
               if jlt (cond_price current.2) (cond_price best.2) then current else best)
            others first.

(** The [for ... of qualityOrder] loop with its [break]. *)
Fixpoint tierLoop (stocked : bool) (avail : list OutpostCard)
         (tiers : list jsstring) (b : Best) : Best :=
  match tiers with
  | [] => b
  | quality :: rest =>
    match candidateCards stocked avail quality with
    | first :: others =>
      let cheapest := cheapestInTier first others in
      {| bestPriceCents := cond_price cheapest.2;
         bestCard := Some cheapest.1;
         bestCondition := Some cheapest.2 |}
    | [] => tierLoop stocked avail rest b
    end
  end.

Definition findBest (avail : list OutpostCard) : Best :=
  let b0 := {| bestPriceCents := zero; bestCard := None; bestCondition := None |} in
  let b1 := tierLoop true avail qualityOrder b0 in
  if jeq (bestPriceCents b1) zero then tierLoop false avail qualityOrder b1 else b1.

(** The callback of [allCards.map]. *)
Definition analyzeCard (outpostData : list OutpostCard) (matchCardStyle : bool)
           (card : MoxfieldCard) : CardAvailability :=
  let avail := matchedCards outpostData matchCardStyle card in
  let total := sumAvailable avail in
  {| cardName := mox_name card;
     requestedQuantity := quantity card;
     availableCards := avail;
     totalAvailable := total;
     cheapestPriceCents := bestPriceCents (findBest avail);
     isFullyAvailable := jge total (quantity card) |}.

Definition analyzeDeck (outpostData : list OutpostCard) (deck : MoxfieldDeck)
           (matchCardStyle : bool) : list CardAvailability :=
  List.map (analyzeCard outpostData matchCardStyle)
           (mainboard deck ++ sideboard deck ++ maybeboard deck ++ commanders deck).

End WithLowerCase.

End Store.

(** ** Scrape orchestrator ([scrapeAllCollections]) *)

Module Orchestrator.
Import JS Extractor Enumerator Consolidation.

(** The fields of [config] the run reads. *)
Definition batchSize : nat := 25.
Definition skipEmptyCollections : bool := true.
Definition enableProgressSaving : bool := true.
Definition resumeFromProgress : bool := true.

(** *** Files *)

(** [scrape-progress.json]; the timestamp is left out.  An entry of
    [skippedCollectionIds] is [None] for a JSON [null], which is what the
    script writes for the [id] of an entry that has none. *)
Record ScrapeProgress := {
  p_collectionsProcessed : nat;
  p_collectionsSkipped : nat;
  p_totalCards : nat;
  p_processedCollectionIds : list jsstring;
  p_skippedCollectionIds : list (option jsstring);
  p_cards : list ListingRecord
}.

(** [public/outpost-stock.json]; the timestamp, the percentage and the
    metadata are left out. *)
Inductive ScrapeOutput :=
| FinalOutput (totalCards collectionsProcessed collectionsSkipped totalCollections : nat)
              (cards : list ListingRecord)
| PartialOutput (totalCards collectionsProcessed : nat) (cards : list ListingRecord).

Definition isPartial (o : option ScrapeOutput) : bool :=
  match o with
  | Some (PartialOutput _ _ _) => true
  | _ => false
  end.

Record FileSystem := {
  progressFile : option ScrapeProgress;
  outputFile : option ScrapeOutput
}.

(** *** What the run meets outside itself *)

Record World := {
  snapshot : option (list Anchor);            (* outpost.html *)
  hasCards : CollectionRef -> bool;           (* the quick check *)
  scrapeCollectionWithRetry : CollectionRef -> list ListingRecord;
  saveProgressThrows : nat -> bool;           (* writing the checkpoint in iteration i *)
  writeOutputThrows : bool;                   (* writing the final output *)
  unlinkThrows : bool                         (* deleting the checkpoint *)
}.

(** *** The bindings declared inside the [try] block *)

(** An element of [skippedCollections]: an entry read from the checkpoint
    (an id string, or [null]), or a collection pushed by this run. *)
Inductive SkippedEntry :=
| FromCheckpoint (id : option jsstring)
| Skipped (collection : CollectionRef).

Record Locals := {
  processedCollectionIds : list jsstring;     (* a Set, in insertion order *)
  skippedCollectionIds : list jsstring;       (* a Set; only strings are looked up *)
  allCards : list ListingRecord;
  collectionsProcessed : nat;
  skippedCollections : list SkippedEntry
}.

(** How a block ends: normally, or by an exception. *)
Inductive Completion (A : Type) :=
| Normal (a : A)
| Throw.
Arguments Normal {A} a.
Arguments Throw {A}.

Definition set_add (x : jsstring) (s : list jsstring) : list jsstring :=
  if bool_decide (x ∈ s) then s else s ++ [x].

Definition set_of (xs : list jsstring) : list jsstring :=
  fold_left (fun s x => set_add x s) xs [].

Definition loadProgress (fs : FileSystem) : option ScrapeProgress :=
  if resumeFromProgress then progressFile fs else None.

Definition initLocals (progress : option ScrapeProgress) : Locals :=
  match progress with
  | Some p =>
    {| processedCollectionIds := set_of (p_processedCollectionIds p);
       skippedCollectionIds := set_of (omap id (p_skippedCollectionIds p));
       allCards := p_cards p;
       collectionsProcessed := p_collectionsProcessed p;
       skippedCollections := FromCheckpoint <$> p_skippedCollectionIds p |}
  | None =>
    {| processedCollectionIds := []; skippedCollectionIds := [];
       allCards := []; collectionsProcessed := 0; skippedCollections := [] |}
  end.

(** [c.id] for an element of [skippedCollections]: the id of a collection,
    [undefined] on a string, a TypeError on [null]. *)
Definition skippedId (c : SkippedEntry) : Completion (option jsstring) :=
  match c with
  | FromCheckpoint None => Throw
  | FromCheckpoint (Some _) => Normal None
  | Skipped collection => Normal (Some (coll_id collection))
  end.

(** [skippedCollections.map(c => c.id)]. *)
Fixpoint skippedIds (cs : list SkippedEntry) : Completion (list (option jsstring)) :=
  match cs with
  | [] => Normal []
  | c :: cs' =>
    match skippedId c with
    | Throw => Throw
    | Normal i =>
      match skippedIds cs' with
      | Throw => Throw
      | Normal ids => Normal (i :: ids)
      end
    end
  end.

(** [saveProgress], called in iteration [i] of the loop. *)
Definition saveProgress (w : World) (i : nat) (l : Locals) (fs : FileSystem)
  : Completion FileSystem :=
  if enableProgressSaving then
    match skippedIds (skippedCollections l) with
    | Throw => Throw
    | Normal ids =>
      if saveProgressThrows w i then Throw
      else Normal {| progressFile :=
                       Some {| p_collectionsProcessed := collectionsProcessed l;
                               p_collectionsSkipped := length (skippedCollections l);
                               p_totalCards := length (allCards l);
                               p_processedCollectionIds := processedCollectionIds l;
                               p_skippedCollectionIds := ids;
                               p_cards := allCards l |};
                     outputFile := outputFile fs |}
    end
  else Normal fs.

Definition skip (collection : CollectionRef) (l : Locals) : Locals :=
  {| processedCollectionIds := processedCollectionIds l;
     skippedCollectionIds := set_add (coll_id collection) (skippedCollectionIds l);
     allCards := allCards l;
     collectionsProcessed := collectionsProcessed l;
     skippedCollections := skippedCollections l ++ [Skipped collection] |}.

Definition accumulate (collection : CollectionRef) (cards : list ListingRecord)
           (l : Locals) : Locals :=
  {| processedCollectionIds := set_add (coll_id collection) (processedCollectionIds l);
     skippedCollectionIds := skippedCollectionIds l;
     allCards := allCards l ++ cards;
     collectionsProcessed := S (collectionsProcessed l);
     skippedCollections := skippedCollections l |}.

(** The [for] loop from iteration [i] on.  The result carries the locals and
    the file system as they are when the loop ends or throws. *)
Fixpoint processCollections (w : World) (todo : list CollectionRef) (i : nat)
         (l : Locals) (fs : FileSystem) : Completion unit * Locals * FileSystem :=
  match todo with
  | [] => (Normal (), l, fs)
  | collection :: rest =>
    if skipEmptyCollections && negb (hasCards w collection) then
      processCollections w rest (S i) (skip collection l) fs
    else
      let cards := scrapeCollectionWithRetry w collection in
      let l' := match cards with
                | [] => skip collection l
                | _ => accumulate collection cards l
                end in
      if (collectionsProcessed l' + length (skippedCollections l')) mod batchSize =? 0
      then
        match saveProgress w i l' fs with
        | Throw => (Throw, l', fs)
        | Normal fs' => processCollections w rest (S i) l' fs'
        end
      else processCollections w rest (S i) l' fs
  end%nat.

(** The body of the [try] block. *)
Definition tryBlock (toLowerCase : jsstring -> jsstring) (w : World) (fs : FileSystem)
  : Completion unit * Locals * FileSystem :=
  let allCollections := parseCollectionsFromHTML (snapshot w) in
  match allCollections with
  | [] => (Normal (), initLocals None, fs)
  | _ =>
    let l0 := initLocals (loadProgress fs) in
    let collectionsToProcess :=
      List.filter (fun c => negb (bool_decide (coll_id c ∈ processedCollectionIds l0))
                            && negb (bool_decide (coll_id c ∈ skippedCollectionIds l0)))
                  allCollections in
    match processCollections w collectionsToProcess 0 l0 fs with
    | (Throw, l, fs') => (Throw, l, fs')
    | (Normal _, l, fs') =>
      let uniqueCards := consolidateCards toLowerCase (allCards l) in
      (* output.metadata reads the name and id of the first ten skipped entries *)
      match skippedIds (take 10 (skippedCollections l)) with
      | Throw => (Throw, l, fs')
      | Normal _ =>
        if writeOutputThrows w then (Throw, l, fs')
        else
          let fs'' := {| progressFile := progressFile fs';
                         outputFile :=
                           Some (FinalOutput (length uniqueCards) (collectionsProcessed l)
                                             (length (skippedCollections l))
                                             (length allCollections) uniqueCards) |} in
          match progressFile fs'' with
          | Some _ =>
            if unlinkThrows w then (Throw, l, fs'')
            else (Normal (), l, {| progressFile := None; outputFile := outputFile fs'' |})
          | None => (Normal (), l, fs'')
          end
      end
    end
  end.

(** *** Scopes

    The names bound where the [catch] clause is evaluated: its parameter,
    the one [const] of the function body outside the [try], and the
    module's top-level bindings.  The [let] and [const] of the [try] block
    are bound in that block only. *)
Definition moduleBindings : list string :=
  [ "fs"; "path"; "axios"; "cheerio"; "BASE_URL"; "CATALOG_URL"; "getCollectionUrl";
    "delay"; "config"; "parseCollectionsFromHTML"; "hasCards";
    "scrapeCollectionWithRetry"; "parseCardData"; "scrapeCollection"; "saveProgress";
    "loadProgress"; "consolidateCards"; "scrapeAllCollections" ]%string.

Definition functionBindings : list string := [ "startTime" ]%string.

Definition tryBlockBindings : list string :=
  [ "allCollections"; "progress"; "processedCollectionIds"; "skippedCollectionIds";
    "allCards"; "collectionsProcessed"; "skippedCollections"; "collectionsToProcess";
    "uniqueCards"; "output"; "outputPath"; "progressPath"; "endTime"; "duration" ]%string.

Definition catchBindings : list string :=
  ("error" :: functionBindings ++ moduleBindings)%string.

(** [typeof x !== 'undefined'] for an identifier in the [catch] clause: an
    identifier that resolves to no binding has type ['undefined']. *)
Definition definedInCatch (x : string) : bool := bool_decide (x ∈ catchBindings).

(** The [catch] clause, run with the locals the [try] block had when it
    threw. *)
Definition catchClause (l : Locals) (fs : FileSystem) : FileSystem :=
  if definedInCatch "allCards" && (0 <? length (allCards l))%nat then
    {| progressFile := progressFile fs;
       outputFile := Some (PartialOutput (length (allCards l)) (collectionsProcessed l)
                                         (allCards l)) |}
  else fs.

Inductive Outcome := Finished | Aborted.

Definition scrapeAllCollections (toLowerCase : jsstring -> jsstring)
           (w : World) (fs : FileSystem) : Outcome * FileSystem :=
  match tryBlock toLowerCase w fs with
  | (Normal _, _, fs') => (Finished, fs')
  | (Throw, l, fs') => (Aborted, catchClause l fs')
  end.

(** The cards the [try] block holds in [allCards] when it ends or throws. *)
Definition accumulatedCards (toLowerCase : jsstring -> jsstring)
           (w : World) (fs : FileSystem) : list ListingRecord :=
  allCards (tryBlock toLowerCase w fs).1.2.

End Orchestrator.

(** ** Requests of the complete scraper ([hasCards],
    [scrapeCollectionWithRetry]) *)

Module Fetching.
Import JS Extractor.

(** [config.maxRetries] and [config.delayBetweenRequests]. *)
Definition maxRetries : nat := 3.
Definition delayBetweenRequests : Z := 1000.

(** [hasCards]: [response] is [None] when the request fails, and otherwise
    the card containers of the page received. *)
Definition hasCards (response : option (list CardElement)) : bool :=
  match response with
  | Some page => (0 <? length page)%nat
  | None => false
  end.

(** The loop of [scrapeCollectionWithRetry], from [attempt] on, with
    [remaining] iterations left before [attempt <= retries] fails.
    [responses n] is what the request of attempt [n] meets: a page, or
    [None] when [scrapeCollection] throws.  The result is the value returned
    ([None] for [undefined], when the loop ends without a [return]) and the
    delays waited, in milliseconds. *)
Fixpoint retryLoop (retries : nat) (delayMs : Z)
         (responses : nat -> option (list CardElement)) (coll : CollectionRef)
         (remaining attempt : nat) (waited : list Z)
  : option (list ListingRecord) * list Z :=
  match remaining with
  | O => (None, waited)
  | S remaining' =>
    match responses attempt with
    | Some page => (Some (cards (scrapeCollection page coll)), waited)
    | None =>
      if (attempt =? retries)%nat then (Some [], waited)
      else retryLoop retries delayMs responses coll remaining' (S attempt)
                     (waited ++ [delayMs * Z.of_nat attempt])
    end
  end.

Definition scrapeCollectionWithRetryOf (retries : nat) (delayMs : Z)
           (responses : nat -> option (list CardElement)) (coll : CollectionRef)
  : option (list ListingRecord) * list Z :=
  retryLoop retries delayMs responses coll retries 1%nat [].

Definition scrapeCollectionWithRetry
  : (nat -> option (list CardElement)) -> CollectionRef
    -> option (list ListingRecord) * list Z :=
  scrapeCollectionWithRetryOf maxRetries delayBetweenRequests.

End Fetching.

(** ** The basic scraper ([scrapeCollection] with its card limit,
    [scrapeOutpost]) *)

Module BasicScraper.
Import JS Extractor Enumerator Consolidation.

(** The [.each] loop over the card containers: the callback returns
    [false], which ends the iteration, once [cards.length >= maxCards]; its
    remaining statements are those of the complete scraper's callback. *)
Fixpoint eachCard (coll : CollectionRef) (maxCards : Z) (page : list CardElement)
         (st : ScrapeState) : ScrapeState :=
  match page with
  | [] => st
  | el :: rest =>
    if maxCards <=? Z.of_nat (length (cards st)) then st
    else eachCard coll maxCards rest (scrapeStep coll st el)
  end.

(** [scrapeCollection(collection, maxCards)]; [response] is [None] when the
    request fails, which the [catch] turns into the empty array. *)
Definition scrapeCollection (response : option (list CardElement))
           (coll : CollectionRef) (maxCards : Z) : list ListingRecord :=
  match response with
  | Some page => cards (eachCard coll maxCards page scrapeInit)
  | None => []
  end.

Definition maxCollections : nat := 10.

(** The loop over [sortedCollections.slice(0, maxCollections)];
    [responses i] is what the [i]-th request of the run meets. *)
Fixpoint scrapeLoop (responses : nat -> option (list CardElement)) (i : nat)
         (collections : list CollectionRef)
         (allCards : list ListingRecord) (processedCollections : nat)
  : list ListingRecord * nat :=
  match collections with
  | [] => (allCards, processedCollections)
  | c :: rest =>
    scrapeLoop responses (S i) rest
               (allCards ++ scrapeCollection (responses i) c 100)
               (S processedCollections)
  end.

(** The fields of the output file that are counts or cards; the averages
    and the price range are left out. *)
Record Output := {
  totalCards : nat;
  collectionsProcessed : nat;
  cardsWithStock : nat;
  out_cards : list ListingRecord
}.

(** [scrapeOutpost]: what is written to [outpost-stock.json], if anything.
    The grouping and selection written out in the function are, statement
    for statement, those of [consolidateCards]. *)
Definition scrapeOutpost (toLowerCase : jsstring -> jsstring)
           (catalog : option (list CatalogAnchor))
           (responses : nat -> option (list CardElement))
           (writeThrows : bool) : option Output :=
  match parseCollections catalog with
  | [] => None
  | (_ :: _) as collections =>
    let '(allCards, processedCollections) :=
      scrapeLoop responses 0%nat (take maxCollections (sortedCollections collections))
                 [] 0%nat in
    let uniqueCards := consolidateCards toLowerCase allCards in
    if writeThrows then None
    else Some {| totalCards := length uniqueCards;
                 collectionsProcessed := processedCollections;
                 cardsWithStock := length (List.filter (fun c : ListingRecord => gt0 (stock c)) uniqueCards);
                 out_cards := uniqueCards |}
  end.

End BasicScraper.

(** ** Deck analysis totals ([analyzeDeck] in [lib/store.ts]) *)

Module Analysis.
Import JS Extractor.

(** The counts of [DeckAnalysis] with the per-card results.  [totalCost],
    a floating-point sum in euros, and [deckId], [deckName] and
    [lastAnalyzed] are left out. *)
Record DeckAnalysis := {
  totalCards : nat;
  availableCards : nat;
  missingCards : nat;
  cardAvailability : list Store.CardAvailability
}.

(** The object [analysis] that [analyzeDeck] stores. *)
Definition analysis (toLowerCase : jsstring -> jsstring)
           (outpostData : list Store.OutpostCard) (deck : Store.MoxfieldDeck)
           (matchCardStyle : bool) : DeckAnalysis :=
  let allCards := Store.mainboard deck ++ Store.sideboard deck
                  ++ Store.maybeboard deck ++ Store.commanders deck in
  let cardAvailability :=
    List.map (Store.analyzeCard toLowerCase outpostData matchCardStyle) allCards in
  {| totalCards := length allCards;
     availableCards := length (List.filter Store.isFullyAvailable cardAvailability);
     missingCards :=
       length (List.filter (fun card => negb (Store.isFullyAvailable card)) cardAvailability);
     cardAvailability := cardAvailability |}.

End Analysis.

(** ** Basket and toasts ([lib/store.ts]) *)

Module Basket.
Import JS Extractor Enumerator.

Record BasketItem := {
  item_card : Store.OutpostCard;
  item_condition : CardCondition;
  item_quantity : jsnum;
  addedAt : jsstring;
  item_id : jsstring
}.

Inductive ToastType := success | error | info.

Record ToastNotification := {
  toast_id : jsstring;
  message : jsstring;
  toast_type : ToastType;
  duration : jsnum
}.

(** The part of the store these actions read and set. *)
Record State := {
  basket : list BasketItem;
  isBasketOpen : bool;
  toasts : list ToastNotification
}.

(** What the clock gives when an action runs: [new Date().toISOString()]
    and [Date.now().toString()]. *)
Record Clock := {
  isoNow : jsstring;
  msNow : jsstring
}.

(** [Math.max(a, b)]. *)
Definition Math_max2 (a b : jsnum) : jsnum :=
  match a, b with
  | NaN, _ | _, NaN => NaN
  | _, _ => if jlt a b then b else a
  end.

(** [`${b}`] for a boolean. *)
Definition boolString (b : bool) : jsstring := if b then u "true" else u "false".

(** [`${card.name}-${card.collection}-${card.foil}-${condition.condition}`]. *)
Definition itemId (card : Store.OutpostCard) (cond : CardCondition) : jsstring :=
  name card ++ u "-" ++ collection card ++ u "-" ++ boolString (foil card)
  ++ u "-" ++ condition cond.

Definition hasId (id : jsstring) (item : BasketItem) : bool := str_eqb (item_id item) id.

Definition setQuantity (item : BasketItem) (q : jsnum) : BasketItem :=
  {| item_card := item_card item; item_condition := item_condition item;
     item_quantity := q; addedAt := addedAt item; item_id := item_id item |}.

(** [addToast(message, type)], with the default duration. *)
Definition addToast (clock : Clock) (msg : jsstring) (type : ToastType) (s : State) : State :=
  {| basket := basket s; isBasketOpen := isBasketOpen s;
     toasts := toasts s ++ [ {| toast_id := msNow clock; message := msg;
                               toast_type := type; duration := Fin 3000 |} ] |}.

Definition removeToast (id : jsstring) (s : State) : State :=
  {| basket := basket s; isBasketOpen := isBasketOpen s;
     toasts := List.filter (fun t => negb (str_eqb (toast_id t) id)) (toasts s) |}.

Definition setBasket (b : list BasketItem) (s : State) : State :=
  {| basket := b; isBasketOpen := isBasketOpen s; toasts := toasts s |}.

(** [`${card.name} (${condition.condition})`], the subject of the four
    messages. *)
Definition subject (card : Store.OutpostCard) (cond : CardCondition) : jsstring :=
  name card ++ u " (" ++ condition cond ++ u ")".

(** [addToBasket(card, condition, quantity)]; a call without [quantity]
    passes 1. *)
Definition addToBasket (clock : Clock) (card : Store.OutpostCard) (cond : CardCondition)
           (quantity : jsnum) (s : State) : State :=
  let id := itemId card cond in
  let existingItemIndex := findIndex (hasId id) (basket s) in
  if negb (existingItemIndex =? -1) then
    match basket s !! Z.to_nat existingItemIndex with
    | Some existingItem =>
      let newQuantity := min2 (jadd (item_quantity existingItem) quantity) (cond_stock cond) in
      if jgt newQuantity (item_quantity existingItem) then
        addToast clock (u "Updated " ++ subject card cond ++ u " quantity in cart") success
          (setBasket (<[Z.to_nat existingItemIndex := setQuantity existingItem newQuantity]>
                        (basket s)) s)
      else
        addToast clock (u "Cannot add more " ++ subject card cond
                        ++ u " - stock limit reached") error s
    | None => s   (* not reached: the index found lies within the array *)
    end
  else
    let actualQuantity := min2 quantity (cond_stock cond) in
    if gt0 actualQuantity then
      addToast clock (u "Added " ++ subject card cond ++ u " to cart") success
        (setBasket (basket s ++ [ {| item_card := card; item_condition := cond;
                                     item_quantity := actualQuantity;
                                     addedAt := isoNow clock; item_id := id |} ]) s)
    else
      addToast clock (u "Cannot add " ++ subject card cond ++ u " - out of stock") error s.

Definition removeFromBasket (id : jsstring) (s : State) : State :=
  setBasket (List.filter (fun item => negb (hasId id item)) (basket s)) s.

Definition updateBasketQuantity (id : jsstring) (quantity : jsnum) (s : State) : State :=
  let itemIndex := findIndex (hasId id) (basket s) in
  if negb (itemIndex =? -1) then
    match basket s !! Z.to_nat itemIndex with
    | Some item =>
      let newQuantity :=
        min2 (Math_max2 quantity zero) (cond_stock (item_condition item)) in
      if jeq newQuantity zero then setBasket (delete (Z.to_nat itemIndex) (basket s)) s
      else setBasket (<[Z.to_nat itemIndex := setQuantity item newQuantity]> (basket s)) s
    | None => s   (* not reached *)
    end
  else s.

Definition clearBasket (s : State) : State := setBasket [] s.

Definition toggleBasket (s : State) : State :=
  {| basket := basket s; isBasketOpen := negb (isBasketOpen s); toasts := toasts s |}.

(** The initial state of the store. *)
Definition initial : State := {| basket := []; isBasketOpen := false; toasts := [] |}.

(** The actions as data, and a session as the list of actions taken. *)
Inductive Action :=
| AddToBasket (clock : Clock) (card : Store.OutpostCard) (cond : CardCondition)
              (quantity : jsnum)
| RemoveFromBasket (id : jsstring)
| UpdateBasketQuantity (id : jsstring) (quantity : jsnum)
| ClearBasket
| ToggleBasket
| RemoveToast (id : jsstring).

Definition act (s : State) (a : Action) : State :=
  match a with
  | AddToBasket clock card cond quantity => addToBasket clock card cond quantity s
  | RemoveFromBasket id => removeFromBasket id s
  | UpdateBasketQuantity id quantity => updateBasketQuantity id quantity s
  | ClearBasket => clearBasket s
  | ToggleBasket => toggleBasket s
  | RemoveToast id => removeToast id s
  end.

Definition session (actions : list Action) : State := fold_left act actions initial.

End Basket.

(** * Notions used in the statements *)

Import JS Extractor Enumerator Consolidation Orchestrator.

(** ** Sorting *)

(** The elements of [l] whose key is [i], in the order of [l]. *)
Definition bucket {A} (key : A -> nat) (l : list A) (i : nat) : list A :=
  List.filter (fun c => (key c =? i)%nat) l.

(** The buckets of the keys [a], [a + 1], ..., [a + n - 1], one after the
    other. *)
Definition buckets {A} (key : A -> nat) (l : list A) (a n : nat) : list A :=
  flat_map (bucket key l) (seq a n).

(** The head of [sort cmp l], read off the input from its end. *)
Fixpoint pick {A} (cmp : A -> A -> jsnum) (l : list A) : option A :=
  match l with
  | [] => None
  | x :: l' =>
    match pick cmp l' with
    | None => Some x
    | Some m => if before cmp x m then Some x else Some m
    end
  end.

(** ** Enumerator *)

(** Position of a collection in the order: the index of its first
    matching term, and past all of them when it has none. *)
Definition priorityKey (priority : list jsstring) (c : CollectionRef) : nat :=
  if priorityIndex priority c =? -1 then length priority
  else Z.to_nat (priorityIndex priority c).

Definition idName (c : CollectionRef) : jsstring * jsstring :=
  (coll_id c, coll_name c).

(** The key under which the snapshot parser remembers an entry. *)
Definition seenKey (p : jsstring * jsstring) : jsstring := p.1 ++ u "-" ++ p.2.

(** What the snapshot loop maintains: the keys of the entries collected are
    pairwise distinct and all in [seen]. *)
Definition snapshotInv (st : list CollectionRef * gset jsstring) : Prop :=
  NoDup (seenKey <$> (idName <$> st.1))
  /\ forall c, c ∈ st.1 -> seenKey (idName c) ∈ st.2.

(** What the live parser makes of one anchor. *)
Definition catalogEntry (a : CatalogAnchor) : option CollectionRef :=
  match collectionIdMatch (cat_href a) with
  | Some collectionId =>
    if (2 <? length (trim (cat_text a)))%nat then
      Some {| coll_id := collectionId;
              coll_name := trim (cat_text a);
              coll_url := if startsWith (cat_href a) (u "http") then cat_href a
                          else BASE_URL ++ cat_href a |}
    else None
  | None => None
  end.

(** A catalog link to the collection 4711. *)
Definition bloomburrowAnchor : CatalogAnchor :=
  {| cat_href := u "index.php?option=com_outpostshop&collectionid=4711";
     cat_text := u "Bloomburrow" |}.

(** ** Extractor *)

Definition all_digits (s : jsstring) : Prop := Forall (fun c => is_digit c = true) s.

Definition no_digit (s : jsstring) : Prop := Forall (fun c => is_digit c = false) s.

(** [rest] does not go on with a digit. *)
Definition stops (rest : jsstring) : Prop :=
  match rest with [] => True | c :: _ => is_digit c = false end.

Definition offerTriple (c : CardCondition) : jsstring * jsnum * jsnum :=
  (condition c, cond_price c, cond_stock c).

(** The record pushed for an accepted card. *)
Definition stamp (coll : CollectionRef) (d : CardData) : ListingRecord :=
  {| data := d; collection := coll_name coll; collectionId := coll_id coll |}.

Definition count {A} (p : A -> bool) (l : list A) : nat := length (List.filter p l).

Definition parsed (page : list CardElement) : list CardData :=
  List.map parseCardData page.

(** A row with stock 3 and price 1.50 but a blank condition label. *)
Definition unlabelledRow : SaleElement :=
  {| quality_text := u "  ";
     stock_elements := [ {| stock_id := u "ostk77"; stock_text := u "3" |} ];
     price_text := u "1.50 " ++ [euro] |}.

(** A row priced "on request" with two copies in stock. *)
Definition onRequestRow : SaleElement :=
  {| quality_text := u "EX/GD";
     stock_elements := [ {| stock_id := u "ostk9"; stock_text := u "2" |} ];
     price_text := u "on request" |}.

(** The rows (NM/M, stock 3, 1.50 EUR) and (HP, stock 0, 0.00 EUR), with the
    ids of their stock counters. *)
Definition nearMintRow (stockId : jsstring) : SaleElement :=
  {| quality_text := u "NM/M";
     stock_elements := [ {| stock_id := stockId; stock_text := u "3" |} ];
     price_text := u "1.50 " ++ [euro] |}.

Definition heavilyPlayedRow (stockId : jsstring) : SaleElement :=
  {| quality_text := u "HP";
     stock_elements := [ {| stock_id := stockId; stock_text := u "0" |} ];
     price_text := u "0.00 " ++ [euro] |}.

(** A container with these two rows, a name and a set label. *)
Definition solRingContainer : CardElement :=
  {| attr_elnm := Some (u "Sol Ring");
     attr_alphabet := Some (u "S");
     attr_magicrarity := Some (u "U");
     attr_foil := Some (u "0");
     attr_cw := None; attr_cu := None; attr_cb := None;
     attr_cr := None; attr_cg := None;
     attr_cnocol := Some (u "1");
     attr_price := None;
     sale_elements := [nearMintRow (u "ostk801"); heavilyPlayedRow (u "ostk802")];
     set_text := Some (u " Commander Masters ");
     img_src := None;
     detail_href := None |}.

(** The same container without its name attribute. *)
Definition namelessContainer : CardElement :=
  {| attr_elnm := None;
     attr_alphabet := attr_alphabet solRingContainer;
     attr_magicrarity := attr_magicrarity solRingContainer;
     attr_foil := attr_foil solRingContainer;
     attr_cw := None; attr_cu := None; attr_cb := None;
     attr_cr := None; attr_cg := None;
     attr_cnocol := attr_cnocol solRingContainer;
     attr_price := None;
     sale_elements := sale_elements solRingContainer;
     set_text := set_text solRingContainer;
     img_src := None;
     detail_href := None |}.

(** A snapshot link to the collection 4711, and the entry made of it. *)
Definition commanderMastersAnchor : Anchor :=
  {| href := Some (u "index.php?view=productlist&collectionid=4711");
     anchor_text := u " Commander Masters " |}.

Definition commanderMasters : CollectionRef :=
  {| coll_name := u "Commander Masters";
     coll_id := u "4711";
     coll_url := getCollectionUrl (u "4711") |}.

(** An offer, and a card carrying given offers, as the extractor records
    them. *)
Definition offer (q : jsstring) (cents stk : Z) : CardCondition :=
  {| condition := q; cond_price := Fin cents; cond_stock := Fin stk;
     cond_priceFormatted := []; outpostId := [] |}.

Definition cardWith (nm : jsstring) (cs : list CardCondition) : ListingRecord :=
  {| data := {| name := nm; alphabet := []; rarity := []; foil := false;
                colors := {| white := false; blue := false; black := false;
                             red := false; green := false; colorless := false |};
                conditions := cs; price := cheapestPrice cs None; stock := totalStock cs;
                set_label := None; imageUrl := None; detailUrl := None |};
     collection := []; collectionId := [] |}.

(** ** Consolidation *)

Definition sameName (toLowerCase : jsstring -> jsstring) (k : jsstring)
           (c : ListingRecord) : bool :=
  str_eqb (cardName toLowerCase c) k.

(** The records of one name, in input order. *)
Definition groupOf (toLowerCase : jsstring -> jsstring) (k : jsstring)
           (cards : list ListingRecord) : list ListingRecord :=
  List.filter (sameName toLowerCase k) cards.

(** The distinct names, in order of first appearance. *)
Definition firstKeys (toLowerCase : jsstring -> jsstring)
           (cards : list ListingRecord) : list jsstring :=
  fold_left (fun ks c => if bool_decide (cardName toLowerCase c ∈ ks) then ks
                         else ks ++ [cardName toLowerCase c])
            cards [].

Definition priced (c : ListingRecord) : Prop := gt0 (price c) = true.

(** The records of the name [k] with a positive price, and those with
    positive price and stock. *)
Definition pricedInGroup (toLowerCase : jsstring -> jsstring) (k : jsstring)
           (cards : list ListingRecord) (y : ListingRecord) : Prop :=
  y ∈ cards /\ cardName toLowerCase y = k /\ gt0 (price y) = true.

Definition availableInGroup (toLowerCase : jsstring -> jsstring) (k : jsstring)
           (cards : list ListingRecord) (y : ListingRecord) : Prop :=
  y ∈ cards /\ cardName toLowerCase y = k /\ isAvailable y = true.

(** A listing with the given name, price in cents, stock and foil flag. *)
Definition listing (nm : jsstring) (cents stk : Z) (isFoil : bool) : ListingRecord :=
  {| data := {| name := nm; alphabet := []; rarity := []; foil := isFoil;
                colors := {| white := false; blue := false; black := false;
                             red := false; green := false; colorless := false |};
                conditions := []; price := Fin cents; stock := Fin stk;
                set_label := None; imageUrl := None; detailUrl := None |};
     collection := []; collectionId := [] |}.

(** Two listings of one name: a cheap one out of stock, a dearer one in
    stock. *)
Definition brainstormOutOfStock : ListingRecord := listing (u "Brainstorm ") 100 0 false.

Definition brainstormInStock : ListingRecord := listing (u "brainstorm") 500 2 false.

(** ** Deck matcher *)

Definition offerPriced (x : ListingRecord * CardCondition) : Prop :=
  gt0 (cond_price x.2) = true.

(** The tier [q] has no candidate. *)
Definition emptyTier (stocked : bool) (avail : list ListingRecord) (q : jsstring) : Prop :=
  Store.candidateCards stocked avail q = [].

(** [b] holds an offer of lowest price among the candidates of tier [q],
    with its card and its price. *)
Definition selects (b : Store.Best) (stocked : bool) (avail : list ListingRecord)
           (q : jsstring) : Prop :=
  exists (oc : ListingRecord) (c : CardCondition),
    Store.bestCard b = Some oc
    /\ Store.bestCondition b = Some c
    /\ Store.bestPriceCents b = cond_price c
    /\ (oc, c) ∈ Store.candidateCards stocked avail q
    /\ forall (oc' : ListingRecord) (c' : CardCondition),
         (oc', c') ∈ Store.candidateCards stocked avail q ->
         jle (cond_price c) (cond_price c') = true.

(** The initial values of [bestPrice], [bestCard] and [bestCondition]. *)
Definition noBest : Store.Best :=
  {| Store.bestPriceCents := zero; Store.bestCard := None; Store.bestCondition := None |}.

(** A card out of stock in both its grades, and a deck asking for it. *)
Definition solRingOutOfStock : ListingRecord :=
  cardWith (u "Sol Ring") [offer (u "NM/M") 1000 0; offer (u "HP") 200 0].

Definition solRingWanted : Store.MoxfieldCard :=
  {| Store.mox_name := u "sol ring"; Store.mox_set := []; Store.quantity := Fin 1 |}.

(** ** Orchestrator *)

(** Two decimal digits of a number below 100. *)
Definition twoDigits (i : nat) : jsstring :=
  [ (48 + N.of_nat (i / 10))%N; (48 + N.of_nat (i mod 10))%N ].

(** A snapshot listing 25 collections, with ids 01 to 25. *)
Definition snapshot25 : list Anchor :=
  List.map (fun i => {| href := Some (u "index.php?view=productlist&collectionid="
                                      ++ twoDigits (S i));
                        anchor_text := u "Set " ++ twoDigits (S i) |})
           (seq 0 25).

(** Every collection has cards and yields one listing; the checkpoint file
    cannot be written; the output file can. *)
Definition checkpointUnwritable : World :=
  {| snapshot := Some snapshot25;
     hasCards := fun _ => true;
     scrapeCollectionWithRetry := fun c => [listing (coll_name c) 100 1 false];
     saveProgressThrows := fun _ => true;
     writeOutputThrows := false;
     unlinkThrows := false |}.

Definition noFiles : FileSystem := {| progressFile := None; outputFile := None |}.

(** The same run with every file writable. *)
Definition allWritable : World :=
  {| snapshot := Some snapshot25;
     hasCards := fun _ => true;
     scrapeCollectionWithRetry := fun c => [listing (coll_name c) 100 1 false];
     saveProgressThrows := fun _ => false;
     writeOutputThrows := false;
     unlinkThrows := false |}.

(** ** Requests *)

(** The delays of [n] failed attempts: the request delay times 1, 2, ...,
    [n]. *)
Definition backoff (delayMs : Z) (n : nat) : list Z :=
  List.map (fun j => delayMs * Z.of_nat j) (seq 1 n).

(** The request fails at first and meets the Sol Ring page at the second
    attempt. *)
Definition secondAttemptSucceeds (attempt : nat) : option (list CardElement) :=
  if (attempt =? 2)%nat then Some [solRingContainer] else None.

Definition everyAttemptFails (attempt : nat) : option (list CardElement) := None.

(** ** Enumerator: the snapshot, anchor by anchor *)

(** What the snapshot parser makes of one anchor, before it looks at
    [seen]. *)
Definition snapshotEntry (a : Anchor) : option CollectionRef :=
  match href a with
  | Some h =>
    if truthy h && truthy (trim (anchor_text a)) then
      match collectionIdMatch h with
      | Some collectionId =>
        Some {| coll_name := trim (anchor_text a);
                coll_id := collectionId;
                coll_url := getCollectionUrl collectionId |}
      | None => None
      end
    else None
  | None => None
  end.

#[global] Instance CollectionRef_eq_dec : EqDecision CollectionRef.
Proof. solve_decision. Defined.

(** The elements of a list without their later repetitions. *)
Definition keepFirst {A} `{EqDecision A} (acc : list A) (x : A) : list A :=
  if bool_decide (x ∈ acc) then acc else acc ++ [x].

Definition firstOccurrences {A} `{EqDecision A} (l : list A) : list A :=
  fold_left keepFirst l [].

(** An entry as the snapshot parser builds them. *)
Definition snapshotShaped (c : CollectionRef) : Prop :=
  coll_id c <> [] /\ all_digits (coll_id c)
  /\ coll_url c = getCollectionUrl (coll_id c).

(** [seen] holds the keys of the entries collected, and nothing else. *)
Definition seenExactly (st : list CollectionRef * gset jsstring) : Prop :=
  (forall key, key ∈ st.2 <-> exists c, c ∈ st.1 /\ seenKey (idName c) = key)
  /\ Forall snapshotShaped st.1.

(** ** Orchestrator: what one run works on *)

(** What the loop obtains for a collection: nothing when the quick check
    fails, and otherwise the cards the retrying scrape returns. *)
Definition scraped (w : World) (c : CollectionRef) : list ListingRecord :=
  if skipEmptyCollections && negb (hasCards w c) then []
  else scrapeCollectionWithRetry w c.

Definition yieldsCards (w : World) (c : CollectionRef) : bool :=
  match scraped w c with [] => false | _ => true end.

Definition yieldsNothing (w : World) (c : CollectionRef) : bool :=
  negb (yieldsCards w c).

(** The collections of the snapshot that the checkpoint, if there is one,
    lists neither as processed nor as skipped. *)
Definition pendingCollections (w : World) (fs : FileSystem) : list CollectionRef :=
  let l0 := initLocals (loadProgress fs) in
  List.filter (fun c => negb (bool_decide (coll_id c ∈ processedCollectionIds l0))
                        && negb (bool_decide (coll_id c ∈ skippedCollectionIds l0)))
              (parseCollectionsFromHTML (snapshot w)).


(** A site where the quick check finds no card anywhere. *)
Definition nothingForSale : World :=
  {| snapshot := Some snapshot25;
     hasCards := fun _ => false;
     scrapeCollectionWithRetry := fun c => [listing (coll_name c) 100 1 false];
     saveProgressThrows := fun _ => false;
     writeOutputThrows := false;
     unlinkThrows := false |}.

(** A checkpoint written by a run that had itself resumed from one: the
    skip id it carried over was written back as [null]. *)
Definition secondCheckpoint : ScrapeProgress :=
  {| p_collectionsProcessed := 1;
     p_collectionsSkipped := 1;
     p_totalCards := 1;
     p_processedCollectionIds := [u "01"];
     p_skippedCollectionIds := [None];
     p_cards := [listing (u "Set 01") 100 1 false] |}.

Definition resumedTwice : FileSystem :=
  {| progressFile := Some secondCheckpoint; outputFile := None |}.



(** ** Deck matcher: style filter and price *)

(** [oc] holds an offer with a positive price whose label is one of the
    five grades. *)
Definition hasGradedOffer (oc : ListingRecord) : Prop :=
  exists c, c ∈ conditions oc /\ gt0 (cond_price c) = true
            /\ condition c ∈ Store.qualityOrder.

(** A card whose only offer carries a label outside the five grades, and
    a deck entry asking for it. *)
Definition mintOnly : ListingRecord :=
  cardWith (u "Black Lotus") [offer (u "MINT") 999900 1].

Definition lotusWanted : Store.MoxfieldCard :=
  {| Store.mox_name := u "Black Lotus"; Store.mox_set := []; Store.quantity := Fin 1 |}.

(** ** Basket *)

(** What every item of a basket built by the actions satisfies: its id is
    the one made of its card and offer, its offer has positive stock, and
    its quantity is positive, or NaN where [nanAllowed]. *)
Definition wellFormedItem (nanAllowed : bool) (item : Basket.BasketItem) : Prop :=
  Basket.item_id item = Basket.itemId (Basket.item_card item) (Basket.item_condition item)
  /\ gt0 (cond_stock (Basket.item_condition item)) = true
  /\ (gt0 (Basket.item_quantity item) = true
      \/ (nanAllowed = true /\ Basket.item_quantity item = NaN)).

Definition wellFormedBasket (nanAllowed : bool) (b : list Basket.BasketItem) : Prop :=
  NoDup (Basket.item_id <$> b) /\ Forall (wellFormedItem nanAllowed) b.

(** The action does not pass NaN as a quantity to update. *)
Definition numericUpdate (a : Basket.Action) : Prop :=
  match a with
  | Basket.UpdateBasketQuantity _ NaN => False
  | _ => True
  end.

(** The quantity of the item [id] set to [quantity], capped at the stock
    of the item's offer. *)
Definition clampQuantity (id : jsstring) (quantity : jsnum) (item : Basket.BasketItem)
  : Basket.BasketItem :=
  if Basket.hasId id item
  then Basket.setQuantity item (min2 quantity (cond_stock (Basket.item_condition item)))
  else item.

Definition noon : Basket.Clock :=
  {| Basket.isoNow := u "2025-01-01T12:00:00.000Z"; Basket.msNow := u "1735732800000" |}.

(** A basket holding two copies of a card in stock five times. *)
Definition lightningBolt : ListingRecord :=
  cardWith (u "Lightning Bolt") [offer (u "NM/M") 250 5].

Definition twoBolts : Basket.State :=
  Basket.session [Basket.AddToBasket noon lightningBolt (offer (u "NM/M") 250 5) (Fin 2)].

(** * Properties *)

(** ** The model at work *)

Example parseInt_runs :
  parseInt (u "  42 left") = Fin 42 /\ parseInt (u "-7") = Fin (-7)
  /\ parseInt (u "n/a") = NaN /\ parseInt [] = NaN.
Proof. repeat split. Qed.

Example trim_runs : trim (u "  Sol  Ring  ") = u "Sol  Ring" /\ trim [160%N; 9%N] = [].
Proof. split; reflexivity. Qed.

(** Above [2^53] an integer is rounded to the nearest double, ties to
    even. *)
Example rnd_runs :
  rnd (2 ^ 53 + 1) = Fin (2 ^ 53) /\ rnd (2 ^ 53 + 3) = Fin (2 ^ 53 + 4)
  /\ rnd (- (2 ^ 53 + 3)) = Fin (- (2 ^ 53 + 4)) /\ rnd (2 ^ 1024) = PInf.
Proof. repeat split. Qed.

(** The product by 100 is the double product: [1.005 * 100] is
    [100.49999999999999], which rounds to 100. *)
Example priceCents_runs :
  priceCents (u "1.005 " ++ [euro]) = Fin 100
  /\ priceCents (u "EUR 1,50") = Fin 100
  /\ priceCents (u "12.") = Fin 1200
  /\ priceCents (u "0.29 " ++ [euro]) = Fin 29.
Proof. repeat split. Qed.

Example cheapestPrice_runs :
  cheapestPrice [offer (u "NM/M") 500 0; offer (u "EX/GD") 400 1; offer (u "HP") 300 2]
                None = Fin 300
  /\ cheapestPrice [offer (u "NM/M") 500 0; offer (u "HP") 300 0] None = Fin 300
  /\ cheapestPrice [offer (u "NM/M") 0 4] (Some (u "250")) = Fin 250
  /\ cheapestPrice [] None = Fin 0.
Proof. repeat split. Qed.

Example parseCardData_runs :
  let d := parseCardData solRingContainer in
  name d = u "Sol Ring" /\ foil d = false /\ price d = Fin 150 /\ stock d = Fin 3
  /\ set_label d = Some (u "Commander Masters")
  /\ outpostId <$> conditions d = [u "801"].
Proof. repeat split. Qed.

Example sortedCollections_runs :
  coll_name <$> sortedCollections
    [ {| coll_name := u "Alpha"; coll_id := u "1"; coll_url := [] |};
      {| coll_name := u "Commander 2020"; coll_id := u "2"; coll_url := [] |};
      {| coll_name := u "Beta"; coll_id := u "3"; coll_url := [] |};
      {| coll_name := u "Foundations Jumpstart"; coll_id := u "4"; coll_url := [] |} ]
  = [u "Foundations Jumpstart"; u "Commander 2020"; u "Alpha"; u "Beta"].
Proof. reflexivity. Qed.

(** Groups come out in order of first appearance; a group without a
    positive price is dropped. *)
Example consolidateCards_runs :
  consolidateCards ascii_toLowerCase
    [ listing (u "Opt") 30 1 true; listing (u "Shock") 0 3 false;
      listing (u "opt ") 30 4 false; listing (u "Duress") 15 0 false;
      listing (u "OPT") 20 0 false ]
  = [listing (u "opt ") 30 4 false; listing (u "Duress") 15 0 false].
Proof. reflexivity. Qed.

(** A run that meets no failure writes the consolidated output and removes
    the checkpoint it wrote on the way. *)
Example scrapeAllCollections_runs :
  let '(outcome, fs) := scrapeAllCollections ascii_toLowerCase allWritable noFiles in
  outcome = Finished
  /\ progressFile fs = None
  /\ (exists cards, outputFile fs = Some (FinalOutput 25 25 0 25 cards)
                    /\ length cards = 25%nat).
Proof. vm_compute. split; [reflexivity | split; [reflexivity |]]. eexists. split; reflexivity. Qed.

Example analyzeCard_runs :
  Store.cheapestPriceCents
    (Store.analyzeCard ascii_toLowerCase
       [cardWith (u "Sol Ring") [offer (u "NM/M") 900 0; offer (u "SP/P") 450 2];
        cardWith (u "Sol Ring") [offer (u "SP/P") 400 1; offer (u "HP") 100 5]]
       false solRingWanted)
  = Fin 400.
Proof. reflexivity. Qed.

(** ** Numbers *)

Lemma rnd_sign (z : Z) :
  match rnd z with
  | Fin r => Z.sgn r = Z.sgn z
  | PInf => 0 < z
  | NInf => z < 0
  | NaN => False
  end.
Proof.
  unfold rnd.
  destruct (Z.ltb_spec (Z.abs z) (2 ^ 53)) as [Hs | Hb]; [reflexivity |].
  set (a := Z.abs z) in *.
  assert (Ha : 0 < a) by lia.
  assert (Hl : 53 <= Z.log2 a) by (apply Z.log2_le_pow2; lia).
  set (sh := Z.log2 a - 52).
  assert (Hp : 0 < 2 ^ sh) by (apply Z.pow_pos_nonneg; lia).
  assert (Hq : 0 < a / 2 ^ sh).
  { apply Z.div_str_pos. split; [lia |].
    transitivity (2 ^ Z.log2 a); [| apply Z.log2_spec; lia].
    apply Z.pow_le_mono_r; lia. }
  set (q := a / 2 ^ sh) in *.
  set (q' := if _ : bool then q + 1 else q).
  assert (Hq' : 0 < q') by (subst q'; destruct (_ || _); lia).
  assert (Hv : 0 < q' * 2 ^ sh) by nia.
  destruct (2 ^ 1024 <=? q' * 2 ^ sh).
  - destruct (Z.ltb_spec z 0); lia.
  - subst a. destruct z; simpl in *; lia.
Qed.

Lemma gt0_rnd (z : Z) : gt0 (rnd z) = (0 <? z).
Proof.
  pose proof (rnd_sign z) as H. unfold gt0, jgt, zero.
  destruct (rnd z) as [r | | |]; simpl; try contradiction.
  - destruct (Z.ltb_spec 0 r), (Z.ltb_spec 0 z); lia.
  - symmetry. apply Z.ltb_lt. lia.
  - symmetry. apply Z.ltb_ge. lia.
Qed.

Lemma jeq_rnd_zero (z : Z) : jeq (rnd z) zero = (z =? 0).
Proof.
  pose proof (rnd_sign z) as H. unfold jeq, zero.
  destruct (rnd z) as [r | | |]; try contradiction.
  - destruct (Z.eqb_spec z 0) as [Hz | Hz].
    + apply bool_decide_eq_true. f_equal. destruct r, z; simpl in H; congruence.
    + apply bool_decide_eq_false. intros [= ->]. destruct z; simpl in H; congruence.
  - rewrite bool_decide_eq_false_2 by discriminate. symmetry. apply Z.eqb_neq. lia.
  - rewrite bool_decide_eq_false_2 by discriminate. symmetry. apply Z.eqb_neq. lia.
Qed.

(** ** Sorting *)

Section SortFacts.
Context {A : Type} (cmp : A -> A -> jsnum).

Lemma insert_sorted_skip (x : A) (l1 l2 : list A) :
  Forall (fun y => before cmp x y = false) l1 ->
  insert_sorted cmp x (l1 ++ l2) = l1 ++ insert_sorted cmp x l2.
Proof.
  induction 1 as [| y l1 Hy _ IH]; [reflexivity |].
  simpl. rewrite Hy, IH. reflexivity.
Qed.

Lemma insert_sorted_front (x : A) (l : list A) :
  match l with [] => True | y :: _ => before cmp x y = true end ->
  insert_sorted cmp x l = x :: l.
Proof. destruct l as [| y l]; simpl; [reflexivity | intros ->; reflexivity]. Qed.

(** The head of the sorted array, computed along the input. *)
Lemma head_sort_cons (x : A) (l : list A) :
  head (sort cmp (x :: l)) =
  match head (sort cmp l) with
  | None => Some x
  | Some m => if before cmp x m then Some x else Some m
  end.
Proof.
  unfold sort. simpl. destruct (foldr _ _ l) as [| m s]; [reflexivity |].
  simpl. destruct (before cmp x m); reflexivity.
Qed.

(** *** Sorting by a key with finitely many values *)

Variable key : A -> nat.
Hypothesis before_key : forall a b, before cmp a b = (key a <=? key b)%nat.

Lemma bucket_cons (x : A) (l : list A) (i : nat) :
  bucket key (x :: l) i = if (key x =? i)%nat then x :: bucket key l i else bucket key l i.
Proof. reflexivity. Qed.

Lemma elem_of_bucket (y : A) (l : list A) (i : nat) :
  In y (bucket key l i) -> key y = i.
Proof. unfold bucket. rewrite filter_In. intros [_ H]. apply Nat.eqb_eq, H. Qed.

Lemma buckets_ge (l : list A) (a n : nat) :
  Forall (fun y => (a <= key y)%nat) (buckets key l a n).
Proof.
  unfold buckets. revert a. induction n as [| n IH]; intros a; simpl; [constructor |].
  apply Forall_app. split.
  - apply Forall_forall. intros y Hy.
    apply list_elem_of_In, elem_of_bucket in Hy. lia.
  - eapply Forall_impl; [apply IH |]. simpl. intros; lia.
Qed.

Lemma buckets_cons_out (x : A) (l : list A) (a n : nat) :
  (key x < a \/ a + n <= key x)%nat ->
  buckets key (x :: l) a n = buckets key l a n.
Proof.
  unfold buckets. revert a. induction n as [| n IH]; intros a H; simpl; [reflexivity |].
  rewrite IH by lia. f_equal.
  destruct (Nat.eqb_spec (key x) a); [lia | reflexivity].
Qed.

Lemma insert_buckets (x : A) (l : list A) (a n : nat) :
  (a <= key x < a + n)%nat ->
  insert_sorted cmp x (buckets key l a n) = buckets key (x :: l) a n.
Proof.
  revert a. induction n as [| n IH]; intros a H; [lia |].
  change (buckets key l a (S n)) with (bucket key l a ++ buckets key l (S a) n).
  change (buckets key (x :: l) a (S n))
    with (bucket key (x :: l) a ++ buckets key (x :: l) (S a) n).
  rewrite bucket_cons.
  destruct (Nat.eqb_spec (key x) a) as [He | Hne].
  - rewrite (buckets_cons_out x l (S a) n) by lia.
    rewrite insert_sorted_front; [reflexivity |].
    pose proof (buckets_ge l a (S n)) as Hge.
    change (buckets key l a (S n)) with (bucket key l a ++ buckets key l (S a) n) in Hge.
    destruct (bucket key l a ++ buckets key l (S a) n) as [| y r]; [exact I |].
    apply Forall_inv in Hge. rewrite before_key. apply Nat.leb_le. lia.
  - rewrite insert_sorted_skip.
    + rewrite IH by lia. reflexivity.
    + apply Forall_forall. intros y Hy.
      apply list_elem_of_In, elem_of_bucket in Hy.
      rewrite before_key. apply Nat.leb_gt. lia.
Qed.

Lemma buckets_nil (a n : nat) : buckets key [] a n = [].
Proof.
  unfold buckets. revert a. induction n as [| n IH]; intros a; simpl; auto.
Qed.

(** A stable sort by [key] lays the input out bucket after bucket, each
    bucket in input order. *)
Lemma sort_buckets (n : nat) (l : list A) :
  Forall (fun x => (key x < n)%nat) l ->
  sort cmp l = buckets key l 0 n.
Proof.
  induction 1 as [| x l Hx _ IH]; [symmetry; apply buckets_nil |].
  change (sort cmp (x :: l)) with (insert_sorted cmp x (sort cmp l)).
  rewrite IH. apply insert_buckets. lia.
Qed.
End SortFacts.

(** ** Collection enumerator: priority order *)

Section PriorityOrder.
Lemma findIndex_from_range {A} (p : A -> bool) (xs : list A) (i : Z) :
  0 <= i ->
  findIndex_from p xs i = -1 \/
  i <= findIndex_from p xs i < i + Z.of_nat (length xs).
Proof.
  revert i. induction xs as [| x xs IH]; intros i Hi; simpl; [left; reflexivity |].
  destruct (p x); [right; lia |].
  destruct (IH (i + 1)) as [-> | H]; [lia | left; reflexivity | right; lia].
Qed.

Lemma findIndex_from_none {A} (p : A -> bool) (xs : list A) (i : Z) :
  0 <= i ->
  findIndex_from p xs i = -1 <-> forall x, In x xs -> p x = false.
Proof.
  revert i. induction xs as [| x xs IH]; intros i Hi; simpl.
  - split; [intros _ y [] | reflexivity].
  - destruct (p x) eqn:Hp.
    + split; [lia | intros H; specialize (H x (or_introl eq_refl)); congruence].
    + rewrite IH by lia. split.
      * intros H y [<- | Hy]; auto.
      * intros H y Hy. apply H. right. exact Hy.
Qed.

Lemma findIndex_from_some {A} (p : A -> bool) (xs : list A) (i : Z) (k : nat) :
  0 <= i ->
  findIndex_from p xs i = i + Z.of_nat k <->
  exists x, xs !! k = Some x /\ p x = true /\
            forall j y, (j < k)%nat -> xs !! j = Some y -> p y = false.
Proof.
  revert i k. induction xs as [| x xs IH]; intros i k Hi; simpl.
  - split; [lia | intros (x & Hx & _); discriminate].
  - destruct (p x) eqn:Hp.
    + split.
      * intros H. assert (k = 0%nat) as -> by lia.
        exists x. repeat split; auto. intros; lia.
      * intros (y & Hy & Hpy & Hfirst). destruct k as [| k]; [lia |].
        specialize (Hfirst 0%nat x ltac:(lia) eq_refl). congruence.
    + destruct k as [| k].
      * split.
        -- intros H. destruct (findIndex_from_range p xs (i + 1)) as [E | E]; lia.
        -- intros (y & [= <-] & Hpy & _). congruence.
      * replace (i + Z.of_nat (S k)) with ((i + 1) + Z.of_nat k) by lia.
        rewrite IH by lia. split.
        -- intros (y & Hy & Hpy & Hfirst). exists y. repeat split; auto.
           intros [| j] z Hj Hz; simpl in Hz; [congruence |].
           eapply (Hfirst j); [lia | exact Hz].
        -- intros (y & Hy & Hpy & Hfirst). exists y. repeat split; auto.
           intros j z Hj Hz. apply (Hfirst (S j) z); [lia | exact Hz].
Qed.

Variable priority : list jsstring.

Lemma priorityIndex_range (c : CollectionRef) :
  priorityIndex priority c = -1 \/
  0 <= priorityIndex priority c < Z.of_nat (length priority).
Proof.
  destruct (findIndex_from_range (fun p => includes (coll_name c) p) priority 0) as [H | H];
    [lia | left; exact H | right; exact H].
Qed.

Lemma before_priorityKey (a b : CollectionRef) :
  before (priorityCompare priority) a b = (priorityKey priority a <=? priorityKey priority b)%nat.
Proof.
  unfold before, priorityCompare, priorityKey.
  destruct (priorityIndex_range a) as [Ha | Ha], (priorityIndex_range b) as [Hb | Hb].
  - rewrite Ha, Hb. simpl. symmetry. apply Nat.leb_le. lia.
  - rewrite Ha. destruct (Z.eqb_spec (priorityIndex priority b) (-1)); [lia |].
    simpl. symmetry. apply Nat.leb_gt. lia.
  - rewrite Hb. destruct (Z.eqb_spec (priorityIndex priority a) (-1)); [lia |].
    simpl. symmetry. apply Nat.leb_le. lia.
  - destruct (Z.eqb_spec (priorityIndex priority a) (-1)); [lia |].
    destruct (Z.eqb_spec (priorityIndex priority b) (-1)); [lia |].
    simpl. unfold jsub, jneg, jadd. rewrite gt0_rnd.
    destruct (Z.ltb_spec 0 (priorityIndex priority a + - priorityIndex priority b));
      simpl; symmetry; [apply Nat.leb_gt | apply Nat.leb_le]; lia.
Qed.

Lemma bucket_priority (l : list CollectionRef) (i : nat) :
  (i < length priority)%nat ->
  bucket (priorityKey priority) l i =
  List.filter (fun c => priorityIndex priority c =? Z.of_nat i) l.
Proof.
  intros Hi. unfold bucket. apply filter_ext. intros c. unfold priorityKey.
  destruct (priorityIndex_range c) as [Hc | Hc].
  - rewrite Hc. change (-1 =? -1) with true. cbv iota.
    destruct (Nat.eqb_spec (length priority) i), (Z.eqb_spec (-1) (Z.of_nat i)); lia.
  - destruct (Z.eqb_spec (priorityIndex priority c) (-1)); [lia |].
    destruct (Nat.eqb_spec (Z.to_nat (priorityIndex priority c)) i),
             (Z.eqb_spec (priorityIndex priority c) (Z.of_nat i)); lia.
Qed.

Lemma bucket_no_priority (l : list CollectionRef) :
  bucket (priorityKey priority) l (length priority) =
  List.filter (fun c => priorityIndex priority c =? -1) l.
Proof.
  unfold bucket. apply filter_ext. intros c. unfold priorityKey.
  destruct (priorityIndex_range c) as [Hc | Hc].
  - rewrite Hc. simpl. apply Nat.eqb_refl.
  - destruct (Z.eqb_spec (priorityIndex priority c) (-1)); [lia |].
    apply Nat.eqb_neq. lia.
Qed.

Lemma flat_map_ext_seq {B} (f g : nat -> list B) (n : nat) :
  (forall i, (i < n)%nat -> f i = g i) ->
  flat_map f (seq 0 n) = flat_map g (seq 0 n).
Proof.
  intros H. induction n as [| n IH]; [reflexivity |].
  rewrite seq_S, !flat_map_app. simpl. rewrite !app_nil_r.
  rewrite IH by (intros; apply H; lia). rewrite H by lia. reflexivity.
Qed.

Lemma sortCollections_buckets (collections : list CollectionRef) :
  sortCollections priority collections =
  flat_map (fun i => List.filter (fun c => priorityIndex priority c =? Z.of_nat i)
                                 collections)
           (seq 0 (length priority))
  ++ List.filter (fun c => priorityIndex priority c =? -1) collections.
Proof.
  unfold sortCollections.
  rewrite (sort_buckets _ (priorityKey priority) before_priorityKey (S (length priority))).
  - unfold buckets. rewrite seq_S, flat_map_app. simpl. rewrite app_nil_r.
    rewrite bucket_no_priority. f_equal.
    apply flat_map_ext_seq. intros i Hi. apply bucket_priority, Hi.
  - apply Forall_forall. intros c _. unfold priorityKey.
    destruct (priorityIndex_range c) as [Hc | Hc].
    + rewrite Hc. simpl. lia.
    + destruct (Z.eqb_spec (priorityIndex priority c) (-1)); lia.
Qed.
End PriorityOrder.

Lemma startsWith_spec (s p : jsstring) :
  startsWith s p = true <-> exists b, s = p ++ b.
Proof.
  revert s. induction p as [| c p IH]; intros [| d s]; simpl.
  - split; [exists []; reflexivity | reflexivity].
  - split; [exists (d :: s); reflexivity | reflexivity].
  - split; [discriminate | intros (b & Hb); discriminate].
  - rewrite andb_true_iff, N.eqb_eq, IH. split.
    + intros (-> & b & ->). exists b. reflexivity.
    + intros (b & [= -> ->]). split; [reflexivity | exists b; reflexivity].
Qed.

(** [includes] is substring containment. *)
Lemma includes_spec (s p : jsstring) :
  includes s p = true <-> exists a b, s = a ++ p ++ b.
Proof.
  induction s as [| c s IH].
  - change (includes [] p) with (startsWith [] p || false).
    rewrite orb_false_r, startsWith_spec. split.
    + intros (b & Hb). exists [], b. exact Hb.
    + intros (a & b & H). destruct a; [exists b; exact H | discriminate].
  - change (includes (c :: s) p) with (startsWith (c :: s) p || includes s p).
    rewrite orb_true_iff, startsWith_spec, IH. split.
    + intros [(b & Hb) | (a & b & ->)].
      * exists [], b. exact Hb.
      * exists (c :: a), b. reflexivity.
    + intros ([| d a] & b & H).
      * left. exists b. exact H.
      * right. injection H as -> ->. exists a, b. reflexivity.
Qed.

(** C8. Sorting by priority lays the collections out as follows: for each
    position of the priority list in turn, the collections whose first
    matching term (the first term their name contains) stands at that
    position, in discovery order; then the collections whose name contains
    no term, in discovery order.  With the list Bloomburrow, Commander the
    collections Foundations, Bloomburrow: Alania, Commander Masters come out
    as Bloomburrow: Alania, Commander Masters, Foundations. *)
Theorem priority_order_of_collections :
  (forall (priority : list jsstring) (collections : list CollectionRef),
      sortCollections priority collections =
      flat_map (fun i =>
                  List.filter (fun c => priorityIndex priority c =? Z.of_nat i)
                              collections)
               (seq 0 (length priority))
      ++ List.filter (fun c => priorityIndex priority c =? -1) collections)
  /\ (forall (priority : list jsstring) (c : CollectionRef) (i : nat),
         priorityIndex priority c = Z.of_nat i <->
         exists p, priority !! i = Some p
                   /\ includes (coll_name c) p = true
                   /\ forall j q, (j < i)%nat -> priority !! j = Some q ->
                                  includes (coll_name c) q = false)
  /\ (forall (priority : list jsstring) (c : CollectionRef),
         priorityIndex priority c = -1 <->
         forall p, In p priority -> includes (coll_name c) p = false)
  /\ (forall id1 url1 id2 url2 id3 url3,
         let foundations :=
           {| coll_name := u "Foundations";
              coll_id := id1; coll_url := url1 |} in
         let bloomburrow :=
           {| coll_name := u "Bloomburrow: Alania";
              coll_id := id2; coll_url := url2 |} in
         let commander :=
           {| coll_name := u "Commander Masters";
              coll_id := id3; coll_url := url3 |} in
         sortCollections [u "Bloomburrow"; u "Commander"]
                                    [foundations; bloomburrow; commander]
         = [bloomburrow; commander; foundations]).
Proof.
  split; [| split; [| split]].
  - apply sortCollections_buckets.
  - intros priority c i. unfold priorityIndex, findIndex.
    exact (findIndex_from_some _ priority 0 i (Z.le_refl 0)).
  - intros priority c. unfold priorityIndex, findIndex.
    apply findIndex_from_none. lia.
  - intros. reflexivity.
Qed.

(** ** Collection enumerator: duplicates *)

Section Duplicates.

Lemma snapshotStep_inv (st : list CollectionRef * gset jsstring) (a : Anchor) :
  snapshotInv st -> snapshotInv (snapshotStep st a).
Proof.
  destruct st as [cs seen]. intros [Hnd Hseen]. unfold snapshotStep.
  destruct (href a) as [h |]; [| split; assumption].
  destruct (truthy h && truthy (trim (anchor_text a))); [| split; assumption].
  destruct (collectionIdMatch h) as [cid |]; [| split; assumption].
  case_bool_decide as Hk; [split; assumption |].
  split; simpl in *.
  - rewrite !fmap_app. simpl. apply NoDup_app. split; [exact Hnd |]. split.
    + intros k Hk' Hin. apply list_elem_of_singleton in Hin. subst k.
      apply list_elem_of_fmap in Hk' as (p & Hp & Hin).
      apply list_elem_of_fmap in Hin as (c & -> & Hc).
      apply Hk. unfold seenKey, idName in Hp. simpl in Hp.
      specialize (Hseen c Hc). unfold seenKey, idName in Hseen. simpl in Hseen.
      rewrite Hp. exact Hseen.
    + apply NoDup_singleton.
  - intros c Hc. apply elem_of_app in Hc as [Hc | Hc].
    + apply elem_of_union_r, Hseen, Hc.
    + apply list_elem_of_singleton in Hc. subst c.
      apply elem_of_union_l, elem_of_singleton. reflexivity.
Qed.

Lemma snapshot_fold_inv (anchors : list Anchor) (st : list CollectionRef * gset jsstring) :
  snapshotInv st -> snapshotInv (fold_left snapshotStep anchors st).
Proof.
  revert st. induction anchors as [| a anchors IH]; intros st H; simpl; [exact H |].
  apply IH, snapshotStep_inv, H.
Qed.

Lemma snapshot_no_duplicates (snapshot : option (list Anchor)) :
  NoDup (idName <$> parseCollectionsFromHTML snapshot).
Proof.
  destruct snapshot as [anchors |]; simpl; [| apply NoDup_nil_2].
  destruct (snapshot_fold_inv anchors ([], ∅)) as [H _].
  - split; simpl; [apply NoDup_nil_2 | intros c Hc; inversion Hc].
  - eapply NoDup_fmap_1, H.
Qed.

Lemma catalogStep_entry (cs : list CollectionRef) (a : CatalogAnchor) :
  catalogStep cs a = cs ++ option_list (catalogEntry a).
Proof.
  unfold catalogStep, catalogEntry.
  destruct (collectionIdMatch (cat_href a)); [| symmetry; apply app_nil_r].
  destruct (trim (cat_text a)) as [| c [| c' [| c'' t]]]; simpl;
    try (symmetry; apply app_nil_r); reflexivity.
Qed.

Lemma catalog_fold (anchors : list CatalogAnchor) (cs : list CollectionRef) :
  fold_left catalogStep anchors cs = cs ++ omap catalogEntry anchors.
Proof.
  revert cs. induction anchors as [| a anchors IH]; intros cs; simpl.
  - symmetry. apply app_nil_r.
  - rewrite IH, catalogStep_entry, <- app_assoc. f_equal.
    destruct (catalogEntry a); reflexivity.
Qed.
End Duplicates.

(** C9, as the code has it.  The snapshot parser returns no two entries
    with the same (id, name) pair.  The live catalog parser does not
    deduplicate: it returns, in order, one entry for every anchor whose href
    carries a collection id and whose trimmed text is longer than two code
    units. *)
Theorem enumeration_duplicates :
  (forall snapshot : option (list Anchor),
      NoDup (idName <$> parseCollectionsFromHTML snapshot))
  /\ (forall anchors : list CatalogAnchor,
         parseCollections (Some anchors) = omap catalogEntry anchors)
  /\ parseCollections None = [].
Proof.
  split; [exact snapshot_no_duplicates | split; [| reflexivity]].
  intros anchors. simpl. apply (catalog_fold anchors []).
Qed.

(** C9 as stated fails for the live catalog parser: a catalog page that
    links the same collection twice yields the entry twice. *)
Lemma live_enumeration_keeps_duplicates :
  ~ (forall catalog : option (list CatalogAnchor),
        NoDup (idName <$> parseCollections catalog)).
Proof.
  intros H. specialize (H (Some [bloomburrowAnchor; bloomburrowAnchor])).
  vm_compute in H. apply NoDup_cons in H as [Hin _].
  apply Hin. left.
Qed.

(** ** Extractor: offers *)

Section Offers.
Lemma str_eqb_nil (s : jsstring) : str_eqb s [] = negb (truthy s).
Proof. destruct s; reflexivity. Qed.

Lemma parseSale_Some (sale : SaleElement) (c : CardCondition) :
  parseSale sale = Some c ->
  condition c = trim (quality_text sale)
  /\ condition c <> []
  /\ cond_price c = priceCents (trim (price_text sale))
  /\ cond_stock c = parseStock sale
  /\ (gt0 (cond_price c) = true \/ gt0 (cond_stock c) = true).
Proof.
  unfold parseSale.
  destruct (truthy (trim (quality_text sale))) eqn:Ht; [| discriminate].
  destruct (str_eqb _ _); simpl; [discriminate |].
  destruct (gt0 (priceCents _) || gt0 (parseStock sale)) eqn:Hpos; [| discriminate].
  intros [= <-]. simpl. repeat split; auto.
  - intros E. rewrite E in Ht. discriminate.
  - apply orb_true_iff, Hpos.
Qed.

Lemma parseSale_None (sale : SaleElement) :
  parseSale sale = None <->
  trim (quality_text sale) = []
  \/ (gt0 (priceCents (trim (price_text sale))) = false
      /\ gt0 (parseStock sale) = false).
Proof.
  unfold parseSale. rewrite str_eqb_nil.
  destruct (trim (quality_text sale)) as [| q qs] eqn:Hq.
  - simpl. split; [left; reflexivity | reflexivity].
  - cbn [truthy negb andb].
    destruct (gt0 (priceCents _)), (gt0 (parseStock sale)); cbn [orb];
      (split; [ intros H | intros [H | [H1 H2]] ]);
      first [ congruence | right; split; reflexivity ].
Qed.

Lemma elem_of_parseConditions (sales : list SaleElement) (c : CardCondition) :
  c ∈ parseConditions sales <-> exists sale, sale ∈ sales /\ parseSale sale = Some c.
Proof. unfold parseConditions. apply list_elem_of_omap. Qed.
End Offers.

(** C10. A sale row whose condition label is empty once trimmed adds no
    offer, whatever its price and stock: the offers of the container are
    those of the container without that row. *)
Theorem empty_condition_label_contributes_nothing
        (sale : SaleElement) (rows_before rows_after : list SaleElement) :
  trim (quality_text sale) = [] ->
  parseSale sale = None
  /\ parseConditions (rows_before ++ sale :: rows_after)
     = parseConditions (rows_before ++ rows_after).
Proof.
  intros H.
  assert (Hn : parseSale sale = None) by (apply parseSale_None; left; exact H).
  split; [exact Hn |].
  unfold parseConditions. rewrite !omap_app. simpl. rewrite Hn. reflexivity.
Qed.

(** C10 at a row with price 1.50, stock 3 and a blank label. *)
Lemma empty_condition_label_witness :
  (gt0 (priceCents (trim (price_text unlabelledRow))) = true
   /\ gt0 (parseStock unlabelledRow) = true)
  /\ parseSale unlabelledRow = None
  /\ parseConditions ([] ++ unlabelledRow :: [])
     = parseConditions ([] ++ []).
Proof.
  split; [split; reflexivity |].
  apply (empty_condition_label_contributes_nothing unlabelledRow [] []).
  reflexivity.
Defined.

(** ** Extractor: one collection page *)

Section Page.

Lemma accepted_checks (d : CardData) :
  accepted d = true ->
  hasValidName d = true /\ hasValidPrice d = true
  /\ hasValidConditions d = true /\ hasValidSet d = true.
Proof.
  unfold accepted. rewrite !andb_true_iff. tauto.
Qed.

Lemma scrape_fold (coll : CollectionRef) (page : list CardElement) (st : ScrapeState) :
  let st' := fold_left (scrapeStep coll) page st in
  cards st' = cards st ++ List.map (stamp coll) (List.filter accepted (parsed page))
  /\ skippedCards st'
     = (skippedCards st + count (fun d => negb (accepted d)) (parsed page))%nat
  /\ noName (skipReasons st')
     = (noName (skipReasons st) + count (fun d => negb (hasValidName d)) (parsed page))%nat
  /\ noPrice (skipReasons st')
     = (noPrice (skipReasons st) + count (fun d => negb (hasValidPrice d)) (parsed page))%nat
  /\ noConditions (skipReasons st')
     = (noConditions (skipReasons st)
        + count (fun d => negb (hasValidConditions d)) (parsed page))%nat
  /\ noSet (skipReasons st')
     = (noSet (skipReasons st) + count (fun d => negb (hasValidSet d)) (parsed page))%nat.
Proof.
  revert st. induction page as [| el page IH]; intros st; simpl.
  - unfold count. simpl. rewrite app_nil_r. repeat split; lia.
  - specialize (IH (scrapeStep coll st el)). simpl in IH.
    destruct IH as (Hc & Hs & Hn & Hp & Hcd & Hset).
    rewrite Hc, Hs, Hn, Hp, Hcd, Hset. clear Hc Hs Hn Hp Hcd Hset.
    unfold scrapeStep, count. simpl.
    destruct (accepted (parseCardData el)) eqn:Hacc; simpl.
    + apply accepted_checks in Hacc as (-> & -> & -> & ->). simpl.
      rewrite <- app_assoc. repeat split; reflexivity.
    + unfold bump.
      destruct (hasValidName _), (hasValidPrice _), (hasValidConditions _),
               (hasValidSet _); simpl; repeat split; lia.
Qed.

Lemma scrapeCollection_cards (page : list CardElement) (coll : CollectionRef) :
  cards (scrapeCollection page coll)
  = List.map (stamp coll) (List.filter accepted (parsed page)).
Proof. apply (scrape_fold coll page scrapeInit). Qed.

Lemma parseCardData_offers (el : CardElement) :
  Forall (fun c => gt0 (cond_price c) = true \/ gt0 (cond_stock c) = true)
         (conditions (parseCardData el)).
Proof.
  apply Forall_forall. intros c Hc. simpl in Hc.
  apply elem_of_parseConditions in Hc as (sale & _ & Hs).
  apply parseSale_Some in Hs. tauto.
Qed.
End Page.

(** C6. Every offer of every record the extractor returns has a positive
    price or a positive stock.  A container with the rows (NM/M, stock 3,
    1.50 EUR) and (HP, stock 0, 0.00 EUR) yields a record whose only offer
    is (NM/M, 150, 3). *)
Theorem retained_offers_have_price_or_stock :
  (forall el : CardElement,
      Forall (fun c => gt0 (cond_price c) = true
                       \/ gt0 (cond_stock c) = true)
             (conditions (parseCardData el)))
  /\ (forall (page : list CardElement) (coll : CollectionRef),
         Forall (fun r : ListingRecord =>
                   Forall (fun c => gt0 (cond_price c) = true
                                    \/ gt0 (cond_stock c) = true)
                          (conditions r))
                (cards (scrapeCollection page coll)))
  /\ (forall id1 id2 : jsstring,
         offerTriple <$> parseConditions [nearMintRow id1; heavilyPlayedRow id2]
         = [(u "NM/M", Fin 150, Fin 3)])
  /\ (forall coll : CollectionRef,
         (fun r : ListingRecord => offerTriple <$> conditions r)
           <$> cards (scrapeCollection [solRingContainer] coll)
         = [[(u "NM/M", Fin 150, Fin 3)]]).
Proof.
  split; [exact parseCardData_offers | split; [| split]].
  - intros page coll. rewrite scrapeCollection_cards.
    apply Forall_forall. intros r Hr.
    apply list_elem_of_In, in_map_iff in Hr as (d & <- & Hd).
    apply filter_In in Hd as [Hd _]. apply in_map_iff in Hd as (el & <- & _).
    apply parseCardData_offers.
  - intros id1 id2. reflexivity.
  - intros coll. reflexivity.
Qed.

Section Acceptance.

Lemma hasValidName_spec (d : CardData) :
  hasValidName d = true <-> name d <> [] /\ trim (name d) <> [].
Proof.
  unfold hasValidName. rewrite str_eqb_nil, negb_involutive, andb_true_iff.
  destruct (name d), (trim _); simpl; split; intros [? ?]; split; congruence.
Qed.

Lemma hasValidConditions_spec (d : CardData) :
  hasValidConditions d = true <-> conditions d <> [].
Proof.
  unfold hasValidConditions. destruct (conditions d); split; congruence.
Qed.

Lemma hasValidSet_spec (d : CardData) :
  hasValidSet d = true <->
  exists s, set_label d = Some s /\ s <> [] /\ trim s <> [].
Proof.
  unfold hasValidSet. destruct (set_label d) as [s |].
  - rewrite str_eqb_nil, negb_involutive, andb_true_iff. split.
    + intros [H1 H2]. exists s. destruct s, (trim _); simpl in *; repeat split; congruence.
    + intros (s' & [= <-] & H1 & H2). destruct s, (trim _); simpl; split; congruence.
  - split; [discriminate | intros (s & H & _); discriminate].
Qed.

Lemma snapshot_names (anchors : list Anchor) (st : list CollectionRef * gset jsstring) :
  Forall (fun c => coll_name c <> []) st.1 ->
  Forall (fun c => coll_name c <> []) (fold_left snapshotStep anchors st).1.
Proof.
  revert st. induction anchors as [| a anchors IH]; intros [cs seen] H; [exact H |].
  simpl. apply IH. simpl in H. unfold snapshotStep.
  destruct (href a) as [h |]; [| exact H].
  destruct (truthy h); simpl; [| exact H].
  destruct (truthy (trim (anchor_text a))) eqn:Ht; [| exact H].
  destruct (collectionIdMatch h); [| exact H].
  case_bool_decide; [exact H |]. simpl.
  apply Forall_app. split; [exact H |]. constructor; [| constructor].
  simpl. intros E. rewrite E in Ht. discriminate.
Qed.

Lemma parseCollectionsFromHTML_names (snapshot : option (list Anchor)) :
  Forall (fun c => coll_name c <> []) (parseCollectionsFromHTML snapshot).
Proof.
  destruct snapshot as [anchors |]; simpl; [| constructor].
  apply (snapshot_names anchors ([], ∅)). constructor.
Qed.
End Acceptance.

(** C7. Every record [scrapeCollection] returns has a non-empty name (also
    once trimmed), at least one offer, a positive price and a non-empty set
    label, and carries the name and id of the collection scraped, whose name
    is non-empty when the collection comes from the enumerator.  The records
    returned are exactly the parsed containers passing the four checks, in
    page order; the others are only counted, in total and once for each
    check they fail. *)
Theorem accepted_listings (page : list CardElement) (coll : CollectionRef) :
  let st := scrapeCollection page coll in
  Forall (fun r : ListingRecord =>
            name r <> [] /\ trim (name r) <> []
            /\ conditions r <> []
            /\ gt0 (price r) = true
            /\ (exists s, set_label r = Some s /\ s <> [] /\ trim s <> [])
            /\ collection r = coll_name coll
            /\ collectionId r = coll_id coll)
         (cards st)
  /\ (forall snapshot : option (list Anchor),
         coll ∈ parseCollectionsFromHTML snapshot ->
         Forall (fun r : ListingRecord => collection r <> []) (cards st))
  /\ cards st = stamp coll <$> List.filter accepted (parseCardData <$> page)
  /\ skippedCards st = count (fun d => negb (accepted d)) (parseCardData <$> page)
  /\ noName (skipReasons st)
     = count (fun d => negb (hasValidName d)) (parseCardData <$> page)
  /\ noPrice (skipReasons st)
     = count (fun d => negb (hasValidPrice d)) (parseCardData <$> page)
  /\ noConditions (skipReasons st)
     = count (fun d => negb (hasValidConditions d)) (parseCardData <$> page)
  /\ noSet (skipReasons st)
     = count (fun d => negb (hasValidSet d)) (parseCardData <$> page).
Proof.
  intros st.
  destruct (scrape_fold coll page scrapeInit) as (Hc & Hs & Hn & Hp & Hcd & Hset).
  fold (scrapeCollection page coll) in Hc, Hs, Hn, Hp, Hcd, Hset.
  fold st in Hc, Hs, Hn, Hp, Hcd, Hset.
  simpl in Hc, Hs, Hn, Hp, Hcd, Hset.
  assert (Hall : forall r : ListingRecord, r ∈ cards st ->
                           accepted r = true /\ collection r = coll_name coll
                           /\ collectionId r = coll_id coll).
  { intros r Hr. rewrite Hc in Hr.
    apply list_elem_of_In, in_map_iff in Hr as (d & <- & Hd).
    apply filter_In in Hd as [_ Hd]. simpl. auto. }
  split; [| split; [| repeat split; assumption]].
  - apply Forall_forall. intros r Hr. destruct (Hall r Hr) as (Hacc & Hcn & Hci).
    apply accepted_checks in Hacc as (H1 & H2 & H3 & H4).
    apply hasValidName_spec in H1 as [? ?]. apply hasValidConditions_spec in H3.
    apply hasValidSet_spec in H4. repeat split; assumption.
  - intros snapshot Hin. apply Forall_forall. intros r Hr.
    destruct (Hall r Hr) as (_ & -> & _).
    pose proof (parseCollectionsFromHTML_names snapshot) as Hnames.
    rewrite Forall_forall in Hnames. apply Hnames, Hin.
Qed.

(** C7 on a page of two containers, one of them without a name, scraped
    for a collection the snapshot parser returns. *)
Lemma accepted_listings_witness :
  commanderMasters ∈ parseCollectionsFromHTML (Some [commanderMastersAnchor])
  /\ cards (scrapeCollection [solRingContainer; namelessContainer] commanderMasters)
     = [stamp commanderMasters (parseCardData solRingContainer)]
  /\ Forall (fun r : ListingRecord => collection r <> [])
            (cards (scrapeCollection [solRingContainer; namelessContainer]
                                     commanderMasters))
  /\ skippedCards (scrapeCollection [solRingContainer; namelessContainer]
                                    commanderMasters) = 1%nat.
Proof.
  assert (Hin : commanderMasters ∈ parseCollectionsFromHTML (Some [commanderMastersAnchor]))
    by (vm_compute; left).
  destruct (accepted_listings [solRingContainer; namelessContainer] commanderMasters)
    as (_ & Hname & Hcards & Hskipped & _).
  split; [exact Hin | split; [exact Hcards | split; [| exact Hskipped]]].
  apply (Hname (Some [commanderMastersAnchor])), Hin.
Defined.

(** ** Extractor: price parsing *)

(** Rounding a quotient to a double with a negative exponent: the result
    [m * 2^-k] is within half a unit in the last place of [n / d]. *)
Lemma fl_round (n d : Z) :
  0 < n -> 0 < d -> Z.log2 n - Z.log2 d < 52 ->
  exists k m,
    0 < k /\ Z.min (52 - (Z.log2 n - Z.log2 d)) 1074 <= k
    /\ 0 <= m
    /\ 2 * (m * d - n * 2 ^ k) <= d
    /\ - d <= 2 * (m * d - n * 2 ^ k)
    /\ fl n d = if 1024 <=? Z.log2 m - k then FInf else FFin m (- k).
Proof.
  intros Hn Hd Hl. unfold fl. cbv zeta.
  destruct (Z.leb_spec n 0) as [? | _]; [lia |].
  set (l := Z.log2 n - Z.log2 d) in *.
  set (lg := if pow2_le_ratio l n d then l else l - 1).
  assert (Hlg : lg <= l) by (subst lg; destruct (pow2_le_ratio l n d); lia).
  set (e := Z.max (lg - 52) (-1074)).
  assert (He : e < 0) by lia.
  destruct (Z.leb_spec 0 e) as [? | _]; [lia |]. cbv iota.
  exists (- e).
  assert (Hp : 0 < 2 ^ (- e)) by (apply Z.pow_pos_nonneg; lia).
  set (num := n * 2 ^ (- e)) in *.
  pose proof (Z.div_mod num d ltac:(lia)) as Hdm.
  pose proof (Z.mod_pos_bound num d Hd) as Hr.
  assert (Hq : 0 <= num / d) by (apply Z.div_pos; nia).
  set (q := num / d) in *. set (r := num mod d) in *.
  exists (if (d <? 2 * r) || (2 * r =? d) && Z.odd q then q + 1 else q).
  set (m := if _ : bool then q + 1 else q).
  replace (- - e) with e by lia.
  replace (Z.log2 m - - e) with (Z.log2 m + e) by lia.
  assert (Hm : m = q \/ m = q + 1) by (subst m; destruct (_ || _); auto).
  assert (Hm2 : 2 * (m * d - num) <= d /\ - d <= 2 * (m * d - num)).
  { subst m. destruct (Z.ltb_spec d (2 * r)); simpl; [nia |].
    destruct (Z.eqb_spec (2 * r) d); simpl; [destruct (Z.odd q); nia | nia]. }
  repeat split; first [lia | reflexivity].
Qed.

(** Below [10^15] cents, parsing a price with two decimals and multiplying
    by 100 loses nothing: the rounding errors of the two steps stay under
    one half. *)
Lemma cents_exact (n : Z) :
  0 <= n < 10 ^ 15 -> Math_round (fmul100 (fl n 100)) = Fin n.
Proof.
  intros Hn. destruct (Z.eq_dec n 0) as [-> | Hn0]; [reflexivity |].
  assert (Hlog : Z.log2 n < 50) by (apply Z.log2_lt_pow2; lia).
  destruct (fl_round n 100) as (k & m & Hk & Hkl & Hm & Hu & Hl & Hfl); try lia.
  { change (Z.log2 100) with 6. lia. }
  change (Z.log2 100) with 6 in Hkl.
  assert (HK : 2 ^ 9 <= 2 ^ k) by (apply Z.pow_le_mono_r; lia).
  set (K := 2 ^ k) in *.
  assert (HnK : n * K < 2 ^ 50 * K) by nia.
  assert (Hm0 : 0 < m) by nia.
  assert (Hmlog : Z.log2 m < 50 + k).
  { apply Z.log2_lt_pow2; [lia |]. rewrite Z.pow_add_r by lia. fold K. nia. }
  destruct (Z.leb_spec 1024 (Z.log2 m - k)) as [? | _]; [lia |].
  rewrite Hfl. unfold fmul100.
  destruct (Z.leb_spec 0 (- k)) as [? | _]; [lia |].
  replace (- - k) with k by lia. fold K.
  assert (Hklog : Z.log2 K = k) by (apply Z.log2_pow2; lia).
  assert (Hm100 : Z.log2 (100 * m) <= 50 + k).
  { assert (Z.log2 (100 * m) < 51 + k); [| lia].
    apply Z.log2_lt_pow2; [lia |]. rewrite Z.pow_add_r by lia. fold K. nia. }
  destruct (fl_round (100 * m) K) as (k2 & m2 & Hk2 & Hkl2 & Hm2 & Hu2 & Hl2 & Hfl2); try lia.
  rewrite Hklog in Hkl2.
  assert (HK2 : 2 ^ 2 <= 2 ^ k2) by (apply Z.pow_le_mono_r; lia).
  set (K2 := 2 ^ k2) in *.
  assert (Hm2log : Z.log2 m2 - k2 < 1024).
  { assert (m2 * K <= 100 * m * K2 + K) by lia.
    assert (Hm2b : m2 < 2 ^ (60 + k2)) by (rewrite Z.pow_add_r by lia; fold K2; nia).
    assert (Z.log2 m2 < 60 + k2); [| lia].
    destruct (Z.eq_dec m2 0) as [-> | ?]; [simpl; lia | apply Z.log2_lt_pow2; lia]. }
  destruct (Z.leb_spec 1024 (Z.log2 m2 - k2)) as [? | _]; [lia |].
  rewrite Hfl2. unfold Math_round.
  destruct (Z.leb_spec 0 (- k2)) as [? | _]; [lia |].
  f_equal. replace (- - k2) with k2 by lia. replace (1 - - k2) with (1 + k2) by lia.
  rewrite Z.pow_add_r by lia. fold K2. change (2 ^ 1) with 2.
  symmetry. apply Z.div_unique with (r := 2 * m2 + K2 - 2 * K2 * n); [| lia].
  left. split; nia.
Qed.

Section PriceText.

Lemma take_while_digits (ds rest : jsstring) :
  all_digits ds -> stops rest -> take_while is_digit (ds ++ rest) = ds.
Proof.
  intros Hds Hrest. induction Hds as [| c ds Hc _ IH]; simpl.
  - destruct rest as [| c rest]; [reflexivity |]. simpl in *. rewrite Hrest. reflexivity.
  - rewrite Hc, IH. reflexivity.
Qed.

Lemma drop_while_digits (ds rest : jsstring) :
  all_digits ds -> stops rest -> drop_while is_digit (ds ++ rest) = rest.
Proof.
  intros Hds Hrest. induction Hds as [| c ds Hc _ IH]; simpl.
  - destruct rest as [| c rest]; [reflexivity |]. simpl in *. rewrite Hrest. reflexivity.
  - rewrite Hc, IH. reflexivity.
Qed.

Lemma priceMatch_digits_first (ip rest : jsstring) :
  ip <> [] -> all_digits ip ->
  priceMatch (ip ++ rest) = Some (split_decimal (ip ++ rest)).
Proof.
  intros Hne Hip. destruct Hip as [| c ip Hc Hip]; [congruence |].
  simpl. rewrite Hc. reflexivity.
Qed.

Lemma priceMatch_fraction (ip fp rest : jsstring) :
  ip <> [] -> all_digits ip -> all_digits fp -> stops rest ->
  priceMatch (ip ++ u "." ++ fp ++ rest) = Some (ip, fp).
Proof.
  intros Hne Hip Hfp Hrest. rewrite priceMatch_digits_first by assumption.
  unfold split_decimal.
  rewrite take_while_digits, drop_while_digits by (assumption || reflexivity).
  simpl. rewrite take_while_digits by assumption. reflexivity.
Qed.

Lemma priceMatch_integer (ip rest : jsstring) :
  ip <> [] -> all_digits ip -> stops rest -> head rest <> Some 46%N ->
  priceMatch (ip ++ rest) = Some (ip, []).
Proof.
  intros Hne Hip Hrest Hdot. rewrite priceMatch_digits_first by assumption.
  unfold split_decimal. rewrite take_while_digits, drop_while_digits by assumption.
  destruct rest as [| c rest]; [reflexivity |].
  destruct (N.eq_dec c 46%N) as [-> | Hc]; [simpl in Hdot; congruence |].
  destruct c as [| p]; [reflexivity |].
  do 6 (destruct p as [p | p |]; try reflexivity). congruence.
Qed.

Lemma priceMatch_no_digit (s : jsstring) : no_digit s -> priceMatch s = None.
Proof.
  induction 1 as [| c s Hc _ IH]; simpl; [reflexivity |]. rewrite Hc. exact IH.
Qed.

Lemma digits_val_snoc (ds : jsstring) (c : N) :
  digits_val (ds ++ [c]) = 10 * digits_val ds + digit_val c.
Proof. unfold digits_val. rewrite fold_left_app. reflexivity. Qed.

Lemma digits_val_app (ds fs : jsstring) :
  digits_val (ds ++ fs) = digits_val ds * 10 ^ Z.of_nat (length fs) + digits_val fs.
Proof.
  induction fs as [| c fs IH] using rev_ind.
  - rewrite app_nil_r. simpl. unfold digits_val at 3. simpl. lia.
  - rewrite app_assoc, !digits_val_snoc, IH, length_app. simpl.
    rewrite Nat2Z.inj_add, Z.pow_add_r by lia. change (10 ^ Z.of_nat 1) with 10. lia.
Qed.

Lemma digits_val_bound (ds : jsstring) :
  all_digits ds -> 0 <= digits_val ds < 10 ^ Z.of_nat (length ds).
Proof.
  induction ds as [| c ds IH] using rev_ind; intros H.
  - unfold digits_val. simpl. lia.
  - apply Forall_app in H as [Hds Hc]. apply Forall_inv in Hc.
    specialize (IH Hds). rewrite digits_val_snoc, length_app. simpl.
    rewrite Nat2Z.inj_add, Z.pow_add_r by lia. change (10 ^ Z.of_nat 1) with 10.
    unfold is_digit in Hc. apply andb_true_iff in Hc as [H1 H2].
    apply N.leb_le in H1, H2. unfold digit_val. lia.
Qed.
End PriceText.

(** C5. The price text 0.26 EUR parses to 26 cents and 12.00 EUR to 1200.
    For a text made of a number (digits, optionally a dot and more digits),
    a space and a currency symbol, the price is [Math.round] of the number
    times 100, computed on doubles; with two decimals and at most fifteen
    digits this is exactly the number of cents.  A text without any digit
    parses to price 0, and the row is then kept only when its stock is
    positive. *)
Theorem price_parsing :
  priceCents (u "0.26 " ++ [euro]) = Fin 26
  /\ priceCents (u "12.00 " ++ [euro]) = Fin 1200
  /\ (forall ip fp cur : jsstring,
         ip <> [] -> all_digits ip -> all_digits fp ->
         priceCents (ip ++ u "." ++ fp ++ u " " ++ cur)
         = Math_round (fmul100 (parseFloat_decimal ip fp))
         /\ priceCents (ip ++ u " " ++ cur)
            = Math_round (fmul100 (parseFloat_decimal ip []))
         /\ (length fp = 2%nat -> (length ip <= 13)%nat ->
             priceCents (ip ++ u "." ++ fp ++ u " " ++ cur)
             = Fin (100 * digits_val ip + digits_val fp)))
  /\ (forall s : jsstring, no_digit s -> priceCents s = Fin 0)
  /\ (forall sale : SaleElement,
         no_digit (trim (price_text sale)) ->
         (gt0 (parseStock sale) = false -> parseSale sale = None)
         /\ (forall c, parseSale sale = Some c ->
                       cond_price c = Fin 0 /\ gt0 (cond_stock c) = true)).
Proof.
  assert (Hnone : forall s : jsstring, no_digit s -> priceCents s = Fin 0).
  { intros s Hs. unfold priceCents, priceEuros. rewrite priceMatch_no_digit by exact Hs.
    reflexivity. }
  split; [reflexivity | split; [reflexivity | split; [| split; [exact Hnone |]]]].
  - intros ip fp cur Hne Hip Hfp.
    assert (Hfrac : priceCents (ip ++ u "." ++ fp ++ u " " ++ cur)
                    = Math_round (fmul100 (parseFloat_decimal ip fp))).
    { unfold priceCents, priceEuros.
      rewrite priceMatch_fraction by (assumption || reflexivity). reflexivity. }
    split; [exact Hfrac | split].
    + unfold priceCents, priceEuros.
      rewrite priceMatch_integer by (assumption || reflexivity || discriminate).
      reflexivity.
    + intros Hlen2 Hlen13. rewrite Hfrac. unfold parseFloat_decimal.
      rewrite Hlen2. change (10 ^ Z.of_nat 2) with 100.
      rewrite digits_val_app, Hlen2. change (10 ^ Z.of_nat 2) with 100.
      replace (digits_val ip * 100 + digits_val fp)
        with (100 * digits_val ip + digits_val fp) by lia.
      apply cents_exact.
      pose proof (digits_val_bound ip Hip) as Hbi.
      pose proof (digits_val_bound fp Hfp) as Hbf.
      rewrite Hlen2 in Hbf. change (10 ^ Z.of_nat 2) with 100 in Hbf.
      assert (10 ^ Z.of_nat (length ip) <= 10 ^ 13) by (apply Z.pow_le_mono_r; lia).
      lia.
  - intros sale Hs. split.
    + intros Hstock. apply parseSale_None. right. rewrite (Hnone _ Hs). auto.
    + intros c Hc. apply parseSale_Some in Hc as (_ & _ & Hp & Hst & Hpos).
      rewrite (Hnone _ Hs) in Hp. split; [exact Hp |].
      destruct Hpos as [Hpos | Hpos]; [| exact Hpos].
      rewrite Hp in Hpos. discriminate.
Qed.

(** C5 at the text 3.75 EUR and at a row priced in words. *)
Lemma price_parsing_witness :
  priceCents (u "3" ++ u "." ++ u "75" ++ u " " ++ [euro]) = Fin (100 * 3 + 75)
  /\ (exists c, parseSale onRequestRow = Some c
                /\ cond_price c = Fin 0 /\ gt0 (cond_stock c) = true).
Proof.
  destruct price_parsing as (_ & _ & Hnum & _ & Hsale).
  split.
  - apply (Hnum (u "3") (u "75") [euro]).
    + discriminate.
    + repeat constructor.
    + repeat constructor.
    + reflexivity.
    + simpl. lia.
  - eexists. split; [reflexivity |].
    apply (Hsale onRequestRow); [repeat constructor | reflexivity].
Defined.

(** ** Consolidation *)

(** *** The first element of a sorted array *)

Section FirstOfSort.
Context {A : Type} (cmp : A -> A -> jsnum).

Lemma head_sort (l : list A) : head (sort cmp l) = pick cmp l.
Proof.
  induction l as [| x l IH]; [reflexivity |].
  rewrite head_sort_cons, IH. reflexivity.
Qed.

Lemma pick_None (l : list A) : pick cmp l = None -> l = [].
Proof.
  destruct l as [| x l]; [reflexivity |]. simpl.
  destruct (pick cmp l); [destruct (before cmp x a) |]; discriminate.
Qed.

(** The elements the comparator is a consistent ordering on. *)
Variable P : A -> Prop.
Hypothesis before_total :
  forall a b, P a -> P b -> before cmp a b = false -> before cmp b a = true.
Hypothesis before_trans :
  forall a b c, P a -> P b -> P c ->
                before cmp a b = true -> before cmp b c = true -> before cmp a c = true.

Lemma before_refl (a : A) : P a -> before cmp a a = true.
Proof.
  intros Ha. destruct (before cmp a a) eqn:E; [reflexivity |].
  rewrite (before_total a a Ha Ha E) in E. discriminate.
Qed.

Lemma pick_least (l : list A) (m : A) :
  Forall P l -> pick cmp l = Some m ->
  m ∈ l /\ forall y, y ∈ l -> before cmp m y = true.
Proof.
  intros HP. revert m. induction HP as [| x l Hx HP IH]; intros m; [discriminate |].
  simpl. destruct (pick cmp l) as [m' |] eqn:Hpick.
  - destruct (IH m' eq_refl) as [Hin Hle].
    assert (Hm' : P m') by (rewrite Forall_forall in HP; apply HP, Hin).
    destruct (before cmp x m') eqn:Hb; intros [= <-].
    + split; [left |]. intros y Hy. apply elem_of_cons in Hy as [-> | Hy].
      * apply before_refl, Hx.
      * apply (before_trans x m' y); auto.
        rewrite Forall_forall in HP. apply HP, Hy.
    + split; [right; exact Hin |]. intros y Hy. apply elem_of_cons in Hy as [-> | Hy].
      * apply before_total; assumption.
      * apply Hle, Hy.
  - intros [= <-]. apply pick_None in Hpick. subst l. split; [left |].
    intros y Hy. apply list_elem_of_singleton in Hy. subst y. apply before_refl, Hx.
Qed.

(** Among the elements the comparator does not tell apart from the one
    picked, the picked one comes first in the input. *)
Lemma pick_first (l : list A) (m : A) :
  pick cmp l = Some m ->
  exists l1 l2, l = l1 ++ m :: l2 /\ forall y, y ∈ l1 -> before cmp y m = false.
Proof.
  revert m. induction l as [| x l IH]; intros m; [discriminate |].
  simpl. destruct (pick cmp l) as [m' |] eqn:Hpick.
  - destruct (before cmp x m') eqn:Hb; intros [= <-].
    + exists [], l. split; [reflexivity |]. intros y Hy. inversion Hy.
    + destruct (IH m' eq_refl) as (l1 & l2 & -> & Hl1).
      exists (x :: l1), l2. split; [reflexivity |].
      intros y Hy. apply elem_of_cons in Hy as [-> | Hy]; auto.
  - intros [= <-]. exists [], l. split; [reflexivity |]. intros y Hy. inversion Hy.
Qed.
End FirstOfSort.

(** *** Groups *)


Section Groups.
Variable toLowerCase : jsstring -> jsstring.

Lemma str_eqb_eq (a b : jsstring) : str_eqb a b = true <-> a = b.
Proof. unfold str_eqb. apply bool_decide_eq_true. Qed.

Lemma str_eqb_neq (a b : jsstring) : str_eqb a b = false <-> a <> b.
Proof. unfold str_eqb. apply bool_decide_eq_false. Qed.

Lemma firstKeys_step_elem (ks : list jsstring) (kc k : jsstring) :
  k ∈ ks \/ k = kc <-> k ∈ (if bool_decide (kc ∈ ks) then ks else ks ++ [kc]).
Proof.
  case_bool_decide as Hin.
  - split; [intros [H | ->]; assumption | left; assumption].
  - rewrite elem_of_app, list_elem_of_singleton. reflexivity.
Qed.

Lemma str_eqb_sym (a b : jsstring) : str_eqb a b = str_eqb b a.
Proof.
  destruct (str_eqb b a) eqn:E.
  - apply str_eqb_eq in E. apply str_eqb_eq. congruence.
  - apply str_eqb_neq in E. apply str_eqb_neq. congruence.
Qed.

Lemma addToGroup_map (k : jsstring) (c : ListingRecord) (ks : list jsstring)
      (G : jsstring -> list ListingRecord) :
  NoDup ks ->
  (k ∉ ks -> G k = []) ->
  addToGroup k c ((fun k' => (k', G k')) <$> ks)
  = (fun k' => (k', if str_eqb k' k then G k' ++ [c] else G k'))
      <$> (if bool_decide (k ∈ ks) then ks else ks ++ [k]).
Proof.
  induction ks as [| k0 ks IH]; intros Hnd HG.
  - simpl. rewrite (proj2 (str_eqb_eq k k) eq_refl).
    rewrite HG by (intros H; inversion H). reflexivity.
  - apply NoDup_cons in Hnd as [Hk0 Hnd]. rewrite fmap_cons. cbn [addToGroup].
    destruct (str_eqb k0 k) eqn:E.
    + apply str_eqb_eq in E. subst k0.
      rewrite bool_decide_eq_true_2 by left. rewrite fmap_cons.
      rewrite (proj2 (str_eqb_eq k k) eq_refl). f_equal.
      apply list_fmap_ext. intros i k' Hk'.
      apply list_elem_of_lookup_2 in Hk'.
      rewrite (proj2 (str_eqb_neq k' k)); [reflexivity |]. congruence.
    + apply str_eqb_neq in E.
      assert (Hnot : k ∉ ks -> k ∉ k0 :: ks).
      { intros Hk Hin. apply elem_of_cons in Hin as [-> | Hin]; [congruence | auto]. }
      rewrite IH; [| exact Hnd | intros Hk; apply HG, Hnot, Hk].
      destruct (decide (k ∈ ks)) as [Hin | Hin].
      * rewrite !bool_decide_eq_true_2 by (try right; exact Hin). rewrite fmap_cons.
        rewrite (proj2 (str_eqb_neq k0 k) E). reflexivity.
      * rewrite (bool_decide_eq_false_2 (k ∈ ks)) by exact Hin.
        rewrite (bool_decide_eq_false_2 (k ∈ k0 :: ks)) by (apply Hnot, Hin).
        rewrite <- app_comm_cons, fmap_cons.
        rewrite (proj2 (str_eqb_neq k0 k) E). reflexivity.
Qed.

Lemma groupOf_snoc (k : jsstring) (l : list ListingRecord) (c : ListingRecord) :
  groupOf toLowerCase k (l ++ [c])
  = if str_eqb k (cardName toLowerCase c) then groupOf toLowerCase k l ++ [c]
    else groupOf toLowerCase k l.
Proof.
  unfold groupOf. rewrite List.filter_app. simpl. unfold sameName.
  rewrite (str_eqb_sym k). destruct (str_eqb _ k); [reflexivity | apply app_nil_r].
Qed.

Lemma groupOf_elem (k : jsstring) (l : list ListingRecord) (c : ListingRecord) :
  c ∈ groupOf toLowerCase k l <-> c ∈ l /\ cardName toLowerCase c = k.
Proof.
  unfold groupOf. rewrite !list_elem_of_In, filter_In. unfold sameName.
  rewrite str_eqb_eq. reflexivity.
Qed.

Lemma groupCards_snoc (l : list ListingRecord) (c : ListingRecord) :
  groupCards toLowerCase (l ++ [c])
  = addToGroup (cardName toLowerCase c) c (groupCards toLowerCase l).
Proof. unfold groupCards. rewrite fold_left_app. reflexivity. Qed.

Lemma firstKeys_snoc (l : list ListingRecord) (c : ListingRecord) :
  firstKeys toLowerCase (l ++ [c])
  = if bool_decide (cardName toLowerCase c ∈ firstKeys toLowerCase l) then firstKeys toLowerCase l
    else firstKeys toLowerCase l ++ [cardName toLowerCase c].
Proof. unfold firstKeys. rewrite fold_left_app. reflexivity. Qed.

Lemma groups_spec (cards : list ListingRecord) :
  groupCards toLowerCase cards
  = (fun k => (k, groupOf toLowerCase k cards)) <$> firstKeys toLowerCase cards
  /\ NoDup (firstKeys toLowerCase cards)
  /\ forall k, k ∈ firstKeys toLowerCase cards
               <-> exists c, c ∈ cards /\ cardName toLowerCase c = k.
Proof.
  induction cards as [| c l (IHg & IHnd & IHk)] using rev_ind.
  - split; [reflexivity | split; [apply NoDup_nil_2 |]].
    intros k. split; [intros H; inversion H | intros (c & H & _); inversion H].
  - rewrite groupCards_snoc, firstKeys_snoc, IHg. clear IHg.
    set (kc := cardName toLowerCase c) in *.
    split; [| split].
    + rewrite addToGroup_map.
      * apply list_fmap_ext. intros i k _. rewrite groupOf_snoc. reflexivity.
      * exact IHnd.
      * intros Hk. destruct (groupOf toLowerCase kc l) as [| x xs] eqn:E; [reflexivity |].
        exfalso. apply Hk, IHk. exists x.
        apply groupOf_elem. rewrite E. left.
    + case_bool_decide as Hin; [exact IHnd |].
      apply NoDup_app. split; [exact IHnd |]. split; [| apply NoDup_singleton].
      intros k Hk Hk'. apply list_elem_of_singleton in Hk'. subst k. contradiction.
    + intros k. rewrite <- (firstKeys_step_elem (firstKeys toLowerCase l) kc k).
      rewrite IHk. split.
      * intros [(x & Hx & Hxk) | ->].
        -- exists x. split; [apply elem_of_app; left; exact Hx | exact Hxk].
        -- exists c. split; [apply elem_of_app; right; left | reflexivity].
      * intros (x & Hx & Hxk). apply elem_of_app in Hx as [Hx | Hx].
        -- left. exists x. auto.
        -- apply list_elem_of_singleton in Hx. subst x. right. symmetry. exact Hxk.
Qed.

Lemma consolidateCards_groups (cards : list ListingRecord) :
  consolidateCards toLowerCase cards
  = omap (fun k => bestCard (groupOf toLowerCase k cards)) (firstKeys toLowerCase cards).
Proof.
  unfold consolidateCards. rewrite (proj1 (groups_spec cards)).
  generalize (firstKeys toLowerCase cards). intros ks.
  induction ks as [| k ks IH]; [reflexivity |].
  rewrite fmap_cons. change (omap ?f (?x :: ?l)) with
    (match f x with Some y => y :: omap f l | None => omap f l end).
  rewrite IH. reflexivity.
Qed.
End Groups.

(** *** The two comparators *)

Lemma gt0_cases (x : jsnum) :
  gt0 x = true -> (exists z, x = Fin z /\ 0 < z) \/ x = PInf.
Proof.
  destruct x as [z | | |]; simpl; try discriminate; [| right; reflexivity].
  unfold gt0, jgt, zero. simpl. intros H. left. exists z. split; [reflexivity |].
  apply Z.ltb_lt, H.
Qed.

Lemma jsub_Fin (x y : Z) : jsub (Fin x) (Fin y) = rnd (x - y).
Proof. reflexivity. Qed.

Lemma before_available_Fin (a b : ListingRecord) (x y : Z) :
  price a = Fin x -> price b = Fin y ->
  before compareAvailable a b = (x <? y) || ((x =? y) && (negb (foil a) || foil b)).
Proof.
  intros Ha Hb. unfold before, compareAvailable. rewrite Ha, Hb, jsub_Fin, jeq_rnd_zero.
  destruct (Z.eqb_spec (x - y) 0) as [E | E]; simpl.
  - replace (x <? y) with false by (symmetry; apply Z.ltb_ge; lia).
    replace (x =? y) with true by (symmetry; apply Z.eqb_eq; lia).
    destruct (foil a), (foil b); reflexivity.
  - rewrite gt0_rnd.
    destruct (Z.ltb_spec 0 (x - y)), (Z.ltb_spec x y), (Z.eqb_spec x y); simpl; lia.
Qed.

Lemma before_available_Inf_r (a b : ListingRecord) :
  gt0 (price a) = true -> price b = PInf -> before compareAvailable a b = true.
Proof.
  intros Ha Hb. unfold before, compareAvailable. rewrite Hb.
  destruct (gt0_cases _ Ha) as [(x & -> & _) | ->]; reflexivity.
Qed.

Lemma before_available_Inf_l (a b : ListingRecord) (y : Z) :
  price a = PInf -> price b = Fin y -> before compareAvailable a b = false.
Proof. intros Ha Hb. unfold before, compareAvailable. rewrite Ha, Hb. reflexivity. Qed.

Lemma before_price (a b : ListingRecord) :
  gt0 (price a) = true -> gt0 (price b) = true ->
  before comparePrice a b = jle (price a) (price b).
Proof.
  intros Ha Hb. unfold before, comparePrice.
  destruct (gt0_cases _ Ha) as [(x & -> & _) | ->],
           (gt0_cases _ Hb) as [(y & -> & _) | ->]; try reflexivity.
  rewrite jsub_Fin, gt0_rnd. simpl.
  destruct (Z.ltb_spec 0 (x - y)), (Z.ltb_spec y x); simpl; lia.
Qed.

Ltac price_cases :=
  repeat match goal with
         | H : priced _ |- _ =>
           let x := fresh "x" in
           let E := fresh "E" in
           destruct (gt0_cases _ H) as [(x & E & _) | E]; clear H
         end.

Lemma available_total (a b : ListingRecord) :
  priced a -> priced b ->
  before compareAvailable a b = false -> before compareAvailable b a = true.
Proof.
  intros Ha Hb.
  assert (Ha' : gt0 (price a) = true) by exact Ha.
  assert (Hb' : gt0 (price b) = true) by exact Hb.
  price_cases.
  - rewrite (before_available_Fin a b _ _ E0 E), (before_available_Fin b a _ _ E E0).
    destruct (foil a), (foil b), (Z.ltb_spec x0 x), (Z.ltb_spec x x0),
             (Z.eqb_spec x0 x), (Z.eqb_spec x x0); simpl; intros; lia || congruence.
  - rewrite (before_available_Inf_l a b _ E0 E). intros _.
    apply before_available_Inf_r; assumption.
  - rewrite (before_available_Inf_r a b Ha' E). discriminate.
  - rewrite (before_available_Inf_r a b Ha' E). discriminate.
Qed.

Lemma available_trans (a b c : ListingRecord) :
  priced a -> priced b -> priced c ->
  before compareAvailable a b = true -> before compareAvailable b c = true ->
  before compareAvailable a c = true.
Proof.
  intros Ha Hb Hc.
  assert (Ha' : gt0 (price a) = true) by exact Ha.
  assert (Hb' : gt0 (price b) = true) by exact Hb.
  assert (Hc' : gt0 (price c) = true) by exact Hc.
  price_cases;
    try (intros _ _; apply before_available_Inf_r; assumption);
    try (intros H1 H2; exfalso;
         first [ erewrite before_available_Inf_l in H1 by eassumption; discriminate
               | erewrite before_available_Inf_l in H2 by eassumption; discriminate ]).
  rewrite (before_available_Fin a b _ _ E1 E0), (before_available_Fin b c _ _ E0 E),
    (before_available_Fin a c _ _ E1 E).
  destruct (foil a), (foil b), (foil c), (Z.ltb_spec x1 x0), (Z.ltb_spec x0 x),
           (Z.ltb_spec x1 x), (Z.eqb_spec x1 x0), (Z.eqb_spec x0 x),
           (Z.eqb_spec x1 x); simpl; intros; lia || congruence.
Qed.

Lemma jle_total (x y : jsnum) :
  gt0 x = true -> gt0 y = true -> jle x y = false -> jle y x = true.
Proof.
  intros Hx Hy.
  destruct (gt0_cases _ Hx) as [(a & -> & _) | ->],
           (gt0_cases _ Hy) as [(b & -> & _) | ->]; simpl; try congruence.
  destruct (Z.ltb_spec b a), (Z.ltb_spec a b); simpl; lia || congruence.
Qed.

Lemma jle_trans (x y z : jsnum) :
  gt0 x = true -> gt0 y = true -> gt0 z = true ->
  jle x y = true -> jle y z = true -> jle x z = true.
Proof.
  intros Hx Hy Hz.
  destruct (gt0_cases _ Hx) as [(a & -> & _) | ->],
           (gt0_cases _ Hy) as [(b & -> & _) | ->],
           (gt0_cases _ Hz) as [(c & -> & _) | ->]; simpl; try congruence.
  destruct (Z.ltb_spec b a), (Z.ltb_spec c b), (Z.ltb_spec c a); simpl; lia || congruence.
Qed.

Lemma price_total (a b : ListingRecord) :
  priced a -> priced b ->
  before comparePrice a b = false -> before comparePrice b a = true.
Proof.
  intros Ha Hb. rewrite !before_price by assumption. apply jle_total; assumption.
Qed.

Lemma price_trans (a b c : ListingRecord) :
  priced a -> priced b -> priced c ->
  before comparePrice a b = true -> before comparePrice b c = true ->
  before comparePrice a c = true.
Proof.
  intros Ha Hb Hc. rewrite !before_price by assumption. apply jle_trans; assumption.
Qed.

(** *** The record chosen for one group *)

Lemma filter_priced (l : list ListingRecord) : Forall priced (List.filter hasPrice l).
Proof.
  apply Forall_forall. intros c Hc. apply list_elem_of_In, filter_In in Hc. apply Hc.
Qed.

Lemma filter_available_priced (l : list ListingRecord) :
  Forall priced (List.filter isAvailable l).
Proof.
  apply Forall_forall. intros c Hc. apply list_elem_of_In, filter_In in Hc as [_ Hc].
  unfold isAvailable in Hc. apply andb_true_iff in Hc. apply Hc.
Qed.

Lemma bestCard_available (variants : list ListingRecord) :
  List.filter isAvailable variants <> [] ->
  bestCard variants = pick compareAvailable (List.filter isAvailable variants).
Proof.
  intros H. unfold bestCard. destruct (List.filter isAvailable variants); [congruence |].
  apply head_sort.
Qed.

Lemma bestCard_priced (variants : list ListingRecord) :
  List.filter isAvailable variants = [] ->
  bestCard variants = pick comparePrice (List.filter hasPrice variants).
Proof.
  intros H. unfold bestCard. rewrite H.
  destruct (List.filter hasPrice variants); [reflexivity | apply head_sort].
Qed.

Lemma pick_Some {A} (cmp : A -> A -> jsnum) (l : list A) :
  l <> [] -> exists m, pick cmp l = Some m.
Proof.
  intros H. destruct (pick cmp l) as [m |] eqn:E; [exists m; reflexivity |].
  apply pick_None in E. contradiction.
Qed.

(** What [before compareAvailable] says about prices and foil. *)
Lemma before_available_true (a b : ListingRecord) :
  priced a -> priced b -> before compareAvailable a b = true ->
  jle (price a) (price b) = true
  /\ (price b = price a -> price a <> PInf -> foil a = true -> foil b = true).
Proof.
  intros Ha Hb.
  assert (Ha' : gt0 (price a) = true) by exact Ha.
  price_cases.
  - rewrite (before_available_Fin a b _ _ E0 E), E, E0. simpl.
    destruct (foil a), (foil b), (Z.ltb_spec x0 x), (Z.ltb_spec x x0), (Z.eqb_spec x0 x);
      simpl; intros; split; intros; congruence || lia.
  - rewrite (before_available_Inf_l a b _ E0 E). discriminate.
  - rewrite E, E0. intros _. split; [reflexivity | congruence].
  - rewrite E, E0. intros _. split; [reflexivity | congruence].
Qed.

Lemma before_available_false (a b : ListingRecord) :
  priced a -> priced b -> before compareAvailable a b = false ->
  jlt (price b) (price a) = true
  \/ (price a = price b /\ foil a = true /\ foil b = false).
Proof.
  intros Ha Hb.
  assert (Ha' : gt0 (price a) = true) by exact Ha.
  price_cases.
  - rewrite (before_available_Fin a b _ _ E0 E), E, E0. simpl.
    destruct (foil a), (foil b), (Z.ltb_spec x0 x), (Z.ltb_spec x x0), (Z.eqb_spec x0 x);
      simpl; intros; try congruence; try lia;
      first [ left; reflexivity | right; repeat split; congruence ].
  - rewrite E, E0. intros _. left. reflexivity.
  - rewrite (before_available_Inf_r a b Ha' E). discriminate.
  - rewrite (before_available_Inf_r a b Ha' E). discriminate.
Qed.

Lemma jle_false_jlt (x y : jsnum) :
  gt0 x = true -> gt0 y = true -> jle x y = false -> jlt y x = true.
Proof.
  intros Hx Hy.
  destruct (gt0_cases _ Hx) as [(a & -> & _) | ->],
           (gt0_cases _ Hy) as [(b & -> & _) | ->]; simpl; try congruence.
  destruct (b <? a); simpl; congruence.
Qed.

Lemma bestCard_available_spec (variants : list ListingRecord) :
  List.filter isAvailable variants <> [] ->
  exists best earlier later,
    bestCard variants = Some best
    /\ List.filter isAvailable variants = earlier ++ best :: later
    /\ (forall y : ListingRecord, y ∈ List.filter isAvailable variants ->
                  jle (price best) (price y) = true)
    /\ (forall y : ListingRecord, y ∈ List.filter isAvailable variants ->
                  price y = price best -> price best <> PInf ->
                  foil best = true -> foil y = true)
    /\ (forall y : ListingRecord, y ∈ earlier ->
                  jlt (price best) (price y) = true
                  \/ (price y = price best /\ foil y = true /\ foil best = false)).
Proof.
  intros Hne. set (av := List.filter isAvailable variants) in *.
  destruct (pick_Some compareAvailable av Hne) as [best Hbest].
  pose proof (filter_available_priced variants) as Hpr. fold av in Hpr.
  destruct (pick_least compareAvailable priced available_total available_trans
                       av best Hpr Hbest) as [Hin Hleast].
  destruct (pick_first compareAvailable av best Hbest) as (l1 & l2 & Hsplit & Hfirst).
  rewrite Forall_forall in Hpr.
  exists best, l1, l2. rewrite bestCard_available by exact Hne. fold av.
  split; [exact Hbest | split; [exact Hsplit | split; [| split]]].
  - intros y Hy. apply before_available_true; auto.
  - intros y Hy. apply before_available_true; auto.
  - intros y Hy.
    assert (Hy' : y ∈ av) by (rewrite Hsplit; apply elem_of_app; left; exact Hy).
    destruct (before_available_false y best (Hpr y Hy') (Hpr best Hin) (Hfirst y Hy))
      as [H | H]; [left; exact H | right; exact H].
Qed.

Lemma bestCard_priced_spec (variants : list ListingRecord) :
  List.filter isAvailable variants = [] ->
  List.filter hasPrice variants <> [] ->
  exists best earlier later,
    bestCard variants = Some best
    /\ List.filter hasPrice variants = earlier ++ best :: later
    /\ (forall y : ListingRecord, y ∈ List.filter hasPrice variants ->
                  jle (price best) (price y) = true)
    /\ (forall y : ListingRecord, y ∈ earlier -> jlt (price best) (price y) = true).
Proof.
  intros Hnone Hne. set (vp := List.filter hasPrice variants) in *.
  destruct (pick_Some comparePrice vp Hne) as [best Hbest].
  pose proof (filter_priced variants) as Hpr. fold vp in Hpr.
  destruct (pick_least comparePrice priced price_total price_trans
                       vp best Hpr Hbest) as [Hin Hleast].
  destruct (pick_first comparePrice vp best Hbest) as (l1 & l2 & Hsplit & Hfirst).
  rewrite Forall_forall in Hpr.
  exists best, l1, l2. rewrite bestCard_priced by exact Hnone. fold vp.
  split; [exact Hbest | split; [exact Hsplit | split]].
  - intros y Hy.
    rewrite <- before_price; [apply Hleast, Hy | apply Hpr, Hin | apply Hpr, Hy].
  - intros y Hy.
    assert (Hy' : y ∈ vp) by (rewrite Hsplit; apply elem_of_app; left; exact Hy).
    apply jle_false_jlt; [apply Hpr, Hy' | apply Hpr, Hin |].
    rewrite <- before_price; [apply Hfirst, Hy | apply Hpr, Hy' | apply Hpr, Hin].
Qed.

Lemma available_has_price (variants : list ListingRecord) :
  List.filter hasPrice variants = [] -> List.filter isAvailable variants = [].
Proof.
  intros Hnone.
  destruct (List.filter isAvailable variants) as [| c l] eqn:E; [reflexivity |].
  assert (Hc : In c (List.filter hasPrice variants)).
  { assert (Hin : In c (List.filter isAvailable variants)) by (rewrite E; left; reflexivity).
    apply filter_In in Hin as [Hin Hc]. apply filter_In. split; [exact Hin |].
    unfold isAvailable in Hc. apply andb_true_iff in Hc. apply Hc. }
  rewrite Hnone in Hc. destruct Hc.
Qed.

Lemma bestCard_none (variants : list ListingRecord) :
  List.filter hasPrice variants = [] -> bestCard variants = None.
Proof.
  intros Hnone. unfold bestCard.
  rewrite (available_has_price variants Hnone), Hnone. reflexivity.
Qed.

(** C2, as the code has it.  In a group the record is taken from the
    records with stock and price positive when there are any, otherwise from
    those with a positive price, and the group yields nothing when no record
    has one.  In the stock-positive subset the record chosen has the lowest
    price, no record of the same (finite) price is non-foil when it is foil,
    and every record before it in input order is dearer, or is a foil of the
    same price while it is not.  In the price-only subset the record chosen
    is the first, in input order, of those with the lowest price: foil plays
    no part there.  The result lists the groups in order of first
    appearance, and of the two Sol Ring records (500, stock 0, non-foil) and
    (500, stock 2, foil) it keeps the second. *)
Theorem best_card_of_group :
  (forall variants : list ListingRecord,
      List.filter isAvailable variants <> [] ->
      exists best earlier later,
        bestCard variants = Some best
        /\ List.filter isAvailable variants = earlier ++ best :: later
        /\ (forall y : ListingRecord, y ∈ List.filter isAvailable variants ->
                      jle (price best) (price y) = true)
        /\ (forall y : ListingRecord, y ∈ List.filter isAvailable variants ->
                      price y = price best -> price best <> PInf ->
                      foil best = true -> foil y = true)
        /\ (forall y : ListingRecord, y ∈ earlier ->
                      jlt (price best) (price y) = true
                      \/ (price y = price best /\ foil y = true /\ foil best = false)))
  /\ (forall variants : list ListingRecord,
         List.filter isAvailable variants = [] ->
         List.filter hasPrice variants <> [] ->
         exists best earlier later,
           bestCard variants = Some best
           /\ List.filter hasPrice variants = earlier ++ best :: later
           /\ (forall y : ListingRecord, y ∈ List.filter hasPrice variants ->
                         jle (price best) (price y) = true)
           /\ (forall y : ListingRecord, y ∈ earlier -> jlt (price best) (price y) = true))
  /\ (forall variants : list ListingRecord,
         List.filter hasPrice variants = [] -> bestCard variants = None)
  /\ (forall (toLowerCase : jsstring -> jsstring) (cards : list ListingRecord),
         consolidateCards toLowerCase cards
         = omap (fun k => bestCard (groupOf toLowerCase k cards))
                (firstKeys toLowerCase cards))
  /\ (forall toLowerCase : jsstring -> jsstring,
         consolidateCards toLowerCase
           [listing (u "Sol Ring") 500 0 false; listing (u "Sol Ring") 500 2 true]
         = [listing (u "Sol Ring") 500 2 true]).
Proof.
  split; [exact bestCard_available_spec | split; [exact bestCard_priced_spec |]].
  split; [exact bestCard_none | split; [exact consolidateCards_groups |]].
  intros toLowerCase. unfold consolidateCards, groupCards. simpl.
  rewrite (proj2 (str_eqb_eq _ _) eq_refl). reflexivity.
Qed.

(** C2 at three listings of one name: the in-stock non-foil at 30 wins over
    the in-stock foil at 30 listed before it and the out-of-stock one at
    20. *)
Lemma best_card_of_group_witness :
  exists best earlier later,
    bestCard [listing (u "Opt") 30 1 true; listing (u "Opt") 30 4 false;
              listing (u "Opt") 20 0 false] = Some best
    /\ List.filter isAvailable
         [listing (u "Opt") 30 1 true; listing (u "Opt") 30 4 false;
          listing (u "Opt") 20 0 false] = earlier ++ best :: later
    /\ best = listing (u "Opt") 30 4 false.
Proof.
  destruct (proj1 best_card_of_group
                  [listing (u "Opt") 30 1 true; listing (u "Opt") 30 4 false;
                   listing (u "Opt") 20 0 false])
    as (best & earlier & later & Hbest & Hsplit & _).
  - discriminate.
  - exists best, earlier, later. split; [exact Hbest | split; [exact Hsplit |]].
    vm_compute in Hbest. injection Hbest as <-. reflexivity.
Defined.

(** C2 as stated fails in the price-only subset: of two out-of-stock records
    of the same price, a foil first and a non-foil second, the foil is
    kept. *)
Lemma price_only_tie_keeps_foil :
  ~ (forall (variants : list ListingRecord) (best y : ListingRecord),
        bestCard variants = Some best ->
        y ∈ (match List.filter isAvailable variants with
             | [] => List.filter hasPrice variants
             | available => available
             end) ->
        price y = price best -> foil best = true -> foil y = true).
Proof.
  intros H.
  specialize (H [listing (u "Sol Ring") 500 0 true; listing (u "Sol Ring") 500 0 false]
                (listing (u "Sol Ring") 500 0 true)
                (listing (u "Sol Ring") 500 0 false)).
  discriminate H; [reflexivity | right; left | reflexivity | reflexivity].
Qed.

(** *** One record per name *)

Lemma pick_in {A} (cmp : A -> A -> jsnum) (l : list A) (m : A) :
  pick cmp l = Some m -> m ∈ l.
Proof.
  intros H. destruct (pick_first cmp l m H) as (l1 & l2 & -> & _).
  apply elem_of_app. right. left.
Qed.

Lemma bestCard_in (variants : list ListingRecord) (r : ListingRecord) :
  bestCard variants = Some r -> r ∈ variants /\ gt0 (price r) = true.
Proof.
  intros H.
  destruct (List.filter isAvailable variants) as [| c l] eqn:Hav.
  - rewrite bestCard_priced in H by exact Hav. apply pick_in in H.
    apply list_elem_of_In, filter_In in H as [Hin Hp].
    split; [apply list_elem_of_In, Hin | exact Hp].
  - rewrite bestCard_available in H by (rewrite Hav; discriminate).
    apply pick_in in H. apply list_elem_of_In, filter_In in H as [Hin Hp].
    split; [apply list_elem_of_In, Hin |].
    unfold isAvailable in Hp. apply andb_true_iff in Hp. apply Hp.
Qed.

Lemma other_groups_filtered (toLowerCase : jsstring -> jsstring)
      (cards : list ListingRecord) (k : jsstring) (ks : list jsstring) :
  k ∉ ks ->
  List.filter (sameName toLowerCase k)
              (omap (fun k' => bestCard (groupOf toLowerCase k' cards)) ks) = [].
Proof.
  induction ks as [| k' ks IH]; intros Hk; [reflexivity |].
  change (omap ?f (?x :: ?l)) with
    (match f x with Some y => y :: omap f l | None => omap f l end).
  assert (Hks : k ∉ ks) by (intros H; apply Hk; right; exact H).
  destruct (bestCard (groupOf toLowerCase k' cards)) as [r |] eqn:E; [| apply IH, Hks].
  simpl. apply bestCard_in in E as [E _]. apply groupOf_elem in E as [_ E].
  unfold sameName at 1. rewrite (proj2 (str_eqb_neq _ _)); [apply IH, Hks |].
  rewrite E. intros ->. apply Hk. left.
Qed.

(** C1, as the code has it.  For a name with at least one record of
    positive price, the result holds exactly one record of that name; it is
    one of the input records of that name and has a positive price.  When
    the name has records with stock and price positive, the record kept is
    one of them and its price is at most the price of each of them;
    otherwise its price is at most that of every record of the name with a
    positive price. *)
Theorem one_card_per_priced_name
        (toLowerCase : jsstring -> jsstring) (cards : list ListingRecord) (k : jsstring) :
  (exists c, pricedInGroup toLowerCase k cards c) ->
  exists r : ListingRecord,
    List.filter (sameName toLowerCase k) (consolidateCards toLowerCase cards) = [r]
    /\ pricedInGroup toLowerCase k cards r
    /\ (forall y, availableInGroup toLowerCase k cards y ->
                  isAvailable r = true /\ jle (price r) (price y) = true)
    /\ ((forall y, ~ availableInGroup toLowerCase k cards y) ->
        forall y, pricedInGroup toLowerCase k cards y -> jle (price r) (price y) = true).
Proof.
  intros (c & Hc & Hck & Hcp).
  destruct (groups_spec toLowerCase cards) as (_ & Hnd & Hkeys).
  assert (Hk : k ∈ firstKeys toLowerCase cards) by (apply Hkeys; exists c; auto).
  apply list_elem_of_split in Hk as (ks1 & ks2 & Hks).
  rewrite Hks in Hnd. apply NoDup_app in Hnd as (_ & Hk1 & Hnd2).
  apply NoDup_cons in Hnd2 as [Hk2 _].
  assert (Hk1' : k ∉ ks1) by (intros H; apply (Hk1 k H); left).
  set (g := groupOf toLowerCase k cards).
  assert (Hgp : List.filter hasPrice g <> []).
  { intros E. assert (Hin : In c (List.filter hasPrice g)); [| rewrite E in Hin; destruct Hin].
    apply filter_In. split; [| exact Hcp]. apply list_elem_of_In, groupOf_elem. auto. }
  assert (Hbest : exists r, bestCard g = Some r
                            /\ (forall y : ListingRecord, y ∈ List.filter isAvailable g ->
                                  isAvailable r = true /\ jle (price r) (price y) = true)
                            /\ (List.filter isAvailable g = [] ->
                                forall y : ListingRecord, y ∈ List.filter hasPrice g ->
                                  jle (price r) (price y) = true)).
  { destruct (List.filter isAvailable g) as [| a l] eqn:Hav.
    - destruct (bestCard_priced_spec g Hav Hgp) as (r & _ & _ & Hr & _ & Hle & _).
      exists r. split; [exact Hr | split; [intros y Hy; inversion Hy | intros _; exact Hle]].
    - destruct (bestCard_available_spec g) as (r & l1 & l2 & Hr & Hsplit & Hle & _).
      { rewrite Hav. discriminate. }
      rewrite Hav in Hsplit, Hle.
      exists r. split; [exact Hr | split; [| discriminate]].
      intros y Hy. split; [| apply Hle, Hy].
      assert (Hin : In r (List.filter isAvailable g)).
      { rewrite Hav, Hsplit. apply in_or_app. right. left. reflexivity. }
      apply filter_In in Hin. apply Hin. }
  destruct Hbest as (r & Hr & Hav & Hpr).
  exists r. split; [| split; [| split]].
  - rewrite consolidateCards_groups, Hks, omap_app.
    change (omap ?f (?x :: ?l)) with
      (match f x with Some y => y :: omap f l | None => omap f l end).
    cbv beta. fold g. rewrite Hr, List.filter_app, other_groups_filtered by exact Hk1'.
    simpl. rewrite other_groups_filtered by exact Hk2.
    apply bestCard_in in Hr as [Hr _]. apply groupOf_elem in Hr as [_ Hr].
    unfold sameName. rewrite (proj2 (str_eqb_eq _ _) Hr). reflexivity.
  - destruct (bestCard_in g r Hr) as [Hin Hp]. apply groupOf_elem in Hin as [Hin Hrk].
    repeat split; assumption.
  - intros y (Hy & Hyk & Hya). apply Hav.
    apply list_elem_of_In, filter_In. split; [| exact Hya].
    apply list_elem_of_In, groupOf_elem. auto.
  - intros Hnone y (Hy & Hyk & Hyp). apply Hpr.
    + destruct (List.filter isAvailable g) as [| a l] eqn:E; [reflexivity |].
      exfalso. apply (Hnone a).
      assert (Hin : In a (List.filter isAvailable g)) by (rewrite E; left; reflexivity).
      apply filter_In in Hin as [Hin Ha]. apply list_elem_of_In, groupOf_elem in Hin as [? ?].
      repeat split; assumption.
    + apply list_elem_of_In, filter_In. split; [| exact Hyp].
      apply list_elem_of_In, groupOf_elem. auto.
Qed.

(** C1 at two listings of one name, spelt differently. *)
Lemma one_card_per_priced_name_witness :
  exists r : ListingRecord,
    List.filter (sameName ascii_toLowerCase (u "brainstorm"))
                (consolidateCards ascii_toLowerCase
                                  [brainstormOutOfStock; brainstormInStock]) = [r]
    /\ r = brainstormInStock.
Proof.
  destruct (one_card_per_priced_name ascii_toLowerCase
              [brainstormOutOfStock; brainstormInStock] (u "brainstorm"))
    as (r & Hr & _).
  - exists brainstormOutOfStock. split; [left | split; reflexivity].
  - exists r. split; [exact Hr |]. vm_compute in Hr. injection Hr as <-. reflexivity.
Defined.

(** C1 as stated fails: the out-of-stock Brainstorm at 100 has a positive
    price below that of the record kept, the in-stock one at 500. *)
Lemma kept_card_not_cheapest_priced :
  ~ (forall k : jsstring,
        (exists c, pricedInGroup ascii_toLowerCase k
                                 [brainstormOutOfStock; brainstormInStock] c) ->
        exists r : ListingRecord,
          List.filter (sameName ascii_toLowerCase k)
                      (consolidateCards ascii_toLowerCase
                                        [brainstormOutOfStock; brainstormInStock]) = [r]
          /\ forall y, pricedInGroup ascii_toLowerCase k
                                     [brainstormOutOfStock; brainstormInStock] y ->
                       jle (price r) (price y) = true).
Proof.
  intros H. destruct (H (u "brainstorm")) as (r & Hr & Hle).
  - exists brainstormOutOfStock. split; [left | split; reflexivity].
  - vm_compute in Hr. injection Hr as <-.
    specialize (Hle brainstormOutOfStock).
    discriminate Hle. split; [left | split; reflexivity].
Qed.

(** ** Deck matcher *)

Lemma nonempty_spec {A} (l : list A) : Store.nonempty l = true <-> l <> [].
Proof. destruct l; simpl; split; congruence. Qed.

Lemma hasValidPrice_offer (oc : ListingRecord) :
  Store.hasValidPrice oc = true <->
  exists c, c ∈ conditions oc /\ gt0 (cond_price c) = true.
Proof.
  unfold Store.hasValidPrice. rewrite existsb_exists.
  split; intros (c & Hc & Hp); exists c; split; auto; apply list_elem_of_In; exact Hc.
Qed.

Lemma elem_of_candidateCards (stocked : bool) (avail : list ListingRecord)
      (q : jsstring) (oc : ListingRecord) (c : CardCondition) :
  (oc, c) ∈ Store.candidateCards stocked avail q <->
  oc ∈ avail /\ c ∈ conditions oc /\ condition c = q /\ gt0 (cond_price c) = true
  /\ (stocked = true -> gt0 (cond_stock c) = true).
Proof.
  unfold Store.candidateCards. rewrite list_elem_of_In, in_flat_map. split.
  - intros (oc' & Hoc & Hin). apply in_map_iff in Hin as (c' & [= <- <-] & Hc).
    apply filter_In in Hc as [Hc Hf].
    apply andb_true_iff in Hf as [Hf Hs]. apply andb_true_iff in Hf as [Hq Hp].
    apply str_eqb_eq in Hq. rewrite !list_elem_of_In.
    repeat split; auto. intros ->. exact Hs.
  - intros (Hoc & Hc & Hq & Hp & Hs). exists oc. rewrite <- list_elem_of_In. split; [exact Hoc |].
    apply in_map_iff. exists c. split; [reflexivity |]. apply filter_In.
    rewrite <- list_elem_of_In. split; [exact Hc |].
    rewrite Hp, (proj2 (str_eqb_eq _ _) Hq). simpl.
    destruct stocked; [apply Hs |]; reflexivity.
Qed.

Lemma candidateCards_priced (stocked : bool) (avail : list ListingRecord) (q : jsstring) :
  Forall offerPriced (Store.candidateCards stocked avail q).
Proof.
  apply Forall_forall. intros [oc c] H. apply elem_of_candidateCards in H.
  unfold offerPriced. simpl. tauto.
Qed.

Lemma jlt_false_jle (x y : jsnum) :
  gt0 x = true -> gt0 y = true -> jlt x y = false -> jle y x = true.
Proof.
  intros Hx Hy.
  destruct (gt0_cases _ Hx) as [(a & -> & _) | ->],
           (gt0_cases _ Hy) as [(b & -> & _) | ->]; simpl; try congruence.
  intros ->. reflexivity.
Qed.

Lemma jlt_jle (x y : jsnum) :
  gt0 x = true -> gt0 y = true -> jlt x y = true -> jle x y = true.
Proof.
  intros Hx Hy.
  destruct (gt0_cases _ Hx) as [(a & -> & _) | ->],
           (gt0_cases _ Hy) as [(b & -> & _) | ->]; simpl; try congruence.
  destruct (Z.ltb_spec a b), (Z.ltb_spec b a); simpl; lia || congruence.
Qed.

Lemma jle_refl (x : jsnum) : gt0 x = true -> jle x x = true.
Proof.
  intros Hx. destruct (gt0_cases _ Hx) as [(a & -> & _) | ->]; simpl; [| reflexivity].
  rewrite Z.ltb_irrefl. reflexivity.
Qed.

(** The reduction keeps an offer of the tier whose price none of the
    others undercuts. *)
Lemma cheapestInTier_spec (first : ListingRecord * CardCondition)
      (others : list (ListingRecord * CardCondition)) :
  Forall offerPriced (first :: others) ->
  Store.cheapestInTier first others ∈ first :: others
  /\ offerPriced (Store.cheapestInTier first others)
  /\ forall x, x ∈ first :: others ->
               jle (cond_price (Store.cheapestInTier first others).2) (cond_price x.2) = true.
Proof.
  unfold Store.cheapestInTier. revert first.
  induction others as [| y others IH]; intros first Hpr.
  - apply Forall_inv in Hpr. simpl. split; [left | split; [exact Hpr |]].
    intros x Hx. apply list_elem_of_singleton in Hx. subst x. apply jle_refl, Hpr.
  - pose proof (Forall_inv Hpr) as Hf. apply Forall_inv_tail in Hpr.
    pose proof (Forall_inv Hpr) as Hy. apply Forall_inv_tail in Hpr.
    simpl. destruct (jlt (cond_price y.2) (cond_price first.2)) eqn:Hlt.
    + destruct (IH y) as (Hin & Hp & Hle); [constructor; assumption |].
      split; [right; exact Hin | split; [exact Hp |]].
      intros x Hx. apply elem_of_cons in Hx as [-> | Hx]; [| apply Hle, Hx].
      apply (jle_trans _ (cond_price y.2)); auto.
      * apply Hle. left.
      * apply jlt_jle; assumption.
    + destruct (IH first) as (Hin & Hp & Hle); [constructor; assumption |].
      split; [| split; [exact Hp |]].
      * apply elem_of_cons in Hin as [-> | Hin]; [left | right; right; exact Hin].
      * intros x Hx. apply elem_of_cons in Hx as [-> | Hx]; [apply Hle; left |].
        apply elem_of_cons in Hx as [-> | Hx]; [| apply Hle; right; exact Hx].
        apply (jle_trans _ (cond_price first.2)); auto.
        -- apply Hle. left.
        -- apply jlt_false_jle; assumption.
Qed.

Lemma tierLoop_empty (stocked : bool) (avail : list ListingRecord)
      (tiers : list jsstring) (b : Store.Best) :
  Forall (emptyTier stocked avail) tiers -> Store.tierLoop stocked avail tiers b = b.
Proof.
  induction 1 as [| q tiers Hq _ IH]; simpl; [reflexivity |].
  unfold emptyTier in Hq. rewrite Hq. exact IH.
Qed.

Lemma tierLoop_first (stocked : bool) (avail : list ListingRecord)
      (better : list jsstring) (q : jsstring) (worse : list jsstring) (b : Store.Best) :
  Forall (emptyTier stocked avail) better ->
  ~ emptyTier stocked avail q ->
  selects (Store.tierLoop stocked avail (better ++ q :: worse) b) stocked avail q.
Proof.
  intros Hbetter Hq. induction Hbetter as [| q' better Hq' _ IH]; simpl.
  - unfold emptyTier in Hq.
    destruct (Store.candidateCards stocked avail q) as [| first others] eqn:E; [congruence |].
    pose proof (candidateCards_priced stocked avail q) as Hpr. rewrite E in Hpr.
    destruct (cheapestInTier_spec first others Hpr) as (Hin & _ & Hle).
    destruct (Store.cheapestInTier first others) as [oc c] eqn:Hch.
    exists oc, c. simpl.
    split; [reflexivity | split; [reflexivity | split; [reflexivity | split]]].
    + rewrite E. exact Hin.
    + intros oc' c' H'. rewrite E in H'. apply (Hle (oc', c')), H'.
  - unfold emptyTier in Hq'. rewrite Hq'. exact IH.
Qed.

Lemma gt0_not_zero (x : jsnum) : gt0 x = true -> jeq x zero = false.
Proof.
  intros Hx. destruct (gt0_cases _ Hx) as [(a & -> & Ha) | ->].
  - unfold jeq, zero. apply bool_decide_eq_false. intros [= ->]. lia.
  - reflexivity.
Qed.

Lemma selects_positive (b : Store.Best) (stocked : bool) (avail : list ListingRecord)
      (q : jsstring) :
  selects b stocked avail q -> gt0 (Store.bestPriceCents b) = true.
Proof.
  intros (oc & c & _ & _ & -> & Hin & _). apply elem_of_candidateCards in Hin. tauto.
Qed.

(** C4, as the code has it.  For a deck card the matcher takes the stock
    cards whose lower-cased name equals the lower-cased deck name; if there
    are none, those whose name contains it; if there are none either, those
    whose name it contains.  It keeps the cards with an offer of positive
    price.  It then selects, in the first tier of NM/M, EX/GD, SP/P, HP, PR
    that has an offer with positive price and stock, an offer of lowest
    price.  When no tier has such an offer it selects, in the first tier
    that has an offer with positive price, an offer of lowest price; when no
    tier has one the price is 0 and nothing is selected. *)
Theorem deck_card_matching
        (toLowerCase : jsstring -> jsstring) (outpostData : list ListingRecord)
        (card : Store.MoxfieldCard) :
  let exact := Store.exactMatches toLowerCase outpostData card in
  let containing := Store.containingMatches toLowerCase outpostData card in
  let contained := Store.containedMatches toLowerCase outpostData card in
  let names := Store.nameMatches toLowerCase outpostData card in
  ((forall oc : ListingRecord,
       oc ∈ exact <-> oc ∈ outpostData
                      /\ toLowerCase (name oc) = toLowerCase (Store.mox_name card))
   /\ (forall oc : ListingRecord,
          oc ∈ containing <->
          oc ∈ outpostData
          /\ exists a b, toLowerCase (name oc) = a ++ toLowerCase (Store.mox_name card) ++ b)
   /\ (forall oc : ListingRecord,
          oc ∈ contained <->
          oc ∈ outpostData
          /\ exists a b, toLowerCase (Store.mox_name card) = a ++ toLowerCase (name oc) ++ b))
  /\ ((exact <> [] -> names = exact)
      /\ (exact = [] -> containing <> [] -> names = containing)
      /\ (exact = [] -> containing = [] -> names = contained))
  /\ (Store.matchedCards toLowerCase outpostData false card
      = List.filter Store.hasValidPrice names
      /\ forall oc : ListingRecord,
           Store.hasValidPrice oc = true <->
           exists c, c ∈ conditions oc /\ gt0 (cond_price c) = true)
  /\ forall matchCardStyle : bool,
      let avail := Store.matchedCards toLowerCase outpostData matchCardStyle card in
      let result := Store.analyzeCard toLowerCase outpostData matchCardStyle card in
      Store.availableCards result = avail
      /\ Store.cheapestPriceCents result = Store.bestPriceCents (Store.findBest avail)
      /\ (forall better q worse,
             Store.qualityOrder = better ++ q :: worse ->
             Forall (emptyTier true avail) better ->
             ~ emptyTier true avail q ->
             selects (Store.findBest avail) true avail q)
      /\ (Forall (emptyTier true avail) Store.qualityOrder ->
          forall better q worse,
            Store.qualityOrder = better ++ q :: worse ->
            Forall (emptyTier false avail) better ->
            ~ emptyTier false avail q ->
            selects (Store.findBest avail) false avail q)
      /\ (Forall (emptyTier false avail) Store.qualityOrder ->
          Store.findBest avail = noBest).
Proof.
  intros exact containing contained names.
  split; [| split; [| split]].
  - split; [| split]; intros oc.
    + unfold exact, Store.exactMatches. rewrite !list_elem_of_In, filter_In, str_eqb_eq.
      reflexivity.
    + unfold containing, Store.containingMatches.
      rewrite !list_elem_of_In, filter_In, includes_spec. reflexivity.
    + unfold contained, Store.containedMatches.
      rewrite !list_elem_of_In, filter_In, includes_spec. reflexivity.
  - unfold names, Store.nameMatches. fold exact containing contained.
    split; [| split].
    + intros H. destruct exact; [congruence | reflexivity].
    + intros -> H. simpl. destruct containing; [congruence | reflexivity].
    + intros -> ->. reflexivity.
  - split; [reflexivity |]. apply hasValidPrice_offer.
  - intros matchCardStyle avail result.
    split; [reflexivity | split; [reflexivity | split; [| split]]].
    + intros better q worse Hq Hbetter Hne. unfold Store.findBest. rewrite Hq.
      pose proof (tierLoop_first true avail better q worse noBest Hbetter Hne) as Hsel.
      fold noBest. rewrite (gt0_not_zero _ (selects_positive _ _ _ _ Hsel)). exact Hsel.
    + intros Hnone better q worse Hq Hbetter Hne. unfold Store.findBest.
      rewrite (tierLoop_empty true avail Store.qualityOrder _ Hnone).
      change (jeq zero zero) with true. cbv iota. rewrite Hq.
      apply tierLoop_first; assumption.
    + intros Hnone. unfold Store.findBest.
      assert (Hstock : Forall (emptyTier true avail) Store.qualityOrder).
      { eapply Forall_impl; [exact Hnone |]. intros q Hq. unfold emptyTier in *.
        destruct (Store.candidateCards true avail q) as [| [oc c] l] eqn:E; [reflexivity |].
        assert (Hin : (oc, c) ∈ Store.candidateCards false avail q).
        { apply elem_of_candidateCards.
          assert (H : (oc, c) ∈ Store.candidateCards true avail q) by (rewrite E; left).
          apply elem_of_candidateCards in H. intuition discriminate. }
        rewrite Hq in Hin. inversion Hin. }
      rewrite (tierLoop_empty true avail Store.qualityOrder _ Hstock).
      change (jeq zero zero) with true. cbv iota.
      apply tierLoop_empty, Hnone.
Qed.

(** C4 at a card out of stock in every grade: the fallback stops at
    NM/M. *)
Lemma deck_card_matching_witness :
  selects (Store.findBest
             (Store.matchedCards ascii_toLowerCase [solRingOutOfStock] false solRingWanted))
          false
          (Store.matchedCards ascii_toLowerCase [solRingOutOfStock] false solRingWanted)
          (u "NM/M").
Proof.
  destruct (deck_card_matching ascii_toLowerCase [solRingOutOfStock] solRingWanted)
    as (_ & _ & _ & H).
  destruct (H false) as (_ & _ & _ & Hfallback & _).
  apply (Hfallback ltac:(repeat constructor) [] (u "NM/M")
                   [u "EX/GD"; u "SP/P"; u "HP"; u "PR"]).
  - reflexivity.
  - constructor.
  - discriminate.
Defined.

(** C4 as stated fails in the fallback: with NM/M at 1000 and HP at 200,
    both out of stock, the price reported is 1000, not the lowest positive
    price 200. *)
Lemma fallback_not_cheapest_overall :
  ~ (forall (outpostData : list ListingRecord) (card : Store.MoxfieldCard),
        let result := Store.analyzeCard ascii_toLowerCase outpostData false card in
        Forall (emptyTier true (Store.availableCards result)) Store.qualityOrder ->
        forall (oc : ListingRecord) (c : CardCondition),
          oc ∈ Store.availableCards result -> c ∈ conditions oc ->
          gt0 (cond_price c) = true ->
          jle (Store.cheapestPriceCents result) (cond_price c) = true).
Proof.
  intros H.
  specialize (H [solRingOutOfStock] solRingWanted ltac:(repeat constructor)
                solRingOutOfStock (offer (u "HP") 200 0)).
  discriminate H; [left | right; left | reflexivity].
Qed.

(** ** Orchestrator: what an aborted run leaves behind *)


Lemma catchClause_id (l : Locals) (fs : FileSystem) : catchClause l fs = fs.
Proof. reflexivity. Qed.

(** C3 does not hold of the code.  The [catch] clause tests
    [typeof allCards], but [allCards] is declared with [let] inside the
    [try] block and is not in scope there, so the clause never writes: a
    run leaves a partial output file only if one was there before.  In the
    run below the 25th collection triggers a checkpoint that cannot be
    written; the run aborts holding 25 cards and leaves no output file. *)
Theorem aborted_run_writes_no_partial_output :
  (forall (toLowerCase : jsstring -> jsstring) (w : World) (fs : FileSystem),
      isPartial (outputFile (scrapeAllCollections toLowerCase w fs).2) = true ->
      isPartial (outputFile fs) = true)
  /\ scrapeAllCollections ascii_toLowerCase checkpointUnwritable noFiles = (Aborted, noFiles)
  /\ length (accumulatedCards ascii_toLowerCase checkpointUnwritable noFiles) = 25%nat.
Proof.
  split; [| split; vm_compute; reflexivity].
  intros toLowerCase w fs.
  assert (Hloop : forall todo i l fs0,
             isPartial (outputFile (processCollections w todo i l fs0).2) = true ->
             isPartial (outputFile fs0) = true).
  { induction todo as [| c todo IH]; intros i l fs0; simpl; [auto |].
    destruct (negb (hasCards w c)); simpl; [apply IH |].
    destruct (_ =? 0)%nat; [| apply IH].
    unfold saveProgress. simpl.
    destruct (skippedIds _); simpl; [| auto].
    destruct (saveProgressThrows w i); simpl; [auto |].
    intros H. apply IH in H. exact H. }
  unfold scrapeAllCollections, tryBlock.
  destruct (parseCollectionsFromHTML (snapshot w)) as [| c0 cs]; [auto |].
  set (todo := List.filter _ _). set (l0 := initLocals _).
  specialize (Hloop todo 0%nat l0 fs).
  destruct (processCollections w todo 0 l0 fs) as [[[[] |] l] fs'] eqn:E; simpl in *.
  - destruct (skippedIds _); simpl; [| exact Hloop].
    destruct (writeOutputThrows w); simpl; [exact Hloop |].
    destruct (progressFile fs'); [destruct (unlinkThrows w) |]; simpl; discriminate.
  - exact Hloop.
Qed.

(** * Further properties *)

(** ** More of the model at work *)

Example parseStock_runs :
  parseStock {| quality_text := u "NM/M";
                stock_elements := [ {| stock_id := u "ostk1"; stock_text := u " 12 left" |} ];
                price_text := [] |} = Fin 12
  /\ parseStock {| quality_text := u "NM/M";
                   stock_elements := [ {| stock_id := u "ostk1"; stock_text := u "-2" |} ];
                   price_text := [] |} = Fin (-2)
  /\ parseStock {| quality_text := u "NM/M";
                   stock_elements := [ {| stock_id := u "ostk1"; stock_text := u "sold out" |} ];
                   price_text := [] |} = NaN
  /\ parseStock {| quality_text := u "NM/M"; stock_elements := []; price_text := [] |} = Fin 0.
Proof. repeat split; reflexivity. Qed.

Example absoluteUrl_runs :
  absoluteUrl (Some (u "images/bolt.jpg")) = u "https://www.outpost.be/website/images/bolt.jpg"
  /\ absoluteUrl (Some (u "http://cdn/bolt.jpg")) = u "http://cdn/bolt.jpg"
  /\ absoluteUrl None = [].
Proof. repeat split; reflexivity. Qed.

Example basic_scrapeCollection_runs :
  length (BasicScraper.scrapeCollection
            (Some [solRingContainer; namelessContainer; solRingContainer; solRingContainer])
            commanderMasters 2) = 2%nat
  /\ length (cards (Extractor.scrapeCollection
                      [solRingContainer; namelessContainer; solRingContainer; solRingContainer]
                      commanderMasters)) = 3%nat.
Proof. vm_compute. split; reflexivity. Qed.

Example retry_runs :
  Fetching.scrapeCollectionWithRetryOf 0 1000 everyAttemptFails commanderMasters = (None, [])
  /\ snd (Fetching.scrapeCollectionWithRetry everyAttemptFails commanderMasters) = [1000; 2000].
Proof. split; reflexivity. Qed.

Example snapshotEntry_runs :
  parseCollectionsFromHTML
    (Some [commanderMastersAnchor; commanderMastersAnchor;
           {| href := Some (u "index.php?view=catalog"); anchor_text := u "Catalog" |}])
  = [commanderMasters].
Proof. vm_compute. reflexivity. Qed.

(** ** Consolidation: shape of the result *)

Lemma omap_ext_in {A B} (f g : A -> option B) (l : list A) :
  (forall x, x ∈ l -> f x = g x) -> omap f l = omap g l.
Proof.
  induction l as [| x l IH]; intros H; [reflexivity |].
  change (omap ?f (?x :: ?l)) with
    (match f x with Some y => y :: omap f l | None => omap f l end).
  rewrite (H x) by left. rewrite IH by (intros y Hy; apply H; right; exact Hy).
  reflexivity.
Qed.

Lemma omap_cons_eq {A B} (f : A -> option B) (x : A) (l : list A) :
  omap f (x :: l) = match f x with Some y => y :: omap f l | None => omap f l end.
Proof. reflexivity. Qed.

Lemma bestCard_name (toLowerCase : jsstring -> jsstring) (cards : list ListingRecord)
      (k : jsstring) (r : ListingRecord) :
  bestCard (groupOf toLowerCase k cards) = Some r ->
  r ∈ cards /\ cardName toLowerCase r = k /\ gt0 (price r) = true.
Proof.
  intros H. apply bestCard_in in H as [Hin Hp].
  apply groupOf_elem in Hin as [Hin Hk]. auto.
Qed.

(** The names of the records kept are the keys that yield a record, in
    the order of the keys. *)
Lemma consolidated_names (toLowerCase : jsstring -> jsstring)
      (cards : list ListingRecord) (ks : list jsstring) :
  cardName toLowerCase <$> omap (fun k => bestCard (groupOf toLowerCase k cards)) ks
  = List.filter (fun k => bool_decide (is_Some (bestCard (groupOf toLowerCase k cards)))) ks.
Proof.
  induction ks as [| k ks IH]; [reflexivity |].
  rewrite omap_cons_eq. simpl.
  destruct (bestCard (groupOf toLowerCase k cards)) as [r |] eqn:E.
  - rewrite bool_decide_eq_true_2 by (eexists; reflexivity).
    rewrite fmap_cons, IH. f_equal. apply bestCard_name in E. apply E.
  - rewrite bool_decide_eq_false_2 by (intros [? ?]; discriminate). exact IH.
Qed.

Lemma firstKeys_length (toLowerCase : jsstring -> jsstring) (cards : list ListingRecord) :
  (length (firstKeys toLowerCase cards) <= length cards)%nat.
Proof.
  induction cards as [| c l IH] using rev_ind; [reflexivity |].
  rewrite firstKeys_snoc, length_app. simpl.
  case_bool_decide; [lia |]. rewrite length_app. simpl. lia.
Qed.

Lemma omap_length {A B} (f : A -> option B) (l : list A) :
  (length (omap f l) <= length l)%nat.
Proof.
  induction l as [| x l IH]; [reflexivity |].
  rewrite omap_cons_eq. destruct (f x); simpl; lia.
Qed.

Lemma filter_nil_all {A} (f : A -> bool) (l : list A) :
  (forall x, In x l -> f x = false) -> List.filter f l = [].
Proof.
  induction l as [| x l IH]; intros H; [reflexivity |]. simpl.
  rewrite (H x) by (left; reflexivity). apply IH. intros y Hy. apply H. right. exact Hy.
Qed.

Lemma consolidateCards_sound (toLowerCase : jsstring -> jsstring)
      (cards : list ListingRecord) :
  Forall (fun r : ListingRecord => r ∈ cards /\ gt0 (price r) = true)
         (consolidateCards toLowerCase cards)
  /\ NoDup (cardName toLowerCase <$> consolidateCards toLowerCase cards).
Proof.
  rewrite consolidateCards_groups. split.
  - apply Forall_forall. intros r Hr.
    apply list_elem_of_omap in Hr as (k & _ & Hk).
    apply bestCard_name in Hk. tauto.
  - rewrite consolidated_names. apply NoDup_ListNoDup, List.NoDup_filter, NoDup_ListNoDup.
    apply (groups_spec toLowerCase cards).
Qed.

(** X1. Every record [consolidateCards] returns is one of the input
    records and has a positive price; no two records returned have the same
    lower-cased, trimmed name; the result is never longer than the input. *)
Theorem consolidated_records_sound
        (toLowerCase : jsstring -> jsstring) (cards : list ListingRecord) :
  Forall (fun r : ListingRecord => r ∈ cards /\ gt0 (price r) = true)
         (consolidateCards toLowerCase cards)
  /\ NoDup (cardName toLowerCase <$> consolidateCards toLowerCase cards)
  /\ (length (consolidateCards toLowerCase cards) <= length cards)%nat.
Proof.
  destruct (consolidateCards_sound toLowerCase cards) as [Hs Hnd].
  split; [exact Hs | split; [exact Hnd |]].
  rewrite consolidateCards_groups.
  etransitivity; [apply omap_length | apply firstKeys_length].
Qed.

Lemma bestCard_single (c : ListingRecord) :
  gt0 (price c) = true -> bestCard [c] = Some c.
Proof.
  intros Hp. unfold bestCard, isAvailable, hasPrice. simpl. rewrite Hp.
  destruct (gt0 (stock c)); reflexivity.
Qed.

Lemma groupOf_unique (toLowerCase : jsstring -> jsstring)
      (l : list ListingRecord) (c : ListingRecord) :
  NoDup (cardName toLowerCase <$> l) -> c ∈ l ->
  groupOf toLowerCase (cardName toLowerCase c) l = [c].
Proof.
  induction l as [| x l IH]; intros Hnd Hin; [inversion Hin |].
  rewrite fmap_cons in Hnd. apply NoDup_cons in Hnd as [Hx Hnd].
  unfold groupOf in *. simpl. unfold sameName at 1.
  apply elem_of_cons in Hin as [-> | Hin].
  - rewrite (proj2 (str_eqb_eq _ _) eq_refl). f_equal.
    apply filter_nil_all. intros y Hy. unfold sameName.
    apply str_eqb_neq. intros E. apply Hx. rewrite <- E.
    apply list_elem_of_fmap. exists y. split; [reflexivity | apply list_elem_of_In, Hy].
  - rewrite (proj2 (str_eqb_neq _ _)); [apply IH; assumption |].
    intros E. apply Hx. rewrite E. apply list_elem_of_fmap. exists c. auto.
Qed.

Lemma firstKeys_distinct (toLowerCase : jsstring -> jsstring) (l : list ListingRecord) :
  NoDup (cardName toLowerCase <$> l) ->
  firstKeys toLowerCase l = cardName toLowerCase <$> l.
Proof.
  induction l as [| c l IH] using rev_ind; intros Hnd; [reflexivity |].
  rewrite fmap_app in Hnd. apply NoDup_app in Hnd as (Hl & Hc & _).
  rewrite firstKeys_snoc, IH by exact Hl.
  rewrite bool_decide_eq_false_2; [rewrite fmap_app; reflexivity |].
  intros Hin. apply (Hc _ Hin). left.
Qed.

Lemma consolidateCards_fixed (toLowerCase : jsstring -> jsstring)
      (l : list ListingRecord) :
  NoDup (cardName toLowerCase <$> l) ->
  Forall (fun r : ListingRecord => gt0 (price r) = true) l ->
  consolidateCards toLowerCase l = l.
Proof.
  intros Hnd Hp. rewrite consolidateCards_groups, firstKeys_distinct by exact Hnd.
  assert (Hsub : forall l' : list ListingRecord,
             (forall c, c ∈ l' -> c ∈ l) ->
             omap (fun k => bestCard (groupOf toLowerCase k l))
                  (cardName toLowerCase <$> l') = l').
  { induction l' as [| c l' IH]; intros Hin; [reflexivity |].
    rewrite fmap_cons, omap_cons_eq.
    rewrite groupOf_unique by (try exact Hnd; apply Hin; left).
    rewrite bestCard_single.
    - f_equal. apply IH. intros y Hy. apply Hin. right. exact Hy.
    - rewrite Forall_forall in Hp. apply Hp, Hin. left. }
  apply Hsub. auto.
Qed.

(** X2. Consolidating a consolidated list changes nothing:
    [consolidateCards] is idempotent. *)
Theorem consolidateCards_idempotent
        (toLowerCase : jsstring -> jsstring) (cards : list ListingRecord) :
  consolidateCards toLowerCase (consolidateCards toLowerCase cards)
  = consolidateCards toLowerCase cards.
Proof.
  destruct (consolidateCards_sound toLowerCase cards) as (Hs & Hnd).
  apply consolidateCards_fixed; [exact Hnd |].
  eapply Forall_impl; [exact Hs |]. intros r [_ H]. exact H.
Qed.

Lemma groupOf_app (toLowerCase : jsstring -> jsstring) (k : jsstring)
      (l1 l2 : list ListingRecord) :
  groupOf toLowerCase k (l1 ++ l2) = groupOf toLowerCase k l1 ++ groupOf toLowerCase k l2.
Proof. apply List.filter_app. Qed.

Lemma groupOf_absent (toLowerCase : jsstring -> jsstring) (k : jsstring)
      (l : list ListingRecord) :
  (forall c, c ∈ l -> cardName toLowerCase c <> k) -> groupOf toLowerCase k l = [].
Proof.
  intros H. apply filter_nil_all. intros c Hc. apply str_eqb_neq, H, list_elem_of_In, Hc.
Qed.

Lemma firstKeys_app (toLowerCase : jsstring -> jsstring) (l1 l2 : list ListingRecord) :
  (forall a b : ListingRecord,
      a ∈ l1 -> b ∈ l2 -> cardName toLowerCase a <> cardName toLowerCase b) ->
  firstKeys toLowerCase (l1 ++ l2) = firstKeys toLowerCase l1 ++ firstKeys toLowerCase l2.
Proof.
  induction l2 as [| c l2 IH] using rev_ind; intros Hd.
  - rewrite !app_nil_r. reflexivity.
  - rewrite app_assoc, !firstKeys_snoc. rewrite IH; cycle 1.
    { intros a b Ha Hb. apply Hd; [exact Ha |]. apply elem_of_app. left. exact Hb. }
    assert (Hc : cardName toLowerCase c ∉ firstKeys toLowerCase l1).
    { intros Hin. apply (groups_spec toLowerCase l1) in Hin as (a & Ha & E).
      apply (Hd a c Ha); [apply elem_of_app; right; left | exact E]. }
    case_bool_decide as H1; case_bool_decide as H2.
    + reflexivity.
    + exfalso. apply elem_of_app in H1 as [H1 | H1]; contradiction.
    + exfalso. apply H1, elem_of_app. right. exact H2.
    + symmetry. apply app_assoc.
Qed.

(** X3. When no name of [l1] occurs in [l2], consolidating the
    concatenation gives the consolidated [l1] followed by the consolidated
    [l2]: names are settled independently of one another. *)
Theorem consolidateCards_app
        (toLowerCase : jsstring -> jsstring) (l1 l2 : list ListingRecord)
        (Hdisjoint : forall a b : ListingRecord,
            a ∈ l1 -> b ∈ l2 -> cardName toLowerCase a <> cardName toLowerCase b) :
  consolidateCards toLowerCase (l1 ++ l2)
  = consolidateCards toLowerCase l1 ++ consolidateCards toLowerCase l2.
Proof.
  rewrite !consolidateCards_groups, firstKeys_app by exact Hdisjoint.
  rewrite omap_app. f_equal; apply omap_ext_in; intros k Hk; rewrite groupOf_app.
  - rewrite (groupOf_absent toLowerCase k l2), app_nil_r; [reflexivity |].
    apply (groups_spec toLowerCase l1) in Hk as (a & Ha & <-).
    intros c Hc E. exact (Hdisjoint a c Ha Hc (eq_sym E)).
  - rewrite (groupOf_absent toLowerCase k l1); [reflexivity |].
    apply (groups_spec toLowerCase l2) in Hk as (b & Hb & <-).
    intros c Hc E. exact (Hdisjoint c b Hc Hb E).
Qed.

Lemma consolidateCards_app_witness :
  consolidateCards ascii_toLowerCase
    ([brainstormOutOfStock; brainstormInStock] ++ [solRingOutOfStock])
  = consolidateCards ascii_toLowerCase [brainstormOutOfStock; brainstormInStock]
    ++ consolidateCards ascii_toLowerCase [solRingOutOfStock].
Proof.
  apply (consolidateCards_app ascii_toLowerCase).
  intros a b Ha Hb. apply list_elem_of_singleton in Hb as ->.
  apply elem_of_cons in Ha as [-> | Ha];
    [| apply list_elem_of_singleton in Ha as ->]; vm_compute; discriminate.
Defined.

(** ** Extractor: card-level price and stock *)

Lemma min2_gt0 (a x : jsnum) :
  gt0 a = true -> gt0 x = true -> min2 a x = if jlt x a then x else a.
Proof.
  intros Ha Hx.
  destruct (gt0_cases _ Ha) as [(p & -> & _) | ->],
           (gt0_cases _ Hx) as [(q & -> & _) | ->]; reflexivity.
Qed.

Lemma fold_min2 (xs : list jsnum) (a : jsnum) :
  gt0 a = true -> Forall (fun x => gt0 x = true) xs ->
  let m := fold_left min2 xs a in
  gt0 m = true /\ (m = a \/ m ∈ xs) /\ jle m a = true
  /\ Forall (fun x => jle m x = true) xs.
Proof.
  revert a. induction xs as [| x xs IH]; intros a Ha Hxs; simpl.
  - split; [exact Ha | split; [left; reflexivity | split; [apply jle_refl, Ha | constructor]]].
  - apply Forall_cons in Hxs as [Hx Hxs].
    assert (Hmin : gt0 (min2 a x) = true /\ (min2 a x = a \/ min2 a x = x)
                   /\ jle (min2 a x) a = true /\ jle (min2 a x) x = true).
    { rewrite min2_gt0 by assumption. destruct (jlt x a) eqn:E.
      - split; [exact Hx | split; [right; reflexivity |]].
        split; [apply jlt_jle; assumption | apply jle_refl, Hx].
      - split; [exact Ha | split; [left; reflexivity |]].
        split; [apply jle_refl, Ha | apply jlt_false_jle; assumption]. }
    destruct Hmin as (Hg & Hsel & Hla & Hlx).
    destruct (IH (min2 a x) Hg Hxs) as (Hm & Hin & Hle & Hall).
    split; [exact Hm | split; [| split]].
    + destruct Hin as [-> | Hin]; [| right; right; exact Hin].
      destruct Hsel as [-> | ->]; [left; reflexivity | right; left].
    + eapply jle_trans; [| | | exact Hle | exact Hla]; assumption.
    + constructor.
      * eapply jle_trans; [| | | exact Hle | exact Hlx]; assumption.
      * exact Hall.
Qed.

(** [Math.min] of a non-empty array of positive numbers is one of them,
    and none of them is below it. *)
Lemma Math_min_least (xs : list jsnum) :
  xs <> [] -> Forall (fun x => gt0 x = true) xs ->
  gt0 (Math_min xs) = true /\ Math_min xs ∈ xs
  /\ Forall (fun x => jle (Math_min xs) x = true) xs.
Proof.
  intros Hne Hxs. destruct (fold_min2 xs PInf eq_refl Hxs) as (Hm & Hin & _ & Hall).
  fold (Math_min xs) in *. split; [exact Hm | split; [| exact Hall]].
  destruct Hin as [E | Hin]; [| exact Hin].
  destruct xs as [| x xs]; [congruence |].
  apply Forall_cons in Hall as [Hx _]. apply Forall_cons in Hxs as [Hgx _].
  rewrite E in *.
  destruct (gt0_cases _ Hgx) as [(q & -> & _) | ->]; [discriminate | left].
Qed.

Lemma cheapest_of_filter (f : CardCondition -> bool) (cs : list CardCondition) :
  (forall c, f c = true -> gt0 (cond_price c) = true) ->
  List.filter f cs <> [] ->
  let m := Math_min (List.map cond_price (List.filter f cs)) in
  gt0 m = true
  /\ (exists c, c ∈ cs /\ f c = true /\ m = cond_price c)
  /\ (forall c, c ∈ cs -> f c = true -> jle m (cond_price c) = true).
Proof.
  intros Hf Hne m.
  destruct (Math_min_least (List.map cond_price (List.filter f cs))) as (Hm & Hin & Hall).
  { destruct (List.filter f cs); [congruence | discriminate]. }
  { apply Forall_forall. intros x Hx. apply list_elem_of_In, in_map_iff in Hx as (c & <- & Hc).
    apply filter_In in Hc as [_ Hc]. apply Hf, Hc. }
  split; [exact Hm | split].
  - apply list_elem_of_In, in_map_iff in Hin as (c & E & Hc).
    apply filter_In in Hc as [Hc Hfc]. exists c.
    split; [apply list_elem_of_In, Hc | split; [exact Hfc | symmetry; exact E]].
  - intros c Hc Hfc. rewrite Forall_forall in Hall. apply Hall.
    apply list_elem_of_In, in_map_iff. exists c. split; [reflexivity |].
    apply filter_In. split; [apply list_elem_of_In, Hc | exact Hfc].
Qed.

(** X4. The card-level price [parseCardData] computes.  When some offer
    has stock and price positive, it is the lowest price among those offers,
    even if an offer without stock is cheaper; otherwise, when some offer has
    a positive price, the lowest among those; otherwise the legacy [price]
    attribute when that parses to a positive number, and 0 if not.  So the
    price is positive exactly when an offer has a positive price or the
    legacy attribute is positive. *)
Theorem card_price_is_lowest_offer_price (cs : list CardCondition) (fallback : option jsstring) :
  let p := cheapestPrice cs fallback in
  (availableConditions cs <> [] ->
   (exists c, c ∈ availableConditions cs /\ p = cond_price c)
   /\ forall c, c ∈ availableConditions cs -> jle p (cond_price c) = true)
  /\ (availableConditions cs = [] -> validPriceConditions cs <> [] ->
      (exists c, c ∈ validPriceConditions cs /\ p = cond_price c)
      /\ forall c, c ∈ validPriceConditions cs -> jle p (cond_price c) = true)
  /\ (validPriceConditions cs = [] ->
      p = (if gt0 (parseInt (or_empty fallback)) then parseInt (or_empty fallback) else Fin 0))
  /\ (gt0 p = true <->
      validPriceConditions cs <> [] \/ gt0 (parseInt (or_empty fallback)) = true).
Proof.
  intros p.
  assert (Hav : forall c, gt0 (cond_stock c) && gt0 (cond_price c) = true ->
                          gt0 (cond_price c) = true)
    by (intros c H; apply andb_true_iff in H; tauto).
  assert (Hvp : forall c : CardCondition, gt0 (cond_price c) = true -> gt0 (cond_price c) = true)
    by auto.
  assert (Hsub : validPriceConditions cs = [] -> availableConditions cs = []).
  { unfold validPriceConditions, availableConditions. intros H.
    apply filter_nil_all. intros c Hc.
    destruct (gt0 (cond_price c)) eqn:E; [| apply andb_false_r].
    exfalso. assert (Hin : In c (List.filter (fun c => gt0 (cond_price c)) cs))
      by (apply filter_In; auto).
    rewrite H in Hin. exact Hin. }
  assert (Hfb : validPriceConditions cs = [] ->
                p = (if gt0 (parseInt (or_empty fallback)) then parseInt (or_empty fallback)
                     else Fin 0)).
  { intros H. unfold p, cheapestPrice. rewrite (Hsub H), H.
    destruct (or_empty fallback) as [| ch s]; reflexivity. }
  assert (H1 : availableConditions cs <> [] ->
               gt0 p = true
               /\ (exists c, c ∈ availableConditions cs /\ p = cond_price c)
               /\ forall c, c ∈ availableConditions cs -> jle p (cond_price c) = true).
  { intros Hne. pose proof (cheapest_of_filter _ cs Hav Hne) as (Hm & (c & Hc & Hfc & E) & Hall).
    assert (Hp : p = Math_min (List.map cond_price (availableConditions cs))).
    { unfold p, cheapestPrice. destruct (availableConditions cs); [congruence | reflexivity]. }
    rewrite Hp. split; [exact Hm | split].
    - exists c. split; [| exact E]. apply list_elem_of_In, filter_In.
      split; [apply list_elem_of_In, Hc | exact Hfc].
    - intros c' Hc'. apply list_elem_of_In, filter_In in Hc' as [Hc' Hf'].
      apply Hall; [apply list_elem_of_In, Hc' | exact Hf']. }
  assert (H2 : availableConditions cs = [] -> validPriceConditions cs <> [] ->
               gt0 p = true
               /\ (exists c, c ∈ validPriceConditions cs /\ p = cond_price c)
               /\ forall c, c ∈ validPriceConditions cs -> jle p (cond_price c) = true).
  { intros Hnone Hne.
    pose proof (cheapest_of_filter _ cs Hvp Hne) as (Hm & (c & Hc & Hfc & E) & Hall).
    assert (Hp : p = Math_min (List.map cond_price (validPriceConditions cs))).
    { unfold p, cheapestPrice. rewrite Hnone.
      destruct (validPriceConditions cs); [congruence | reflexivity]. }
    rewrite Hp. split; [exact Hm | split].
    - exists c. split; [| exact E]. apply list_elem_of_In, filter_In.
      split; [apply list_elem_of_In, Hc | exact Hfc].
    - intros c' Hc'. apply list_elem_of_In, filter_In in Hc' as [Hc' Hf'].
      apply Hall; [apply list_elem_of_In, Hc' | exact Hf']. }
  split; [intros H; apply H1, H | split; [intros Ha Hb; apply H2; assumption |]].
  split; [exact Hfb |].
  destruct (validPriceConditions cs) as [| v vs] eqn:Ev.
  - specialize (Hfb eq_refl). rewrite Hfb.
    destruct (gt0 (parseInt (or_empty fallback))) eqn:E.
    + split; [intros _; right; reflexivity | intros _; exact E].
    + split; [discriminate | intros [H | H]; congruence].
  - split; [left; discriminate | intros _].
    destruct (availableConditions cs) as [| a l] eqn:Ea.
    + apply H2; [reflexivity | discriminate].
    + apply H1. discriminate.
Qed.

Lemma fl_nonneg (n d : Z) :
  0 < d -> fl n d = FInf \/ exists m e, fl n d = FFin m e /\ 0 <= m.
Proof.
  intros Hd. unfold fl. destruct (n <=? 0) eqn:Hn.
  - right. exists 0, 0. split; [reflexivity | lia].
  - apply Z.leb_gt in Hn.
    set (l := Z.log2 n - Z.log2 d).
    set (lg := if pow2_le_ratio l n d then l else l - 1).
    set (e := Z.max (lg - 52) (-1074)).
    set (num := if 0 <=? e then n else n * 2 ^ (- e)).
    set (den := if 0 <=? e then d * 2 ^ e else d).
    assert (Hnum : 0 <= num).
    { unfold num. destruct (0 <=? e); [lia |].
      apply Z.mul_nonneg_nonneg; [lia | apply Z.pow_nonneg; lia]. }
    assert (Hden : 0 < den).
    { unfold den. destruct (Z.leb_spec 0 e); [| lia].
      apply Z.mul_pos_pos; [lia | apply Z.pow_pos_nonneg; lia]. }
    assert (Hq : 0 <= num / den) by (apply Z.div_pos; lia).
    match goal with |- context [if ?c then FInf else FFin ?m e] =>
      destruct c; [left; reflexivity | right; exists m, e; split; [reflexivity |]]
    end.
    destruct ((den <? 2 * (num mod den)) || ((2 * (num mod den) =? den) && Z.odd (num / den)));
      lia.
Qed.

Lemma Math_round_nonneg (m e : Z) :
  0 <= m -> exists z, Math_round (FFin m e) = Fin z /\ 0 <= z.
Proof.
  intros Hm. simpl. eexists. split; [reflexivity |].
  destruct (Z.leb_spec 0 e).
  - apply Z.mul_nonneg_nonneg; [lia | apply Z.pow_nonneg; lia].
  - apply Z.div_pos; [| apply Z.pow_pos_nonneg; lia].
    assert (0 <= 2 ^ (- e)) by (apply Z.pow_nonneg; lia). lia.
Qed.

(** X5. Whatever the price text, the amount parsed from it is a
    non-negative whole number of cents or +Infinity: never NaN, never
    negative (a minus sign in front of the digits is not read). *)
Theorem parsed_price_never_negative (priceText : jsstring) :
  priceCents priceText = PInf
  \/ exists z, priceCents priceText = Fin z /\ 0 <= z.
Proof.
  unfold priceCents.
  assert (He : priceEuros priceText = FInf
               \/ exists m e, priceEuros priceText = FFin m e /\ 0 <= m).
  { unfold priceEuros. destruct (priceMatch priceText) as [[ip fp] |].
    - apply fl_nonneg. apply Z.pow_pos_nonneg; lia.
    - right. exists 0, 0. split; [reflexivity | lia]. }
  destruct He as [-> | (m & e & -> & Hm)]; [left; reflexivity |].
  assert (Hf : fmul100 (FFin m e) = FInf
               \/ exists m' e', fmul100 (FFin m e) = FFin m' e' /\ 0 <= m').
  { simpl. destruct (Z.leb_spec 0 e); apply fl_nonneg; [lia |].
    apply Z.pow_pos_nonneg; lia. }
  destruct Hf as [-> | (m' & e' & -> & Hm')]; [left; reflexivity | right].
  apply Math_round_nonneg, Hm'.
Qed.





(** X8. The [outpostId] of an offer is the [id] of the row's first stock
    element with its first [ostk] removed: an element whose id is [ostk]
    followed by [x] gives [x]; a row without stock element gives the empty
    string. *)
Theorem outpostId_strips_prefix (sale : SaleElement) :
  (stock_elements sale = [] -> parseOutpostId sale = [])
  /\ (forall e rest x,
         stock_elements sale = e :: rest -> stock_id e = u "ostk" ++ x ->
         parseOutpostId sale = x).
Proof.
  unfold parseOutpostId. split.
  - intros ->. reflexivity.
  - intros e rest x -> ->. destruct x; reflexivity.
Qed.

(** ** Extractor: the tallies of one page *)

Lemma count_le {A} (p q : A -> bool) (l : list A) :
  (forall x, p x = true -> q x = true) -> (count p l <= count q l)%nat.
Proof.
  intros H. unfold count. induction l as [| x l IH]; simpl; [lia |].
  destruct (p x) eqn:Hp.
  - rewrite (H x Hp). simpl. lia.
  - destruct (q x); simpl; lia.
Qed.

Lemma count_or4 {A} (p q1 q2 q3 q4 : A -> bool) (l : list A) :
  (forall x, p x = true -> q1 x || q2 x || q3 x || q4 x = true) ->
  (count p l <= count q1 l + count q2 l + count q3 l + count q4 l)%nat.
Proof.
  intros H. unfold count. induction l as [| x l IH]; simpl; [lia |].
  destruct (p x) eqn:Hp.
  - specialize (H x Hp).
    destruct (q1 x), (q2 x), (q3 x), (q4 x); simpl in *; try lia; try discriminate.
  - destruct (q1 x), (q2 x), (q3 x), (q4 x); simpl; lia.
Qed.

Lemma count_split {A} (p : A -> bool) (l : list A) :
  (count p l + count (fun x => negb (p x)) l = length l)%nat.
Proof. unfold count. apply List.filter_length. Qed.

(** X9. [scrapeCollection] accounts for every container of the page:
    each one is either kept or counted as skipped.  Each reason tally is at
    most the number skipped, and the number skipped is at most the sum of
    the four tallies (a container can fail several checks). *)
Theorem every_container_kept_or_skipped (page : list CardElement) (coll : CollectionRef) :
  let st := Extractor.scrapeCollection page coll in
  (length (cards st) + skippedCards st = length page)%nat
  /\ (noName (skipReasons st) <= skippedCards st)%nat
  /\ (noPrice (skipReasons st) <= skippedCards st)%nat
  /\ (noConditions (skipReasons st) <= skippedCards st)%nat
  /\ (noSet (skipReasons st) <= skippedCards st)%nat
  /\ (skippedCards st
      <= noName (skipReasons st) + noPrice (skipReasons st)
         + noConditions (skipReasons st) + noSet (skipReasons st))%nat.
Proof.
  destruct (scrape_fold coll page scrapeInit) as (Hc & Hs & Hn & Hp & Hcd & Hset).
  cbv zeta in *. fold (Extractor.scrapeCollection page coll) in *.
  rewrite Hc, Hs, Hn, Hp, Hcd, Hset. simpl.
  rewrite length_map. fold (count accepted (parsed page)).
  assert (Hrej : forall (check : CardData -> bool),
             (forall d, accepted d = true -> check d = true) ->
             forall d, negb (check d) = true -> negb (accepted d) = true).
  { intros check H d Hd. destruct (accepted d) eqn:E; [| reflexivity].
    rewrite (H d E) in Hd. exact Hd. }
  split; [rewrite <- (length_map parseCardData page); apply count_split |].
  split; [apply count_le, Hrej; intros d Hd; apply accepted_checks in Hd; tauto |].
  split; [apply count_le, Hrej; intros d Hd; apply accepted_checks in Hd; tauto |].
  split; [apply count_le, Hrej; intros d Hd; apply accepted_checks in Hd; tauto |].
  split; [apply count_le, Hrej; intros d Hd; apply accepted_checks in Hd; tauto |].
  apply count_or4. intros d. unfold accepted.
  destruct (hasValidName d), (hasValidPrice d), (hasValidConditions d), (hasValidSet d);
    simpl; congruence.
Qed.


(** ** The basic scraper: the card limit *)

Lemma eachCard_take (coll : CollectionRef) (maxCards : Z) (page : list CardElement)
      (st : ScrapeState) :
  (length (cards st) <= Z.to_nat maxCards)%nat ->
  cards (BasicScraper.eachCard coll maxCards page st)
  = cards st ++ take (Z.to_nat maxCards - length (cards st))
                     (List.map (stamp coll) (List.filter accepted (parsed page))).
Proof.
  revert st. induction page as [| el page IH]; intros st Hlen; simpl.
  - rewrite take_nil, app_nil_r. reflexivity.
  - destruct (Z.leb_spec maxCards (Z.of_nat (length (cards st)))) as [Hfull | Hroom].
    + replace (Z.to_nat maxCards - length (cards st))%nat with 0%nat by lia.
      rewrite take_0, app_nil_r. reflexivity.
    + unfold scrapeStep at 1.
      destruct (accepted (parseCardData el)) eqn:Hacc.
      * rewrite IH; simpl; rewrite ?length_app; simpl; [| lia].
        rewrite <- app_assoc. f_equal. fold (stamp coll (parseCardData el)).
        replace (Z.to_nat maxCards - length (cards st))%nat
          with (S (Z.to_nat maxCards - (length (cards st) + 1)))%nat by lia.
        reflexivity.
      * rewrite IH; simpl; [reflexivity | lia].
Qed.

(** X11. With a card limit, the basic scraper's [scrapeCollection]
    returns the first [maxCards] cards the unlimited one returns for the same
    page, in the same order; a limit of zero or less returns nothing, and so
    does a failed request. *)
Theorem card_limit_keeps_first_cards (page : list CardElement) (coll : CollectionRef)
        (maxCards : Z) :
  BasicScraper.scrapeCollection (Some page) coll maxCards
  = take (Z.to_nat maxCards) (cards (Extractor.scrapeCollection page coll))
  /\ BasicScraper.scrapeCollection None coll maxCards = [].
Proof.
  split; [| reflexivity]. unfold BasicScraper.scrapeCollection.
  rewrite eachCard_take by (simpl; lia). rewrite scrapeCollection_cards. simpl.
  rewrite Nat.sub_0_r. reflexivity.
Qed.

(** ** Requests: retries *)

Lemma retryLoop_success (retries : nat) (delayMs : Z)
      (responses : nat -> option (list CardElement)) (coll : CollectionRef)
      (page : list CardElement) (n attempt remaining : nat) (waited : list Z) :
  (attempt + n <= retries)%nat -> (n < remaining)%nat ->
  (forall j, (attempt <= j < attempt + n)%nat -> responses j = None) ->
  responses (attempt + n)%nat = Some page ->
  Fetching.retryLoop retries delayMs responses coll remaining attempt waited
  = (Some (cards (Extractor.scrapeCollection page coll)),
     waited ++ List.map (fun j => delayMs * Z.of_nat j) (seq attempt n)).
Proof.
  revert attempt remaining waited.
  induction n as [| n IH]; intros attempt remaining waited Hle Hrem Hfail Hok.
  - destruct remaining as [| r]; [lia |]. simpl.
    rewrite Nat.add_0_r in Hok. rewrite Hok, app_nil_r. reflexivity.
  - destruct remaining as [| r]; [lia |]. simpl.
    rewrite (Hfail attempt) by lia.
    destruct (Nat.eqb_spec attempt retries) as [E | _]; [lia |].
    rewrite (IH (S attempt) r); try lia.
    + rewrite <- app_assoc. reflexivity.
    + intros j Hj. apply Hfail. lia.
    + rewrite <- Hok. f_equal. lia.
Qed.

Lemma retryLoop_exhausted (retries : nat) (delayMs : Z)
      (responses : nat -> option (list CardElement)) (coll : CollectionRef)
      (n attempt remaining : nat) (waited : list Z) :
  (attempt + n = retries)%nat -> (n < remaining)%nat ->
  (forall j, (attempt <= j <= retries)%nat -> responses j = None) ->
  Fetching.retryLoop retries delayMs responses coll remaining attempt waited
  = (Some [], waited ++ List.map (fun j => delayMs * Z.of_nat j) (seq attempt n)).
Proof.
  revert attempt remaining waited.
  induction n as [| n IH]; intros attempt remaining waited Hle Hrem Hfail.
  - destruct remaining as [| r]; [lia |]. simpl.
    rewrite (Hfail attempt) by lia.
    destruct (Nat.eqb_spec attempt retries) as [_ | E]; [| lia].
    rewrite app_nil_r. reflexivity.
  - destruct remaining as [| r]; [lia |]. simpl.
    rewrite (Hfail attempt) by lia.
    destruct (Nat.eqb_spec attempt retries) as [E | _]; [lia |].
    rewrite (IH (S attempt) r); try lia.
    + rewrite <- app_assoc. reflexivity.
    + intros j Hj. apply Hfail. lia.
Qed.

(** X12. [scrapeCollectionWithRetry] returns the cards of the first
    attempt whose request succeeds, if that is one of the first
    [maxRetries]; before it, it has waited after each failed attempt [j] for
    [j] times the request delay, and it makes no further attempt. *)
Theorem retry_returns_first_success
        (retries : nat) (delayMs : Z) (responses : nat -> option (list CardElement))
        (coll : CollectionRef) (k : nat) (page : list CardElement)
        (Hk : (1 <= k <= retries)%nat)
        (Hfailed : forall j, (1 <= j < k)%nat -> responses j = None)
        (Hok : responses k = Some page) :
  Fetching.scrapeCollectionWithRetryOf retries delayMs responses coll
  = (Some (cards (Extractor.scrapeCollection page coll)), backoff delayMs (k - 1)).
Proof.
  unfold Fetching.scrapeCollectionWithRetryOf, backoff.
  rewrite (retryLoop_success retries delayMs responses coll page (k - 1)); try lia.
  - reflexivity.
  - intros j Hj. apply Hfailed. lia.
  - rewrite <- Hok. f_equal. lia.
Qed.

Lemma retry_returns_first_success_witness :
  Fetching.scrapeCollectionWithRetry secondAttemptSucceeds commanderMasters
  = (Some (cards (Extractor.scrapeCollection [solRingContainer] commanderMasters)),
     [1000]).
Proof.
  apply (retry_returns_first_success 3 1000 secondAttemptSucceeds commanderMasters 2).
  - lia.
  - intros j Hj. assert (j = 1%nat) as -> by lia. reflexivity.
  - reflexivity.
Defined.

(** X13. When every one of the [maxRetries] attempts fails (and at
    least one attempt is allowed), [scrapeCollectionWithRetry] returns the
    empty array: it neither throws nor returns [undefined].  It has then
    waited after every failed attempt but the last. *)
Theorem retry_gives_up_with_no_cards
        (retries : nat) (delayMs : Z) (responses : nat -> option (list CardElement))
        (coll : CollectionRef)
        (Hretries : (1 <= retries)%nat)
        (Hfailed : forall j, (1 <= j <= retries)%nat -> responses j = None) :
  Fetching.scrapeCollectionWithRetryOf retries delayMs responses coll
  = (Some [], backoff delayMs (retries - 1)).
Proof.
  unfold Fetching.scrapeCollectionWithRetryOf, backoff.
  rewrite (retryLoop_exhausted retries delayMs responses coll (retries - 1)); try lia.
  - reflexivity.
  - exact Hfailed.
Qed.

Lemma retry_gives_up_with_no_cards_witness :
  Fetching.scrapeCollectionWithRetry everyAttemptFails commanderMasters
  = (Some [], [1000; 2000]).
Proof.
  apply (retry_gives_up_with_no_cards 3 1000 everyAttemptFails commanderMasters).
  - lia.
  - intros j Hj. reflexivity.
Defined.

(** ** Collection enumerator: the snapshot *)

Lemma take_while_all_digits (s : jsstring) : all_digits (take_while is_digit s).
Proof.
  induction s as [| c s IH]; simpl; [constructor |].
  destruct (is_digit c) eqn:E; constructor; assumption.
Qed.

Lemma collectionIdMatch_digits (s ds : jsstring) :
  collectionIdMatch s = Some ds -> ds <> [] /\ all_digits ds.
Proof.
  induction s as [| c s IH]; [discriminate |].
  cbn [collectionIdMatch].
  destruct (startsWith (c :: s) (u "collectionid=")); [| exact IH].
  pose proof (take_while_all_digits (drop (length (u "collectionid=")) (c :: s))) as Hd.
  destruct (take_while is_digit (drop (length (u "collectionid=")) (c :: s)))
    as [| d ds']; [exact IH |].
  intros [= <-]. split; [discriminate | exact Hd].
Qed.

Lemma seenKey_inj (id1 n1 id2 n2 : jsstring) :
  all_digits id1 -> all_digits id2 ->
  seenKey (id1, n1) = seenKey (id2, n2) -> id1 = id2 /\ n1 = n2.
Proof.
  unfold seenKey. simpl. change (u "-" ++ ?n) with (45%N :: n).
  intros H1. revert id2. induction H1 as [| c id1 Hc _ IH]; intros id2 H2 E.
  - destruct H2 as [| d id2 Hd _]; simpl in E.
    + injection E as ->. auto.
    + injection E as <- _. discriminate.
  - destruct H2 as [| d id2 Hd H2]; simpl in E.
    + injection E as -> _. discriminate.
    + injection E as -> E. destruct (IH id2 H2 E) as [-> ->]. auto.
Qed.

Lemma snapshotShaped_key (c c' : CollectionRef) :
  snapshotShaped c -> snapshotShaped c' ->
  seenKey (idName c) = seenKey (idName c') -> c = c'.
Proof.
  intros (_ & Hd & Hu) (_ & Hd' & Hu') E.
  destruct c as [n i url], c' as [n' i' url']. unfold idName in E. simpl in *.
  apply seenKey_inj in E as [-> ->]; [| assumption | assumption].
  subst. reflexivity.
Qed.

Lemma snapshotEntry_shaped (a : Anchor) (c : CollectionRef) :
  snapshotEntry a = Some c -> snapshotShaped c.
Proof.
  unfold snapshotEntry. destruct (href a) as [h |]; [| discriminate].
  destruct (truthy h && truthy (trim (anchor_text a))); [| discriminate].
  destruct (collectionIdMatch h) as [i |] eqn:E; [| discriminate].
  intros [= <-]. apply collectionIdMatch_digits in E as [Hne Hd].
  split; [exact Hne | split; [exact Hd | reflexivity]].
Qed.

Lemma snapshotStep_entry (st : list CollectionRef * gset jsstring) (a : Anchor) :
  seenExactly st ->
  (snapshotStep st a).1
  = match snapshotEntry a with Some c => keepFirst st.1 c | None => st.1 end
  /\ seenExactly (snapshotStep st a).
Proof.
  destruct st as [cs seen]. intros [Hseen Hshape]. simpl in *.
  pose proof (snapshotEntry_shaped a) as Hc.
  unfold snapshotStep, snapshotEntry in *.
  destruct (href a) as [h |]; [| split; [reflexivity | split; assumption]].
  destruct (truthy h && truthy (trim (anchor_text a)));
    [| split; [reflexivity | split; assumption]].
  destruct (collectionIdMatch h) as [i |]; [| split; [reflexivity | split; assumption]].
  set (c := {| coll_name := trim (anchor_text a); coll_id := i;
               coll_url := getCollectionUrl i |}) in *.
  specialize (Hc c eq_refl).
  change (i ++ u "-" ++ trim (anchor_text a)) with (seenKey (idName c)).
  unfold keepFirst.
  assert (Hiff : seenKey (idName c) ∈ seen <-> c ∈ cs).
  { rewrite Hseen. split.
    - intros (c' & Hin & E). rewrite Forall_forall in Hshape.
      rewrite <- (snapshotShaped_key c' c (Hshape c' Hin) Hc E). exact Hin.
    - intros Hin. exists c. auto. }
  case_bool_decide as Hk; case_bool_decide as Hin; try tauto.
  - split; [reflexivity | split; assumption].
  - split; [reflexivity |]. split; simpl.
    + intros key. rewrite elem_of_union, elem_of_singleton, Hseen. split.
      * intros [-> | (c' & Hc' & E)].
        -- exists c. split; [apply elem_of_app; right; left | reflexivity].
        -- exists c'. split; [apply elem_of_app; left; exact Hc' | exact E].
      * intros (c' & Hc' & E). apply elem_of_app in Hc' as [Hc' | Hc'].
        -- right. exists c'. auto.
        -- apply list_elem_of_singleton in Hc' as ->. left. symmetry. exact E.
    + apply Forall_app. split; [exact Hshape | constructor; [exact Hc | constructor]].
Qed.

Lemma snapshot_fold_entries (anchors : list Anchor)
      (st : list CollectionRef * gset jsstring) :
  seenExactly st ->
  (fold_left snapshotStep anchors st).1
  = fold_left keepFirst (omap snapshotEntry anchors) st.1
  /\ Forall snapshotShaped (fold_left snapshotStep anchors st).1.
Proof.
  revert st. induction anchors as [| a anchors IH]; intros st Hst.
  - split; [reflexivity | apply Hst].
  - cbn [fold_left]. rewrite omap_cons_eq.
    destruct (snapshotStep_entry st a Hst) as [E Hinv].
    destruct (IH _ Hinv) as [IH1 IH2]. split; [| exact IH2].
    rewrite IH1, E. destruct (snapshotEntry a); reflexivity.
Qed.

Lemma seenExactly_init : seenExactly ([], ∅).
Proof.
  split; [| constructor]. intros key. simpl. split.
  - intros H. apply elem_of_empty in H. contradiction.
  - intros (c & H & _). inversion H.
Qed.

(** X14. From the snapshot, the collections come out in the order in
    which they first appear, each once: the result is the list of entries
    made of the qualifying anchors (an [href] holding [collectionid=] and
    digits, a text that is not blank), without the later repetitions of an
    entry.  No qualifying anchor is lost. *)
Theorem snapshot_keeps_first_occurrences (anchors : list Anchor) :
  parseCollectionsFromHTML (Some anchors)
  = firstOccurrences (omap snapshotEntry anchors).
Proof.
  unfold parseCollectionsFromHTML, firstOccurrences.
  apply (snapshot_fold_entries anchors ([], ∅)), seenExactly_init.
Qed.

Lemma take_drop_while (p : N -> bool) (s : jsstring) :
  take_while p s ++ drop_while p s = s.
Proof.
  induction s as [| c s IH]; simpl; [reflexivity |].
  destruct (p c); simpl; [rewrite IH |]; reflexivity.
Qed.

Lemma collectionIdMatch_occurs (s ds : jsstring) :
  collectionIdMatch s = Some ds ->
  exists a b, s = a ++ (u "collectionid=" ++ ds) ++ b.
Proof.
  induction s as [| c s IH]; [discriminate |].
  cbn [collectionIdMatch].
  assert (Hnext : collectionIdMatch s = Some ds ->
                  exists a b, c :: s = a ++ (u "collectionid=" ++ ds) ++ b).
  { intros H. destruct (IH H) as (a & b & ->). exists (c :: a), b. reflexivity. }
  destruct (startsWith (c :: s) (u "collectionid=")) eqn:Hs; [| exact Hnext].
  apply startsWith_spec in Hs as (rest & Hs). rewrite Hs.
  rewrite drop_app_length.
  destruct (take_while is_digit rest) as [| d ds'] eqn:Ht.
  - rewrite <- Hs. exact Hnext.
  - intros [= <-]. exists [], (drop_while is_digit rest).
    rewrite <- Ht, <- !app_assoc, take_drop_while. reflexivity.
Qed.

Lemma includes_app_l (a s p : jsstring) :
  includes s p = true -> includes (a ++ s) p = true.
Proof.
  rewrite !includes_spec. intros (x & y & ->). exists (a ++ x), y.
  rewrite <- app_assoc. reflexivity.
Qed.

(** X15. Every collection enumerated has a non-empty id made of digits
    only and an address starting with [http].  From the snapshot, the
    address is the product-list address built from the id, and the name is
    not empty; from the live catalog, the address holds [collectionid=]
    followed by the id, and the name is longer than two code units. *)
Theorem enumerated_collections_are_well_formed :
  (forall (snapshot : option (list Anchor)) (c : CollectionRef),
      c ∈ parseCollectionsFromHTML snapshot ->
      coll_id c <> [] /\ all_digits (coll_id c)
      /\ coll_name c <> []
      /\ coll_url c = getCollectionUrl (coll_id c)
      /\ startsWith (coll_url c) (u "http") = true)
  /\ (forall (catalog : option (list CatalogAnchor)) (c : CollectionRef),
         c ∈ parseCollections catalog ->
         coll_id c <> [] /\ all_digits (coll_id c)
         /\ (2 < length (coll_name c))%nat
         /\ includes (coll_url c) (u "collectionid=" ++ coll_id c) = true
         /\ startsWith (coll_url c) (u "http") = true).
Proof.
  split.
  - intros snapshot c Hc.
    pose proof (parseCollectionsFromHTML_names snapshot) as Hn.
    rewrite Forall_forall in Hn. specialize (Hn c Hc).
    destruct snapshot as [anchors |]; [| inversion Hc].
    destruct (snapshot_fold_entries anchors ([], ∅) seenExactly_init) as [_ Hshape].
    rewrite Forall_forall in Hshape. destruct (Hshape c Hc) as (Hne & Hd & Hu).
    split; [exact Hne | split; [exact Hd | split; [exact Hn | split; [exact Hu |]]]].
    rewrite Hu. reflexivity.
  - intros catalog c Hc. destruct catalog as [anchors |]; [| inversion Hc].
    simpl in Hc. rewrite (catalog_fold anchors []) in Hc. simpl in Hc.
    apply list_elem_of_omap in Hc as (a & _ & Ha). unfold catalogEntry in Ha.
    destruct (collectionIdMatch (cat_href a)) as [i |] eqn:Hi; [| discriminate].
    destruct (Nat.ltb_spec 2 (length (trim (cat_text a)))) as [Hlen | _]; [| discriminate].
    apply (inj Some) in Ha. subst c. cbn [coll_id coll_name coll_url].
    destruct (collectionIdMatch_digits _ _ Hi) as [Hne Hd].
    split; [exact Hne | split; [exact Hd | split; [exact Hlen |]]].
    assert (Hinc : includes (cat_href a) (u "collectionid=" ++ i) = true).
    { apply includes_spec. destruct (collectionIdMatch_occurs _ _ Hi) as (x & y & E).
      exists x, y. exact E. }
    destruct (startsWith (cat_href a) (u "http")) eqn:Hs.
    + split; [exact Hinc | exact Hs].
    + split; [apply includes_app_l, Hinc | reflexivity].
Qed.

(** ** The basic scraper: one run *)

Lemma insert_sorted_length {A} (cmp : A -> A -> jsnum) (x : A) (l : list A) :
  length (insert_sorted cmp x l) = S (length l).
Proof.
  induction l as [| y l IH]; simpl; [reflexivity |].
  destruct (before cmp x y); simpl; [reflexivity | rewrite IH; reflexivity].
Qed.

Lemma sort_length {A} (cmp : A -> A -> jsnum) (l : list A) :
  length (sort cmp l) = length l.
Proof.
  induction l as [| x l IH]; simpl; [reflexivity |].
  rewrite insert_sorted_length, IH. reflexivity.
Qed.

Lemma consolidateCards_length (toLowerCase : jsstring -> jsstring)
      (cards : list ListingRecord) :
  (length (consolidateCards toLowerCase cards) <= length cards)%nat.
Proof.
  rewrite consolidateCards_groups.
  etransitivity; [apply omap_length | apply firstKeys_length].
Qed.

Lemma basic_scrapeCollection_stamped (response : option (list CardElement))
      (coll : CollectionRef) (maxCards : Z) :
  (length (BasicScraper.scrapeCollection response coll maxCards) <= Z.to_nat maxCards)%nat
  /\ forall r : ListingRecord,
      r ∈ BasicScraper.scrapeCollection response coll maxCards ->
      collection r = coll_name coll /\ collectionId r = coll_id coll.
Proof.
  destruct response as [page |]; simpl; [| split; [lia | intros r H; inversion H]].
  rewrite eachCard_take by (simpl; lia). simpl. rewrite Nat.sub_0_r. split.
  - rewrite length_take. lia.
  - intros r Hr. apply elem_of_take in Hr as (i & Hr & _).
    apply list_elem_of_lookup_2, list_elem_of_In, in_map_iff in Hr as (d & <- & _).
    split; reflexivity.
Qed.

Lemma scrapeLoop_spec (responses : nat -> option (list CardElement))
      (cs : list CollectionRef) (i : nat) (allCards : list ListingRecord) (n : nat) :
  let result := BasicScraper.scrapeLoop responses i cs allCards n in
  result.2 = (n + length cs)%nat
  /\ (length result.1 <= length allCards + 100 * length cs)%nat
  /\ forall r : ListingRecord,
      r ∈ result.1 ->
      r ∈ allCards
      \/ exists c, c ∈ cs /\ collection r = coll_name c /\ collectionId r = coll_id c.
Proof.
  revert i allCards n. induction cs as [| c cs IH]; intros i allCards n; simpl.
  - split; [lia | split; [lia | auto]].
  - destruct (IH (S i) (allCards ++ BasicScraper.scrapeCollection (responses i) c 100)
                 (S n)) as (Hn & Hlen & Hin).
    destruct (basic_scrapeCollection_stamped (responses i) c 100) as [Hcap Hst].
    split; [lia | split].
    + rewrite length_app in Hlen. lia.
    + intros r Hr. destruct (Hin r Hr) as [Hr' | (c' & Hc' & E)].
      * apply elem_of_app in Hr' as [Hr' | Hr']; [left; exact Hr' |].
        right. exists c. split; [left | apply Hst, Hr'].
      * right. exists c'. split; [right; exact Hc' | exact E].
Qed.

(** X16. One run of the basic scraper.  Nothing is written when the
    catalog yields no collection or the write fails.  Otherwise the file
    holds the consolidated cards of the first ten collections in priority
    order: [collectionsProcessed] is the number of collections found, capped
    at ten, and counts the collections whose request failed as well; at most
    100 cards per collection went in, so [totalCards] is at most 100 times
    that number; every card has a positive price and names one of those
    collections. *)
Theorem basic_run_output
        (toLowerCase : jsstring -> jsstring) (catalog : option (list CatalogAnchor))
        (responses : nat -> option (list CardElement)) (writeThrows : bool) :
  match BasicScraper.scrapeOutpost toLowerCase catalog responses writeThrows with
  | None => writeThrows = true \/ parseCollections catalog = []
  | Some out =>
    writeThrows = false /\ parseCollections catalog <> []
    /\ BasicScraper.collectionsProcessed out
       = Nat.min 10 (length (parseCollections catalog))
    /\ BasicScraper.totalCards out = length (BasicScraper.out_cards out)
    /\ (BasicScraper.totalCards out <= 100 * BasicScraper.collectionsProcessed out)%nat
    /\ (BasicScraper.cardsWithStock out <= BasicScraper.totalCards out)%nat
    /\ forall r : ListingRecord,
        r ∈ BasicScraper.out_cards out ->
        gt0 (price r) = true
        /\ exists c, c ∈ take 10 (sortedCollections (parseCollections catalog))
                     /\ collection r = coll_name c /\ collectionId r = coll_id c
  end.
Proof.
  unfold BasicScraper.scrapeOutpost.
  destruct (parseCollections catalog) as [| c0 cs0] eqn:Hcs; [right; reflexivity |].
  set (collections := c0 :: cs0) in *.
  set (selected := take BasicScraper.maxCollections (sortedCollections collections)).
  pose proof (scrapeLoop_spec responses selected 0 [] 0) as Hloop.
  destruct (BasicScraper.scrapeLoop responses 0 selected [] 0) as [allCards processed].
  cbv zeta in Hloop. simpl in Hloop. destruct Hloop as (Hn & Hlen & Hin).
  destruct writeThrows; [left; reflexivity |]. cbn [BasicScraper.collectionsProcessed
    BasicScraper.totalCards BasicScraper.cardsWithStock BasicScraper.out_cards].
  assert (Hsel : length selected = Nat.min 10 (length collections)).
  { unfold selected, sortedCollections, sortCollections.
    rewrite length_take, sort_length. reflexivity. }
  pose proof (consolidateCards_length toLowerCase allCards) as Hcl.
  split; [reflexivity | split; [discriminate | split; [congruence | split; [reflexivity |]]]].
  split; [lia | split; [apply List.filter_length_le |]].
  intros r Hr. destruct (consolidateCards_sound toLowerCase allCards) as [Hs _].
  rewrite Forall_forall in Hs. destruct (Hs r Hr) as [Hr' Hp].
  split; [exact Hp |]. destruct (Hin r Hr') as [H | H]; [inversion H | exact H].
Qed.

(** ** Orchestrator: a run that finishes *)

Lemma processCollections_normal (w : World) (todo : list CollectionRef) (i : nat)
      (l : Locals) (fs : FileSystem) (l' : Locals) (fs' : FileSystem) :
  processCollections w todo i l fs = (Normal (), l', fs') ->
  allCards l' = allCards l ++ flat_map (scraped w) todo
  /\ collectionsProcessed l' = (collectionsProcessed l + count (yieldsCards w) todo)%nat
  /\ skippedCollections l'
     = skippedCollections l ++ (Skipped <$> List.filter (yieldsNothing w) todo)
  /\ outputFile fs' = outputFile fs.
Proof.
  revert i l fs. induction todo as [| c todo IH]; intros i l fs H.
  - injection H as <- <-. unfold count. simpl. rewrite !app_nil_r.
    split; [reflexivity | split; [lia | split; reflexivity]].
  - cbn [processCollections] in H. unfold count, yieldsNothing, yieldsCards, scraped in *.
    cbn [flat_map List.filter].
    destruct (skipEmptyCollections && negb (hasCards w c)) eqn:Hq.
    + apply IH in H as (Ha & Hp & Hs & Ho). simpl in *.
      rewrite Ha, Hp, Hs, Ho, <- app_assoc.
      split; [reflexivity | split; [lia | split; reflexivity]].
    + set (l1 := match scrapeCollectionWithRetry w c with
                 | [] => skip c l
                 | _ :: _ => accumulate c (scrapeCollectionWithRetry w c) l
                 end) in *.
      assert (Hnext : forall fs1, outputFile fs1 = outputFile fs ->
                 processCollections w todo (S i) l1 fs1 = (Normal (), l', fs') ->
                 allCards l' = allCards l ++ scrapeCollectionWithRetry w c
                               ++ flat_map (scraped w) todo
                 /\ collectionsProcessed l'
                    = (collectionsProcessed l
                       + length (if match scrapeCollectionWithRetry w c with
                                    | [] => false | _ :: _ => true end
                                 then c :: List.filter (yieldsCards w) todo
                                 else List.filter (yieldsCards w) todo))%nat
                 /\ skippedCollections l'
                    = skippedCollections l
                      ++ (Skipped <$> (if negb match scrapeCollectionWithRetry w c with
                                               | [] => false | _ :: _ => true end
                                       then c :: List.filter (yieldsNothing w) todo
                                       else List.filter (yieldsNothing w) todo))
                 /\ outputFile fs' = outputFile fs).
      { intros fs1 Hfs1 H1. apply IH in H1 as (Ha & Hp & Hs & Ho).
        unfold count, yieldsNothing, yieldsCards, scraped in *.
        rewrite Ha, Hp, Hs, Ho, Hfs1. unfold l1.
        destruct (scrapeCollectionWithRetry w c) as [| x xs]; simpl.
        - rewrite <- app_assoc. split; [reflexivity | split; [lia | split; reflexivity]].
        - rewrite <- app_assoc. split; [reflexivity | split; [lia | split; reflexivity]]. }
      destruct ((collectionsProcessed l1 + length (skippedCollections l1)) mod batchSize =? 0)%nat.
      * unfold saveProgress in H. cbn [enableProgressSaving] in H.
        destruct (skippedIds (skippedCollections l1)); [| discriminate].
        destruct (saveProgressThrows w i); [discriminate |].
        eapply Hnext; [| exact H]. reflexivity.
      * eapply Hnext; [| exact H]. reflexivity.
Qed.

(** X17. A run that finishes over a non-empty snapshot leaves no
    checkpoint file and writes the final output.  The output's cards are the
    consolidation of the checkpoint's cards followed by the cards scraped
    from the pending collections in snapshot order; [collectionsProcessed]
    and [collectionsSkipped] are the checkpoint's counts plus the pending
    collections that yielded cards, respectively none, so together they grow
    by the number of pending collections. *)
Theorem finished_run_output
        (toLowerCase : jsstring -> jsstring) (w : World) (fs : FileSystem)
        (Hsnapshot : parseCollectionsFromHTML (snapshot w) <> [])
        (Hfinished : (scrapeAllCollections toLowerCase w fs).1 = Finished) :
  let l0 := initLocals (loadProgress fs) in
  let pending := pendingCollections w fs in
  let uniqueCards :=
    consolidateCards toLowerCase (allCards l0 ++ flat_map (scraped w) pending) in
  let processed := (collectionsProcessed l0 + count (yieldsCards w) pending)%nat in
  let skipped := (length (skippedCollections l0) + count (yieldsNothing w) pending)%nat in
  progressFile (scrapeAllCollections toLowerCase w fs).2 = None
  /\ outputFile (scrapeAllCollections toLowerCase w fs).2
     = Some (FinalOutput (length uniqueCards) processed skipped
                         (length (parseCollectionsFromHTML (snapshot w))) uniqueCards)
  /\ (processed + skipped
      = collectionsProcessed l0 + length (skippedCollections l0) + length pending)%nat.
Proof.
  intros l0 pending uniqueCards processed skipped.
  assert (Hsum : (processed + skipped
                  = collectionsProcessed l0 + length (skippedCollections l0)
                    + length pending)%nat).
  { unfold processed, skipped, yieldsNothing.
    pose proof (count_split (yieldsCards w) pending). lia. }
  split; [| split; [| exact Hsum]];
    revert Hfinished; unfold scrapeAllCollections, tryBlock;
    (destruct (parseCollectionsFromHTML (snapshot w)) as [| c0 cs] eqn:Hall; [congruence |]);
    fold l0;
    (assert (Hpending : List.filter
               (fun c => negb (bool_decide (coll_id c ∈ processedCollectionIds l0))
                         && negb (bool_decide (coll_id c ∈ skippedCollectionIds l0)))
               (c0 :: cs) = pending)
       by (unfold pending, pendingCollections; rewrite Hall; reflexivity));
    rewrite Hpending;
    (destruct (processCollections w pending 0 l0 fs) as [[[[] |] l] fs'] eqn:E;
       [| discriminate]);
    apply processCollections_normal in E as (Ha & Hp & Hs & Ho);
    (destruct (skippedIds (take 10 (skippedCollections l))); [| discriminate]);
    (destruct (writeOutputThrows w); [discriminate |]); cbn [progressFile outputFile];
    (destruct (progressFile fs'); [destruct (unlinkThrows w); [discriminate |] |]);
    intros _; cbn [fst snd progressFile outputFile]; try reflexivity;
    rewrite Ha, Hp, Hs, length_app, length_fmap; reflexivity.
Qed.

Lemma finished_run_output_witness :
  outputFile (scrapeAllCollections ascii_toLowerCase allWritable noFiles).2
  = Some (FinalOutput 25 25 0 25
            (consolidateCards ascii_toLowerCase
               (flat_map (scraped allWritable) (pendingCollections allWritable noFiles)))).
Proof.
  assert (Hsnapshot : parseCollectionsFromHTML (snapshot allWritable) <> [])
    by (vm_compute; discriminate).
  assert (Hfinished : (scrapeAllCollections ascii_toLowerCase allWritable noFiles).1 = Finished)
    by (vm_compute; reflexivity).
  destruct (finished_run_output ascii_toLowerCase allWritable noFiles Hsnapshot Hfinished)
    as (_ & Hout & _).
  rewrite Hout. vm_compute. reflexivity.
Defined.

(** ** Orchestrator: checkpoints *)

(** X18. A checkpoint is written only in an iteration that went on to
    scrape: while the quick check fails, the loop moves on without looking
    at the batch counter.  So if it fails for every pending collection, the
    loop ends normally with each of them recorded as skipped and the files
    as they were, however many collections there are. *)
Theorem quick_check_skips_save_nothing
        (w : World) (todo : list CollectionRef) (i : nat) (l : Locals) (fs : FileSystem)
        (Hempty : forall c, c ∈ todo -> hasCards w c = false) :
  processCollections w todo i l fs
  = (Normal (), fold_left (fun l c => skip c l) todo l, fs).
Proof.
  revert i l. induction todo as [| c todo IH]; intros i l; [reflexivity |].
  cbn [processCollections fold_left]. rewrite (Hempty c) by left. simpl.
  apply IH. intros c' Hc'. apply Hempty. right. exact Hc'.
Qed.

Lemma quick_check_skips_save_nothing_witness :
  let todo := parseCollectionsFromHTML (Some snapshot25) in
  length todo = 25%nat
  /\ processCollections nothingForSale todo 0 (initLocals None) noFiles
     = (Normal (), fold_left (fun l c => skip c l) todo (initLocals None), noFiles).
Proof.
  split; [vm_compute; reflexivity |].
  apply (quick_check_skips_save_nothing nothingForSale).
  intros c _. reflexivity.
Defined.






Lemma skippedIds_null (cs : list SkippedEntry) :
  FromCheckpoint None ∈ cs -> skippedIds cs = Throw.
Proof.
  induction cs as [| c cs IH]; intros H; [inversion H |].
  apply elem_of_cons in H as [<- | H]; [reflexivity |].
  simpl. destruct (skippedId c); [| reflexivity]. rewrite (IH H). reflexivity.
Qed.

Lemma elem_of_take_app {A} (x : A) (n : nat) (l k : list A) :
  x ∈ take n l -> x ∈ take n (l ++ k).
Proof.
  intros H. apply elem_of_take in H as (i & Hi & Hlt).
  apply elem_of_take. exists i. split; [| exact Hlt].
  apply lookup_app_l_Some. exact Hi.
Qed.

Lemma elem_of_take_elem {A} (x : A) (n : nat) (l : list A) : x ∈ take n l -> x ∈ l.
Proof.
  intros H. apply elem_of_take in H as (i & Hi & _). eapply list_elem_of_lookup_2, Hi.
Qed.

Lemma processCollections_null (w : World) (todo : list CollectionRef) (i : nat)
      (l : Locals) (fs : FileSystem) :
  FromCheckpoint None ∈ take 10 (skippedCollections l) ->
  (processCollections w todo i l fs).2 = fs
  /\ FromCheckpoint None ∈ take 10 (skippedCollections (processCollections w todo i l fs).1.2).
Proof.
  revert i l. induction todo as [| c todo IH]; intros i l Hnull; [split; [reflexivity | exact Hnull] |].
  cbn [processCollections].
  assert (Hskip : FromCheckpoint None ∈ take 10 (skippedCollections (skip c l)))
    by (apply elem_of_take_app, Hnull).
  destruct (skipEmptyCollections && negb (hasCards w c)); [apply IH, Hskip |].
  set (l1 := match scrapeCollectionWithRetry w c with
             | [] => skip c l
             | _ :: _ => accumulate c (scrapeCollectionWithRetry w c) l
             end).
  assert (H1 : FromCheckpoint None ∈ take 10 (skippedCollections l1))
    by (unfold l1; destruct (scrapeCollectionWithRetry w c); [exact Hskip | exact Hnull]).
  destruct ((collectionsProcessed l1 + length (skippedCollections l1)) mod batchSize =? 0)%nat;
    [| apply IH, H1].
  unfold saveProgress. cbn [enableProgressSaving].
  rewrite skippedIds_null by (eapply elem_of_take_elem, H1).
  split; [reflexivity | exact H1].
Qed.

(** X20. A checkpoint with a [null] among its first ten skipped ids
    cannot be resumed from: over a non-empty snapshot the run always aborts,
    whatever the site answers, when it next tries to save or when it builds
    the final output, and it leaves both files as they were.  (Such a
    checkpoint is what a resumed run writes, see the round trip above.) *)
Theorem null_skip_id_aborts_resumed_run
        (toLowerCase : jsstring -> jsstring) (w : World) (fs : FileSystem)
        (p : ScrapeProgress)
        (Hsnapshot : parseCollectionsFromHTML (snapshot w) <> [])
        (Hcheckpoint : progressFile fs = Some p)
        (Hnull : None ∈ take 10 (p_skippedCollectionIds p)) :
  scrapeAllCollections toLowerCase w fs = (Aborted, fs).
Proof.
  unfold scrapeAllCollections, tryBlock.
  destruct (parseCollectionsFromHTML (snapshot w)) as [| c0 cs]; [congruence |].
  set (l0 := initLocals (loadProgress fs)). set (todo := List.filter _ _).
  assert (H0 : FromCheckpoint None ∈ take 10 (skippedCollections l0)).
  { unfold l0, loadProgress. cbn [resumeFromProgress]. rewrite Hcheckpoint. simpl.
    rewrite <- fmap_take. apply list_elem_of_fmap. exists None. auto. }
  destruct (processCollections_null w todo 0 l0 fs H0) as [Hfs Hl].
  destruct (processCollections w todo 0 l0 fs) as [[[[] |] l] fs'];
    simpl in Hfs, Hl; subst fs'.
  - rewrite skippedIds_null by exact Hl. rewrite catchClause_id. reflexivity.
  - rewrite catchClause_id. reflexivity.
Qed.

Lemma null_skip_id_aborts_resumed_run_witness :
  scrapeAllCollections ascii_toLowerCase allWritable resumedTwice = (Aborted, resumedTwice).
Proof.
  apply (null_skip_id_aborts_resumed_run ascii_toLowerCase allWritable resumedTwice
                                         secondCheckpoint).
  - vm_compute. discriminate.
  - reflexivity.
  - left.
Defined.

(** ** Deck matcher: the style filter *)

Lemma filter_all {A} (f : A -> bool) (l : list A) :
  (forall x, In x l -> f x = true) -> List.filter f l = l.
Proof.
  induction l as [| x l IH]; intros H; [reflexivity |]. simpl.
  rewrite (H x) by (left; reflexivity). f_equal. apply IH. intros y Hy. apply H. right. exact Hy.
Qed.

(** X21. Matching the card style only ever narrows the choice, and never
    to nothing: with [matchCardStyle] the cards retained are among those
    retained without it, in the same order, and there are none only if there
    are none without it.  A deck card that names no set is matched as
    without the option. *)
Theorem style_filter_narrows_but_never_empties
        (toLowerCase : jsstring -> jsstring) (outpostData : list ListingRecord)
        (card : Store.MoxfieldCard) :
  let plain := Store.matchedCards toLowerCase outpostData false card in
  let styled := Store.matchedCards toLowerCase outpostData true card in
  (styled = plain \/ (styled = List.filter (Store.setMatches toLowerCase card) plain
                      /\ styled <> []))
  /\ (forall oc : ListingRecord, oc ∈ styled -> oc ∈ plain)
  /\ (styled = [] <-> plain = [])
  /\ (Store.mox_set card = [] -> styled = plain).
Proof.
  intros plain styled. unfold styled, plain, Store.matchedCards.
  set (priced := List.filter Store.hasValidPrice _).
  destruct (List.filter (Store.setMatches toLowerCase card) priced) as [| m ms] eqn:Hm.
  - simpl. split; [left; reflexivity | split; [auto | split; [reflexivity | auto]]].
  - simpl. split; [right; split; [reflexivity | discriminate] |]. split; [| split].
    + intros oc Hoc. rewrite <- Hm in Hoc.
      apply list_elem_of_In, filter_In in Hoc as [Hoc _]. apply list_elem_of_In, Hoc.
    + split; [discriminate |]. intros E. rewrite E in Hm. discriminate.
    + intros Hset. rewrite <- Hm. apply filter_all. intros oc _.
      unfold Store.setMatches. rewrite Hset. reflexivity.
Qed.

(** ** Deck matcher: when a price is shown *)

Lemma emptyTier_dec (stocked : bool) (avail : list ListingRecord) (q : jsstring) :
  {emptyTier stocked avail q} + {~ emptyTier stocked avail q}.
Proof.
  unfold emptyTier. destruct (Store.candidateCards stocked avail q);
    [left; reflexivity | right; discriminate].
Defined.

Lemma tierLoop_cases (stocked : bool) (avail : list ListingRecord)
      (tiers : list jsstring) (b : Store.Best) :
  (Forall (emptyTier stocked avail) tiers /\ Store.tierLoop stocked avail tiers b = b)
  \/ exists q, q ∈ tiers /\ selects (Store.tierLoop stocked avail tiers b) stocked avail q.
Proof.
  destruct (Forall_Exists_dec (emptyTier stocked avail)
                              (fun q => ~ emptyTier stocked avail q)
                              (emptyTier_dec stocked avail) tiers) as [Hall | Hex].
  - left. split; [exact Hall | apply tierLoop_empty, Hall].
  - right. induction tiers as [| q tiers IH]; [inversion Hex |].
    destruct (emptyTier_dec stocked avail q) as [Hq | Hq].
    + apply Exists_cons in Hex as [Hex | Hex]; [contradiction |].
      destruct (IH Hex) as (q' & Hin & Hsel). exists q'. split; [right; exact Hin |].
      simpl. unfold emptyTier in Hq. rewrite Hq. exact Hsel.
    + exists q. split; [left |].
      apply (tierLoop_first stocked avail [] q tiers b); [constructor | exact Hq].
Qed.

Lemma emptyTier_false_all (avail : list ListingRecord) :
  Forall (emptyTier false avail) Store.qualityOrder <->
  forall oc : ListingRecord, oc ∈ avail -> ~ hasGradedOffer oc.
Proof.
  rewrite Forall_forall. split.
  - intros Hall oc Hoc (c & Hc & Hp & Hq).
    specialize (Hall _ Hq). unfold emptyTier in Hall.
    assert (Hin : (oc, c) ∈ Store.candidateCards false avail (condition c)).
    { apply elem_of_candidateCards. repeat split; auto. discriminate. }
    rewrite Hall in Hin. inversion Hin.
  - intros Hnone q Hq. unfold emptyTier.
    destruct (Store.candidateCards false avail q) as [| [oc c] rest] eqn:E; [reflexivity |].
    assert (Hin : (oc, c) ∈ Store.candidateCards false avail q) by (rewrite E; left).
    apply elem_of_candidateCards in Hin as (Hoc & Hc & <- & Hp & _).
    exfalso. apply (Hnone oc Hoc). exists c. auto.
Qed.

(** X22. The price shown for a deck card is positive exactly when one of
    the cards retained for it holds an offer with a positive price labelled
    NM/M, EX/GD, SP/P, HP or PR; otherwise it is zero.  An offer under any
    other label is never priced, though the card stays in the list. *)
Theorem price_shown_iff_graded_offer
        (toLowerCase : jsstring -> jsstring) (outpostData : list ListingRecord)
        (matchCardStyle : bool) (card : Store.MoxfieldCard) :
  let result := Store.analyzeCard toLowerCase outpostData matchCardStyle card in
  (gt0 (Store.cheapestPriceCents result) = true <->
   exists oc : ListingRecord, oc ∈ Store.availableCards result /\ hasGradedOffer oc)
  /\ (gt0 (Store.cheapestPriceCents result) = false ->
      Store.cheapestPriceCents result = zero).
Proof.
  intros result. unfold result, Store.analyzeCard. cbn [Store.cheapestPriceCents Store.availableCards].
  set (avail := Store.matchedCards toLowerCase outpostData matchCardStyle card).
  assert (Hcases : (Store.findBest avail = noBest
                    /\ forall oc : ListingRecord, oc ∈ avail -> ~ hasGradedOffer oc)
                   \/ (gt0 (Store.bestPriceCents (Store.findBest avail)) = true
                       /\ exists oc : ListingRecord, oc ∈ avail /\ hasGradedOffer oc)).
  { assert (Hgraded : forall stocked q b, q ∈ Store.qualityOrder ->
               selects b stocked avail q ->
               exists oc : ListingRecord, oc ∈ avail /\ hasGradedOffer oc).
    { intros stocked q b Hq (oc & c & _ & _ & _ & Hin & _).
      apply elem_of_candidateCards in Hin as (Hoc & Hc & <- & Hp & _).
      exists oc. split; [exact Hoc |]. exists c. auto. }
    unfold Store.findBest. fold noBest.
    destruct (tierLoop_cases true avail Store.qualityOrder noBest) as [[Hall ->] | (q & Hq & Hsel)].
    - change (jeq (Store.bestPriceCents noBest) zero) with true. cbv iota.
      destruct (tierLoop_cases false avail Store.qualityOrder noBest)
        as [[Hall' ->] | (q & Hq & Hsel)].
      + left. split; [reflexivity | apply emptyTier_false_all, Hall'].
      + right. split; [eapply selects_positive, Hsel | eapply Hgraded; eassumption].
    - pose proof (selects_positive _ _ _ _ Hsel) as Hpos.
      rewrite (gt0_not_zero _ Hpos).
      right. split; [exact Hpos | eapply Hgraded; eassumption]. }
  destruct Hcases as [[-> Hnone] | [Hpos Hex]].
  - split; [| reflexivity]. split; [discriminate |].
    intros (oc & Hoc & Hg). exfalso. exact (Hnone oc Hoc Hg).
  - split; [split; [intros _; exact Hex | intros _; exact Hpos] | congruence].
Qed.

Example ungraded_offer_runs :
  let result := Store.analyzeCard ascii_toLowerCase [mintOnly] false lotusWanted in
  Store.availableCards result = [mintOnly]
  /\ Store.totalAvailable result = Fin 1
  /\ Store.isFullyAvailable result = true
  /\ Store.cheapestPriceCents result = Fin 0.
Proof. vm_compute. repeat split; reflexivity. Qed.

(** ** Basket *)

Example basket_runs :
  List.map Basket.item_quantity (Basket.basket twoBolts) = [Fin 2]
  /\ List.map Basket.item_quantity
       (Basket.basket (Basket.addToBasket noon lightningBolt (offer (u "NM/M") 250 5)
                                          (Fin 9) twoBolts)) = [Fin 5]
  /\ List.map Basket.item_quantity
       (Basket.basket (Basket.updateBasketQuantity
                         (Basket.itemId lightningBolt (offer (u "NM/M") 250 5))
                         (Fin 0) twoBolts)) = []
  /\ List.map Basket.toast_type (Basket.toasts twoBolts) = [Basket.success].
Proof. vm_compute. repeat split; reflexivity. Qed.

Lemma findIndex_from_found {A} (p : A -> bool) (l : list A) (i : Z) :
  findIndex_from p l i <> -1 -> 0 <= i ->
  exists l1 x l2,
    l = l1 ++ x :: l2 /\ p x = true /\ (forall y, y ∈ l1 -> p y = false)
    /\ findIndex_from p l i = i + Z.of_nat (length l1).
Proof.
  revert i. induction l as [| x l IH]; intros i Hf Hi; simpl in *; [congruence |].
  destruct (p x) eqn:Hp.
  - exists [], x, l. split; [reflexivity | split; [exact Hp | split]].
    + intros y Hy. inversion Hy.
    + simpl. lia.
  - destruct (IH (i + 1) Hf ltac:(lia)) as (l1 & y & l2 & -> & Hy & Hl1 & E).
    exists (x :: l1), y, l2. split; [reflexivity | split; [exact Hy | split]].
    + intros z Hz. apply elem_of_cons in Hz as [-> | Hz]; [exact Hp | apply Hl1, Hz].
    + rewrite E. simpl length. lia.
Qed.

Lemma findIndex_found {A} (p : A -> bool) (l : list A) :
  (findIndex p l =? -1) = false ->
  exists l1 x l2,
    l = l1 ++ x :: l2 /\ p x = true /\ (forall y, y ∈ l1 -> p y = false)
    /\ Z.to_nat (findIndex p l) = length l1.
Proof.
  intros H. apply Z.eqb_neq in H.
  destruct (findIndex_from_found p l 0 H ltac:(lia)) as (l1 & x & l2 & E & Hx & Hl1 & Hi).
  exists l1, x, l2. unfold findIndex. rewrite Hi.
  split; [exact E | split; [exact Hx | split; [exact Hl1 | lia]]].
Qed.

Lemma findIndex_missing {A} (p : A -> bool) (l : list A) :
  (findIndex p l =? -1) = true -> forall x, x ∈ l -> p x = false.
Proof.
  intros H x Hx. apply Z.eqb_eq in H.
  apply (proj1 (findIndex_from_none p l 0 ltac:(lia)) H), list_elem_of_In, Hx.
Qed.

Lemma hasId_spec (id : jsstring) (item : Basket.BasketItem) :
  Basket.hasId id item = true <-> Basket.item_id item = id.
Proof. unfold Basket.hasId. apply str_eqb_eq. Qed.

Lemma hasId_false (id : jsstring) (item : Basket.BasketItem) :
  Basket.hasId id item = false <-> Basket.item_id item <> id.
Proof. unfold Basket.hasId. apply str_eqb_neq. Qed.

(** Facts on the numbers involved, by cases on the kind of number and on
    the integer comparisons. *)
Ltac jsnum_cases :=
  unfold gt0, jgt, jge, jle, jeq, min2, Basket.Math_max2, jlt, zero in *; simpl in *;
  repeat match goal with
         | H : context [(?x <? ?y)] |- _ => destruct (Z.ltb_spec x y); simpl in *
         | |- context [(?x <? ?y)] => destruct (Z.ltb_spec x y); simpl in *
         | H : context [bool_decide (?a = ?b)] |- _ =>
           destruct (bool_decide_reflect (a = b)); simpl in *
         | |- context [bool_decide (?a = ?b)] =>
           destruct (bool_decide_reflect (a = b)); simpl in *
         end;
  repeat match goal with
         | H : Fin _ = Fin _ |- _ => injection H as H
         | H : Fin ?a <> Fin ?b |- _ =>
           assert (a <> b) by (intros ->; apply H; reflexivity); clear H
         end;
  try discriminate; try congruence; try reflexivity; try (exfalso; lia).

Lemma gt0_min2 (a b : jsnum) :
  gt0 (min2 a b) = true ->
  gt0 a = true /\ gt0 b = true /\ jle (min2 a b) b = true.
Proof.
  destruct a as [x | | |], b as [y | | |]; intros Hm; (split; [| split]); jsnum_cases.
Qed.

Lemma jgt_min2_le (a b old : jsnum) :
  jgt (min2 a b) old = true -> jle (min2 a b) b = true.
Proof.
  destruct a as [x | | |], b as [y | | |], old as [z | | |]; intros Hm; jsnum_cases.
Qed.

Lemma jgt_positive (new old : jsnum) :
  jgt new old = true -> gt0 old = true -> gt0 new = true.
Proof.
  destruct new as [x | | |], old as [y | | |]; intros H1 H2; jsnum_cases.
Qed.

Lemma jgt_irrefl (x : jsnum) : jgt x x = false.
Proof. destruct x; jsnum_cases. Qed.

Lemma clamp_positive (q stk : jsnum) :
  q <> NaN -> gt0 stk = true ->
  jeq (min2 (Basket.Math_max2 q zero) stk) zero = false ->
  gt0 (min2 (Basket.Math_max2 q zero) stk) = true.
Proof.
  destruct q as [x | | |], stk as [y | | |]; intros Hq Hs Hz; jsnum_cases.
Qed.

Lemma NoDup_fmap_filter {A B} (f : A -> B) (p : A -> bool) (l : list A) :
  NoDup (f <$> l) -> NoDup (f <$> List.filter p l).
Proof.
  induction l as [| x l IH]; intros H; [exact H |].
  rewrite fmap_cons in H. apply NoDup_cons in H as [Hx H]. simpl.
  destruct (p x); [| apply IH, H].
  rewrite fmap_cons. apply NoDup_cons. split; [| apply IH, H].
  intros Hin. apply Hx. apply list_elem_of_fmap in Hin as (y & -> & Hy).
  apply list_elem_of_fmap. exists y. split; [reflexivity |].
  apply list_elem_of_In, filter_In in Hy as [Hy _]. apply list_elem_of_In, Hy.
Qed.

Lemma Forall_filter_keep {A} (P : A -> Prop) (p : A -> bool) (l : list A) :
  Forall P l -> Forall P (List.filter p l).
Proof.
  rewrite !Forall_forall. intros H x Hx.
  apply list_elem_of_In, filter_In in Hx as [Hx _]. apply H, list_elem_of_In, Hx.
Qed.

Lemma wellFormed_replace (nanAllowed : bool) (l1 l2 : list Basket.BasketItem)
      (x : Basket.BasketItem) (q : jsnum) :
  wellFormedBasket nanAllowed (l1 ++ x :: l2) ->
  (gt0 q = true \/ (nanAllowed = true /\ q = NaN)) ->
  wellFormedBasket nanAllowed (l1 ++ Basket.setQuantity x q :: l2).
Proof.
  intros [Hnd Hall] Hq. split.
  - rewrite fmap_app, fmap_cons in *. exact Hnd.
  - apply Forall_app in Hall as [H1 H2]. apply Forall_cons in H2 as [(Hid & Hs & _) H2].
    apply Forall_app. split; [exact H1 |]. constructor; [| exact H2].
    split; [exact Hid | split; [exact Hs | exact Hq]].
Qed.

Lemma wellFormed_delete (nanAllowed : bool) (l1 l2 : list Basket.BasketItem)
      (x : Basket.BasketItem) :
  wellFormedBasket nanAllowed (l1 ++ x :: l2) -> wellFormedBasket nanAllowed (l1 ++ l2).
Proof.
  intros [Hnd Hall]. split.
  - rewrite fmap_app, fmap_cons in Hnd. rewrite fmap_app.
    apply NoDup_app in Hnd as (H1 & H12 & H2). apply NoDup_cons in H2 as [_ H2].
    apply NoDup_app. split; [exact H1 | split; [| exact H2]].
    intros y Hy Hy2. apply (H12 y Hy). right. exact Hy2.
  - apply Forall_app in Hall as [H1 H2]. apply Forall_cons in H2 as [_ H2].
    apply Forall_app. auto.
Qed.

Lemma insert_found {A} (l1 l2 : list A) (x y : A) :
  <[length l1 := y]> (l1 ++ x :: l2) = l1 ++ y :: l2.
Proof.
  rewrite insert_app_r_alt by lia. rewrite Nat.sub_diag. reflexivity.
Qed.

Lemma delete_found {A} (l1 l2 : list A) (x : A) :
  delete (length l1) (l1 ++ x :: l2) = l1 ++ l2.
Proof.
  induction l1 as [| a l1 IH]; [reflexivity |]. simpl. f_equal. exact IH.
Qed.

Lemma lookup_found {A} (l1 l2 : list A) (x : A) :
  (l1 ++ x :: l2) !! length l1 = Some x.
Proof. apply list_lookup_middle. reflexivity. Qed.

Lemma act_well_formed (nanAllowed : bool) (s : Basket.State) (a : Basket.Action) :
  (nanAllowed = false -> numericUpdate a) ->
  wellFormedBasket nanAllowed (Basket.basket s) ->
  wellFormedBasket nanAllowed (Basket.basket (Basket.act s a)).
Proof.
  intros Hnum Hwf. destruct a as [clock card cond q | id | id q | | |]; simpl.
  - unfold Basket.addToBasket.
    destruct (findIndex (Basket.hasId (Basket.itemId card cond)) (Basket.basket s) =? -1)
      eqn:Hfind; simpl.
    + destruct (gt0 (min2 q (cond_stock cond))) eqn:Hq; simpl; [| exact Hwf].
      destruct Hwf as [Hnd Hall]. split.
      * rewrite fmap_app. simpl. apply NoDup_app. split; [exact Hnd | split].
        -- intros y Hy Hy'. apply list_elem_of_singleton in Hy'. subst y.
           apply list_elem_of_fmap in Hy as (item & E & Hitem).
           pose proof (findIndex_missing _ _ Hfind item Hitem) as Hno.
           apply hasId_false in Hno. congruence.
        -- apply NoDup_singleton.
      * apply Forall_app. split; [exact Hall |]. constructor; [| constructor].
        pose proof (gt0_min2 _ _ Hq) as (_ & Hs & _).
        split; [reflexivity | split; [exact Hs | left; exact Hq]].
    + destruct (findIndex_found _ _ Hfind) as (l1 & x & l2 & E & Hx & Hl1 & Hi).
      rewrite Hi, E, lookup_found.
      destruct (jgt (min2 (jadd (Basket.item_quantity x) q) (cond_stock cond))
                    (Basket.item_quantity x)) eqn:Hgt; simpl.
      * rewrite insert_found. rewrite E in Hwf. apply wellFormed_replace; [exact Hwf |].
        destruct Hwf as [_ Hall]. apply Forall_app in Hall as [_ Hall].
        apply Forall_cons in Hall as [(_ & _ & Hqx) _].
        destruct Hqx as [Hqx | [_ Hqx]].
        -- left. eapply jgt_positive; eassumption.
        -- rewrite Hqx in Hgt. unfold jgt in Hgt.
           destruct (min2 (jadd NaN q) (cond_stock cond)); discriminate.
      * exact Hwf.
  - destruct Hwf as [Hnd Hall].
    split; [apply NoDup_fmap_filter, Hnd | apply Forall_filter_keep, Hall].
  - unfold Basket.updateBasketQuantity.
    destruct (findIndex (Basket.hasId id) (Basket.basket s) =? -1) eqn:Hfind; simpl;
      [exact Hwf |].
    destruct (findIndex_found _ _ Hfind) as (l1 & x & l2 & E & Hx & Hl1 & Hi).
    rewrite Hi, E, lookup_found. rewrite E in Hwf.
    destruct (jeq (min2 (Basket.Math_max2 q zero) (cond_stock (Basket.item_condition x))) zero)
      eqn:Hz; simpl.
    + rewrite delete_found. eapply wellFormed_delete, Hwf.
    + rewrite insert_found. apply wellFormed_replace; [exact Hwf |].
      destruct Hwf as [_ Hall]. apply Forall_app in Hall as [_ Hall].
      apply Forall_cons in Hall as [(_ & Hs & _) _].
      destruct (decide (q = NaN)) as [-> | Hq].
      * right. split; [| reflexivity].
        destruct nanAllowed; [reflexivity |]. exfalso. exact (Hnum eq_refl).
      * left. apply clamp_positive; assumption.
  - split; [apply NoDup_nil_2 | constructor].
  - exact Hwf.
  - exact Hwf.
Qed.

Lemma fold_act_well_formed (nanAllowed : bool) (actions : list Basket.Action)
      (s : Basket.State) :
  (nanAllowed = false -> Forall numericUpdate actions) ->
  wellFormedBasket nanAllowed (Basket.basket s) ->
  wellFormedBasket nanAllowed (Basket.basket (fold_left Basket.act actions s)).
Proof.
  revert s. induction actions as [| a actions IH]; intros s Hnum Hwf; [exact Hwf |].
  simpl. apply IH.
  - intros E. specialize (Hnum E). apply Forall_cons in Hnum. tauto.
  - apply act_well_formed; [| exact Hwf].
    intros E. specialize (Hnum E). apply Forall_cons in Hnum. tauto.
Qed.

Lemma session_well_formed (nanAllowed : bool) (actions : list Basket.Action) :
  (nanAllowed = false -> Forall numericUpdate actions) ->
  wellFormedBasket nanAllowed (Basket.basket (Basket.session actions)).
Proof.
  intros Hnum. apply fold_act_well_formed; [exact Hnum |].
  split; [apply NoDup_nil_2 | constructor].
Qed.

(** X23. Whatever actions are taken from the empty basket, no two items
    of the basket share an id, each item's id is the one made of its card
    and offer, and each item's offer has positive stock.  Each quantity is
    positive, unless [updateBasketQuantity] was called with NaN, which is
    stored as it is. *)
Theorem basket_stays_well_formed (actions : list Basket.Action) :
  wellFormedBasket true (Basket.basket (Basket.session actions))
  /\ (Forall numericUpdate actions ->
      wellFormedBasket false (Basket.basket (Basket.session actions)))
  /\ Basket.item_quantity
     <$> Basket.basket
           (Basket.session
              [Basket.AddToBasket noon lightningBolt (offer (u "NM/M") 250 5) (Fin 2);
               Basket.UpdateBasketQuantity
                 (Basket.itemId lightningBolt (offer (u "NM/M") 250 5)) NaN])
     = [NaN].
Proof.
  split; [apply session_well_formed; discriminate | split].
  - intros Hnum. apply session_well_formed. intros _. exact Hnum.
  - reflexivity.
Qed.

Lemma setBasket_same (s : Basket.State) : Basket.setBasket (Basket.basket s) s = s.
Proof. destruct s. reflexivity. Qed.

Lemma app_cons_neq {A} (l : list A) (x : A) : l ++ [x] <> l.
Proof.
  intros E. apply (f_equal length) in E. rewrite length_app in E. simpl in E. lia.
Qed.

(** X24. [addToBasket] always raises exactly one toast, a success toast
    if it changed the basket and an error toast if it did not.  It changes
    at most the item whose id is made of the card and offer passed, and the
    quantity it sets is at most the stock of the offer passed; the other
    items stay as they are. *)
Theorem add_respects_stock_of_offer
        (clock : Basket.Clock) (card : ListingRecord) (cond : CardCondition)
        (quantity : jsnum) (s : Basket.State) :
  let s' := Basket.addToBasket clock card cond quantity s in
  (exists t, Basket.toasts s' = Basket.toasts s ++ [t]
             /\ Basket.toast_id t = Basket.msNow clock
             /\ (Basket.toast_type t = Basket.success /\ Basket.basket s' <> Basket.basket s
                 \/ Basket.toast_type t = Basket.error /\ Basket.basket s' = Basket.basket s))
  /\ (forall item, item ∈ Basket.basket s' ->
                   item ∈ Basket.basket s
                   \/ (Basket.item_id item = Basket.itemId card cond
                       /\ jle (Basket.item_quantity item) (cond_stock cond) = true))
  /\ (length (Basket.basket s) <= length (Basket.basket s') <= length (Basket.basket s) + 1)%nat
  /\ Basket.isBasketOpen s' = Basket.isBasketOpen s.
Proof.
  intros s'. unfold s', Basket.addToBasket.
  destruct (findIndex (Basket.hasId (Basket.itemId card cond)) (Basket.basket s) =? -1)
    eqn:Hfind; simpl.
  - destruct (gt0 (min2 quantity (cond_stock cond))) eqn:Hq; simpl.
    + split; [eexists; split; [reflexivity | split; [reflexivity |]] |].
      { left. split; [reflexivity | apply app_cons_neq]. }
      split; [| split; [rewrite length_app; simpl; lia | reflexivity]].
      intros item Hitem. apply elem_of_app in Hitem as [Hitem | Hitem]; [left; exact Hitem |].
      apply list_elem_of_singleton in Hitem. subst item. right. simpl.
      split; [reflexivity | apply (gt0_min2 _ _ Hq)].
    + split; [eexists; split; [reflexivity | split; [reflexivity |]] |].
      { right. split; reflexivity. }
      split; [auto | split; [lia | reflexivity]].
  - destruct (findIndex_found _ _ Hfind) as (l1 & x & l2 & E & Hx & Hl1 & Hi).
    assert (Hlook : Basket.basket s !! length l1 = Some x)
      by (rewrite E; apply lookup_found).
    rewrite Hi, Hlook.
    destruct (jgt (min2 (jadd (Basket.item_quantity x) quantity) (cond_stock cond))
                  (Basket.item_quantity x)) eqn:Hgt; simpl.
    + rewrite E, insert_found.
      split; [eexists; split; [reflexivity | split; [reflexivity |]] |].
      { left. split; [reflexivity |]. intros Heq.
        apply app_inv_head in Heq. injection Heq as Heq.
        apply (f_equal Basket.item_quantity) in Heq. simpl in Heq.
        rewrite Heq, jgt_irrefl in Hgt. discriminate. }
      split; [| split; [rewrite !length_app; simpl; lia | reflexivity]].
      intros item Hitem.
      apply elem_of_app in Hitem as [Hitem | Hitem];
        [left; apply elem_of_app; left; exact Hitem |].
      apply elem_of_cons in Hitem as [-> | Hitem];
        [| left; apply elem_of_app; right; right; exact Hitem].
      right. simpl. split; [apply hasId_spec, Hx | eapply jgt_min2_le, Hgt].
    + split; [eexists; split; [reflexivity | split; [reflexivity |]] |].
      { right. split; reflexivity. }
      split; [auto | split; [lia | reflexivity]].
Qed.

Lemma clamp_removed (q stk : jsnum) :
  jle q zero = true -> gt0 stk = true ->
  jeq (min2 (Basket.Math_max2 q zero) stk) zero = true.
Proof.
  destruct q as [x | | |], stk as [y | | |]; intros Hq Hs; jsnum_cases.
Qed.

Lemma clamp_kept (q stk : jsnum) :
  gt0 q = true -> gt0 stk = true ->
  jeq (min2 (Basket.Math_max2 q zero) stk) zero = false
  /\ min2 (Basket.Math_max2 q zero) stk = min2 q stk.
Proof.
  destruct q as [x | | |], stk as [y | | |]; intros Hq Hs; split; jsnum_cases.
Qed.

Lemma only_item_with_id (id : jsstring) (l1 l2 : list Basket.BasketItem)
      (x : Basket.BasketItem) :
  NoDup (Basket.item_id <$> l1 ++ x :: l2) -> Basket.hasId id x = true ->
  forall y, y ∈ l1 ++ l2 -> Basket.hasId id y = false.
Proof.
  intros Hnd Hx y Hy. apply hasId_spec in Hx. apply hasId_false. intros Hyid.
  rewrite fmap_app, fmap_cons in Hnd. apply NoDup_app in Hnd as (_ & H12 & H2).
  apply NoDup_cons in H2 as [Hx2 _].
  assert (Hin : Basket.item_id y ∈ Basket.item_id <$> l1 \/ Basket.item_id y ∈ Basket.item_id <$> l2).
  { apply elem_of_app in Hy as [Hy | Hy]; [left | right];
      apply list_elem_of_fmap; exists y; auto. }
  destruct Hin as [Hin | Hin].
  - apply (H12 _ Hin). apply elem_of_cons. left. congruence.
  - apply Hx2. rewrite Hx, <- Hyid. exact Hin.
Qed.

(** X25. [updateBasketQuantity] on a basket built by the actions.  A
    quantity of zero or less removes the item, exactly as [removeFromBasket]
    does; a positive quantity is stored capped at the stock of the item's
    offer, and the other items stay as they are.  An id that is not in the
    basket changes nothing in either case, and no toast is raised. *)
Theorem update_clamps_or_removes
        (id : jsstring) (quantity : jsnum) (s : Basket.State)
        (Hwf : wellFormedBasket true (Basket.basket s)) :
  (jle quantity zero = true ->
   Basket.updateBasketQuantity id quantity s = Basket.removeFromBasket id s)
  /\ (gt0 quantity = true ->
      Basket.updateBasketQuantity id quantity s
      = Basket.setBasket (clampQuantity id quantity <$> Basket.basket s) s)
  /\ ((forall item, item ∈ Basket.basket s -> Basket.item_id item <> id) ->
      Basket.updateBasketQuantity id quantity s = s)
  /\ Basket.toasts (Basket.updateBasketQuantity id quantity s) = Basket.toasts s.
Proof.
  unfold Basket.updateBasketQuantity, Basket.removeFromBasket.
  destruct (findIndex (Basket.hasId id) (Basket.basket s) =? -1) eqn:Hfind; simpl.
  - pose proof (findIndex_missing _ _ Hfind) as Hno.
    split; [| split; [| split; reflexivity]].
    + intros _. rewrite filter_all; [symmetry; apply setBasket_same |].
      intros y Hy. rewrite (Hno y) by (apply list_elem_of_In, Hy). reflexivity.
    + intros _. rewrite <- (setBasket_same s) at 1. f_equal.
      rewrite <- (list_fmap_id (Basket.basket s)) at 1. apply list_fmap_ext.
      intros i y Hy. unfold clampQuantity.
      rewrite (Hno y) by (eapply list_elem_of_lookup_2, Hy). reflexivity.
  - destruct (findIndex_found _ _ Hfind) as (l1 & x & l2 & E & Hx & Hl1 & Hi).
    assert (Hlook : Basket.basket s !! length l1 = Some x)
      by (rewrite E; apply lookup_found).
    rewrite Hi, Hlook. destruct Hwf as [Hnd Hall]. rewrite E in Hnd, Hall.
    pose proof (only_item_with_id id l1 l2 x Hnd Hx) as Hothers.
    assert (Hs : gt0 (cond_stock (Basket.item_condition x)) = true).
    { apply Forall_app in Hall as [_ Hall]. apply Forall_cons in Hall as [(_ & Hs & _) _].
      exact Hs. }
    split; [| split; [| split]].
    + intros Hq. rewrite (clamp_removed _ _ Hq Hs), E, delete_found. f_equal.
      rewrite List.filter_app. simpl. rewrite Hx. simpl.
      rewrite !filter_all; [reflexivity | |];
        intros y Hy; rewrite Hothers; try reflexivity;
        apply elem_of_app; [right | left]; apply list_elem_of_In, Hy.
    + intros Hq. destruct (clamp_kept _ _ Hq Hs) as [-> ->]. rewrite E, insert_found. f_equal.
      rewrite fmap_app, fmap_cons. unfold clampQuantity at 2. rewrite Hx.
      f_equal; [| f_equal];
        rewrite <- list_fmap_id at 1; apply list_fmap_ext; intros i y Hy;
        unfold clampQuantity; rewrite Hothers; try reflexivity;
        apply elem_of_app; [left | right]; eapply list_elem_of_lookup_2, Hy.
    + intros Hnone. exfalso. apply (Hnone x); [| apply hasId_spec, Hx].
      rewrite E. apply elem_of_app. right. left.
    + destruct (jeq _ zero); reflexivity.
Qed.

Lemma update_clamps_or_removes_witness :
  Basket.updateBasketQuantity (Basket.itemId lightningBolt (offer (u "NM/M") 250 5))
                              (Fin 9) twoBolts
  = Basket.setBasket
      (clampQuantity (Basket.itemId lightningBolt (offer (u "NM/M") 250 5)) (Fin 9)
       <$> Basket.basket twoBolts) twoBolts.
Proof.
  assert (Hwf : wellFormedBasket true (Basket.basket twoBolts))
    by (apply session_well_formed; discriminate).
  destruct (update_clamps_or_removes
              (Basket.itemId lightningBolt (offer (u "NM/M") 250 5)) (Fin 9) twoBolts Hwf)
    as (_ & Hpos & _).
  apply Hpos. reflexivity.
Defined.

(** ** Deck analysis totals *)

(** X26. In the stored analysis every deck entry is analysed once, in
    the order mainboard, sideboard, maybeboard, commanders, and counted
    either as available or as missing: the two counts add up to
    [totalCards].  An entry counts as available when the stock summed over
    the cards retained for it reaches the quantity asked; a card listed on
    two boards is counted twice. *)
Theorem deck_totals_add_up
        (toLowerCase : jsstring -> jsstring) (outpostData : list ListingRecord)
        (deck : Store.MoxfieldDeck) (matchCardStyle : bool) :
  let a := Analysis.analysis toLowerCase outpostData deck matchCardStyle in
  let entries := Store.mainboard deck ++ Store.sideboard deck
                 ++ Store.maybeboard deck ++ Store.commanders deck in
  (Analysis.availableCards a + Analysis.missingCards a = Analysis.totalCards a)%nat
  /\ Analysis.totalCards a
     = (length (Store.mainboard deck) + length (Store.sideboard deck)
        + length (Store.maybeboard deck) + length (Store.commanders deck))%nat
  /\ Analysis.cardAvailability a
     = Store.analyzeDeck toLowerCase outpostData deck matchCardStyle
  /\ Store.cardName <$> Analysis.cardAvailability a = Store.mox_name <$> entries
  /\ Analysis.availableCards a
     = count (fun card =>
                jge (Store.totalAvailable
                       (Store.analyzeCard toLowerCase outpostData matchCardStyle card))
                    (Store.quantity card))
             entries.
Proof.
  intros a entries. unfold a, Analysis.analysis. fold entries.
  cbn [Analysis.availableCards Analysis.missingCards Analysis.totalCards
       Analysis.cardAvailability].
  split; [| split; [| split; [| split]]].
  - rewrite <- (length_map (Store.analyzeCard toLowerCase outpostData matchCardStyle) entries).
    apply (count_split Store.isFullyAvailable).
  - unfold entries. rewrite !length_app. lia.
  - reflexivity.
  - induction entries as [| e es IH]; [reflexivity |].
    cbn [List.map]. rewrite !fmap_cons. f_equal. exact IH.
  - unfold count. induction entries as [| e es IH]; [reflexivity |]. simpl.
    destruct (jge _ (Store.quantity e)); simpl; rewrite IH; reflexivity.
Qed.

(** ** Extractor: stock parsing *)

Lemma digit_cases (c : N) :
  is_digit c = true ->
  (c = 48 \/ c = 49 \/ c = 50 \/ c = 51 \/ c = 52 \/ c = 53 \/ c = 54 \/ c = 55
   \/ c = 56 \/ c = 57)%N.
Proof.
  unfold is_digit. rewrite andb_true_iff, !N.leb_le. lia.
Qed.

Lemma parseInt_digits (ds rest : jsstring) :
  ds <> [] -> all_digits ds -> stops rest ->
  parseInt (ds ++ rest) = rnd (digits_val ds).
Proof.
  intros Hne Hds Hrest. destruct ds as [| d ds']; [congruence |].
  pose proof (take_while_digits (d :: ds') rest Hds Hrest) as Htake.
  pose proof (Forall_inv Hds) as Hd. apply digit_cases in Hd.
  unfold parseInt.
  assert (Hs1 : trimStart ((d :: ds') ++ rest) = (d :: ds') ++ rest)
    by (decompose [or] Hd; subst d; reflexivity).
  rewrite Hs1.
  assert (Hsign : match (d :: ds') ++ rest with
                  | 45%N :: t => (true, t)
                  | 43%N :: t => (false, t)
                  | _ => (false, (d :: ds') ++ rest)
                  end = (false, (d :: ds') ++ rest))
    by (decompose [or] Hd; subst d; reflexivity).
  rewrite Hsign, Htake. reflexivity.
Qed.

Lemma parseInt_minus (ds rest : jsstring) :
  ds <> [] -> all_digits ds -> stops rest ->
  parseInt (45%N :: ds ++ rest) = rnd (- digits_val ds).
Proof.
  intros Hne Hds Hrest. destruct ds as [| d ds']; [congruence |].
  pose proof (take_while_digits (d :: ds') rest Hds Hrest) as Htake.
  unfold parseInt. change (trimStart (45%N :: ?s)) with (45%N :: s).
  cbv beta iota. rewrite Htake. reflexivity.
Qed.

Lemma rnd_exact (z : Z) : Z.abs z < 2 ^ 53 -> rnd z = Fin z.
Proof.
  intros H. unfold rnd. destruct (Z.ltb_spec (Z.abs z) (2 ^ 53)); [reflexivity | lia].
Qed.

(** X27. The stock of a sale row, read from the trimmed text of its
    stock elements: no text gives 0; a text starting with digits gives the
    number they write, whatever follows them; a minus sign before the digits
    gives the negative number, so a stock can be negative where a price
    cannot; a text starting with anything but a digit or a sign gives NaN. *)
Theorem stock_parsing (sale : SaleElement) :
  (trim (stockText sale) = [] -> parseStock sale = Fin 0)
  /\ (forall ds rest,
         trim (stockText sale) = ds ++ rest ->
         ds <> [] -> all_digits ds -> stops rest -> digits_val ds < 2 ^ 53 ->
         parseStock sale = Fin (digits_val ds))
  /\ (forall ds rest,
         trim (stockText sale) = 45%N :: ds ++ rest ->
         ds <> [] -> all_digits ds -> stops rest -> digits_val ds < 2 ^ 53 ->
         parseStock sale = Fin (- digits_val ds))
  /\ (forall c rest,
         trim (stockText sale) = c :: rest ->
         is_digit c = false -> is_ws c = false -> c <> 45%N -> c <> 43%N ->
         parseStock sale = NaN).
Proof.
  unfold parseStock. split; [| split; [| split]].
  - intros ->. reflexivity.
  - intros ds rest -> Hne Hds Hrest Hlt.
    destruct ds as [| d ds']; [congruence |].
    change (truthy ((d :: ds') ++ rest)) with true. cbv iota.
    rewrite (parseInt_digits (d :: ds') rest) by assumption.
    apply rnd_exact. pose proof (digits_val_bound _ Hds). lia.
  - intros ds rest -> Hne Hds Hrest Hlt. cbn [truthy].
    rewrite parseInt_minus by assumption.
    apply rnd_exact. pose proof (digits_val_bound _ Hds). lia.
  - intros c rest -> Hd Hw H45 H43. cbn [truthy]. unfold parseInt, trimStart.
    cbn [drop_while]. rewrite Hw.
    assert (Hsign : match c :: rest with
                    | 45%N :: t => (true, t)
                    | 43%N :: t => (false, t)
                    | _ => (false, c :: rest)
                    end = (false, c :: rest)).
    { destruct c as [| p]; [reflexivity |].
      do 6 (destruct p as [p | p |]; try reflexivity); try congruence;
        destruct p; reflexivity. }
    rewrite Hsign. cbn [take_while]. rewrite Hd. reflexivity.
Qed.

(** ** Orchestrator: a run without collections *)

(** X28. When the snapshot is missing or lists no collection, the run
    ends at once and touches no file: an output file or a checkpoint left by
    an earlier run stays as it is. *)
Theorem run_without_collections_touches_nothing
        (toLowerCase : jsstring -> jsstring) (w : World) (fs : FileSystem)
        (Hnone : parseCollectionsFromHTML (snapshot w) = []) :
  scrapeAllCollections toLowerCase w fs = (Finished, fs).
Proof.
  unfold scrapeAllCollections, tryBlock. rewrite Hnone. reflexivity.
Qed.

Lemma run_without_collections_touches_nothing_witness :
  scrapeAllCollections ascii_toLowerCase
    {| snapshot := None; hasCards := fun _ => true;
       scrapeCollectionWithRetry := fun _ => [];
       saveProgressThrows := fun _ => false;
       writeOutputThrows := false; unlinkThrows := false |}
    resumedTwice
  = (Finished, resumedTwice).
Proof.
  apply run_without_collections_touches_nothing. reflexivity.
Defined.

(** ** Consolidated data under the deck matcher *)

Lemma exactMatches_unique (toLowerCase : jsstring -> jsstring)
      (l : list ListingRecord) (card : Store.MoxfieldCard) :
  NoDup (cardName toLowerCase <$> l) ->
  (length (Store.exactMatches toLowerCase l card) <= 1)%nat.
Proof.
  unfold Store.exactMatches. induction l as [| x l IH]; intros Hnd; simpl; [lia |].
  rewrite fmap_cons in Hnd. apply NoDup_cons in Hnd as [Hx Hnd].
  destruct (str_eqb (toLowerCase (name x)) (toLowerCase (Store.mox_name card))) eqn:Ex;
    [| apply IH, Hnd].
  rewrite filter_nil_all; [simpl; lia |].
  intros y Hy. apply str_eqb_neq. intros Ey. apply str_eqb_eq in Ex. apply Hx.
  apply list_elem_of_fmap. exists y. split; [| apply list_elem_of_In, Hy].
  unfold cardName. rewrite Ex, Ey. reflexivity.
Qed.

(** X29. In data that went through [consolidateCards], the matcher's
    first step, the comparison of lower-cased names, finds at most one card
    for a deck entry: two records whose lower-cased names are equal fall in
    the same consolidation group, of which one record is kept. *)
Theorem exact_match_is_unique_after_consolidation
        (toLowerCase : jsstring -> jsstring) (cards : list ListingRecord)
        (card : Store.MoxfieldCard) :
  (length (Store.exactMatches toLowerCase (consolidateCards toLowerCase cards) card)
   <= 1)%nat.
Proof.
  destruct (consolidateCards_sound toLowerCase cards) as [_ Hnames].
  apply exactMatches_unique. exact Hnames.
Qed.
